(** * oemof.solph: constraint blocks ([blocks.py]) and custom components
    ([custom.py])

    A shallow embedding of the block builders.  Python objects of the
    topology are identified by their label; attribute access [n.attr] reads
    the topology snapshot.  Python numbers are rationals; Pyomo expressions
    are syntax trees built by the Python operators; exceptions are values of
    an error monad. *)

From Stdlib Require Import QArith Ascii.
From stdpp Require Import gmap strings list fin_maps.

Local Open Scope string_scope.

(** ** Python substrate *)

Module Py.

(** Exceptions raised by the modelled code. *)
Inductive exn :=
| ValueError (args : list string)
| TypeError
| KeyError
| IndexError
| AttributeError
| NameError
| ZeroDivisionError.

Inductive result (A : Type) :=
| Ok (a : A)
| Raise (e : exn).
Arguments Ok {A} a.
Arguments Raise {A} e.

#[global] Instance result_ret : MRet result := fun _ a => Ok a.
#[global] Instance result_bind : MBind result := fun _ _ f r =>
  match r with
  | Ok a => f a
  | Raise e => Raise e
  end.

Definition is_Ok {A} (r : result A) : Prop := exists a, r = Ok a.

(** [for a in l: s = body(a, s)] *)
Fixpoint for_ {A S : Type} (l : list A) (body : A -> S -> result S) (s : S)
  : result S :=
  match l with
  | [] => Ok s
  | a :: l' => s' ← body a s; for_ l' body s'
  end.

(** Values that reach the code through keyword arguments. *)
Inductive pyval :=
| PyNone
| PyBool (b : bool)
| PyNum (q : Q)
| PyStr (s : string).

(** [v is True] *)
Definition is_True (v : pyval) : bool :=
  match v with
  | PyBool true => true
  | _ => false
  end.

(** [v == True]: Python compares numbers and booleans by value. *)
Definition eq_True (v : pyval) : bool :=
  match v with
  | PyBool b => b
  | PyNum q => Qeq_bool q 1
  | _ => false
  end.

(** [kwargs.get(key, default)] *)
Definition kwargs_get (kwargs : gmap string pyval) (key : string)
    (default : pyval) : pyval :=
  match kwargs !! key with
  | Some v => v
  | None => default
  end.

(** [d[k]] on a dict *)
Definition getitem `{Countable K} {V} (d : gmap K V) (k : K) : result V :=
  match d !! k with
  | Some v => Ok v
  | None => Raise KeyError
  end.

(** [l[-1]] *)
Definition last_item {A} (l : list A) : result A :=
  match last l with
  | Some a => Ok a
  | None => Raise IndexError
  end.

End Py.
Export Py.

(** ** Pyomo substrate: variables, expressions, constraints *)

Definition Node := string.
Abbreviation Edge := (Node * Node)%type.

(** The decision variables of the model, by the component that owns them. *)
Inductive var :=
| flow (i o : Node) (t : nat)
| positive_flow_gradient (i o : Node) (t : nat)
| negative_flow_gradient (i o : Node) (t : nat)
| Storage_capacity (n : Node) (t : nat)
| InvestmentStorage_capacity (n : Node) (t : nat)
| InvestmentStorage_invest (n : Node)
| InvestmentFlow_invest (i o : Node)
| Discrete_status (i o : Node) (t : nat)
| voltage_angle (b : Node) (t : nat).

(** A Python number or a Pyomo expression. *)
Inductive expr :=
| Num (q : Q)
| V (v : var)
| Add (a b : expr)
| Sub (a b : expr)
| Mul (a b : expr)
| Div (a b : expr)
| Neg (a : expr).

Inductive relop := EQ | LE | GE.

Record constr := Constr { lhs : expr; rel : relop; rhs : expr }.

(** The result of a comparison: a Python bool between numbers, a
    relational expression as soon as a variable is involved. *)
Inductive pyrel :=
| RelBool (b : bool)
| RelExpr (c : constr).

(** Python's arithmetic operators: numbers compute, anything else builds a
    tree. *)
Definition py_add (a b : expr) : expr :=
  match a, b with
  | Num x, Num y => Num (x + y)%Q
  | _, _ => Add a b
  end.

Definition py_sub (a b : expr) : expr :=
  match a, b with
  | Num x, Num y => Num (x - y)%Q
  | _, _ => Sub a b
  end.

Definition py_mul (a b : expr) : expr :=
  match a, b with
  | Num x, Num y => Num (x * y)%Q
  | _, _ => Mul a b
  end.

Definition py_neg (a : expr) : expr :=
  match a with
  | Num x => Num (- x)%Q
  | _ => Neg a
  end.

Definition py_div (a b : expr) : result expr :=
  match b with
  | Num y =>
      if Qeq_bool y 0 then Raise ZeroDivisionError
      else match a with
           | Num x => Ok (Num (x / y)%Q)
           | _ => Ok (Div a b)
           end
  | _ => Ok (Div a b)
  end.

Definition py_cmp (op : relop) (a b : expr) : pyrel :=
  match a, b with
  | Num x, Num y =>
      RelBool match op with
              | EQ => Qeq_bool x y
              | LE => Qle_bool x y
              | GE => Qle_bool y x
              end
  | _, _ => RelExpr (Constr a op b)
  end.

(** [sum(terms)]: Python starts from the integer [0]. *)
Definition py_sum (terms : list expr) : expr := foldl py_add (Num 0) terms.

(** [x * y] where either operand may be [None]. *)
Definition mul_opt (x y : option Q) : result Q :=
  match x, y with
  | Some a, Some b => Ok (a * b)%Q
  | _, _ => Raise TypeError
  end.

(** Meaning of an expression under a valuation of the variables. *)
Fixpoint eval (env : var -> Q) (e : expr) : Q :=
  match e with
  | Num q => q
  | V v => env v
  | Add a b => (eval env a + eval env b)%Q
  | Sub a b => (eval env a - eval env b)%Q
  | Mul a b => (eval env a * eval env b)%Q
  | Div a b => (eval env a / eval env b)%Q
  | Neg a => (- eval env a)%Q
  end.

Definition holds (env : var -> Q) (c : constr) : Prop :=
  match rel c with
  | EQ => (eval env (lhs c) == eval env (rhs c))%Q
  | LE => (eval env (lhs c) <= eval env (rhs c))%Q
  | GE => (eval env (rhs c) <= eval env (lhs c))%Q
  end.

(** Expressions that are sums, as opposed to numbers. *)
Definition is_Add (e : expr) : Prop :=
  match e with
  | Add _ _ => True
  | _ => False
  end.

(** The sum of a list of numbers, to state what [py_sum] means. *)
Definition Qsum (l : list Q) : Q := foldr Qplus 0%Q l.

(** A Pyomo variable: bounds, domain, and the value it is fixed to. *)
Inductive domain := Reals | NonNegativeReals | Binary.

Record VarData := mkVar {
  within : domain;
  lb : option Q;
  ub : option Q;
  value : option Q;
  fixed : bool
}.

(** [Var(index, within=.., bounds=rule)] *)
Definition Var_ `{Countable K} (index : list K) (dom : domain)
    (bounds : K -> result (option Q * option Q)) : result (gmap K VarData) :=
  for_ index
       (fun k vs => b ← bounds k; Ok (<[k := mkVar dom b.1 b.2 None false]> vs))
       ∅.

Definition unbounded {K} (_ : K) : result (option Q * option Q) :=
  Ok (None, None).

(** [vars[k]] for a key that does not come from the index itself. *)
Definition var_ref `{Countable K} (vars : gmap K VarData) (k : K) (v : var)
  : result expr :=
  match vars !! k with
  | Some _ => Ok (V v)
  | None => Raise KeyError
  end.

(** [x * e] where [x] may be [None]. *)
Definition num_opt (x : option Q) : result expr :=
  match x with
  | Some q => Ok (Num q)
  | None => Raise TypeError
  end.

(** [try: body except: handler] with a bare [except]. *)
Definition try_except {A} (body : result A) (handler : result A) : result A :=
  match body with
  | Ok a => Ok a
  | Raise _ => handler
  end.

(** [container.add(key, expr)]: Pyomo refuses a constant truth value. *)
Definition Constraint_add `{Countable K} (key : K) (r : pyrel)
    (cs : gmap K constr) : result (gmap K constr) :=
  match r with
  | RelExpr c => Ok (<[key := c]> cs)
  | RelBool _ =>
      Raise (ValueError ["Constraint resolved to a trivial Boolean"])
  end.

(** [Constraint(index, rule=rule)] *)
Definition Constraint_ `{Countable K} (index : list K)
    (rule : K -> result pyrel) : result (gmap K constr) :=
  for_ index (fun k cs => r ← rule k; Constraint_add k r cs) ∅.

(** The variable that [Var] stores under a key. *)
Definition var_of {K} (dom : domain)
    (bounds : K -> result (option Q * option Q)) (k : K) : result VarData :=
  b ← bounds k; Ok (mkVar dom b.1 b.2 None false).

(** The check that [container.add] makes before it stores. *)
Definition as_constr (r : pyrel) : result constr :=
  match r with
  | RelExpr c => Ok c
  | RelBool _ =>
      Raise (ValueError ["Constraint resolved to a trivial Boolean"])
  end.

(** The constraint a rule answers, if it answers one. *)
Definition rule_constr {K} (rule : K -> result pyrel) (k : K)
  : option constr :=
  match rule k with
  | Ok (RelExpr c) => Some c
  | _ => None
  end.

(** ** The topology snapshot ([network.py], [options.py]) *)

(** A per-timestep attribute: [len(s)] and [s[t]]. *)
Record sequence (A : Type) := Sequence { seq_len : nat; seq_at :> nat -> A }.
Arguments Sequence {A} _ _.
Arguments seq_len {A} _.
Arguments seq_at {A} _ _.

(** [sequence(x)] for a scalar [x]: every index answers [x]. *)
Definition scalar {A} (x : A) : sequence A := Sequence 0 (fun _ => x).

Module options.

Record Investment := mkInvestment {
  maximum : option Q;              (* [None]: unbounded *)
  ep_costs : option Q
}.

Record Discrete := mkDiscrete {
  start_costs : option Q
}.

End options.

Module network.

(** An edge object. *)
Record Flow := mkFlow {
  nominal_value : option Q;
  min : sequence Q;
  max : sequence Q;
  actual_value : sequence Q;
  summed_min : option Q;
  summed_max : option Q;
  positive_gradient : sequence (option Q);
  negative_gradient : sequence (option Q);
  fixed_costs : option Q;
  variable_costs : sequence (option Q);
  fixed : bool;
  investment : options.Investment;
  discrete : options.Discrete
}.

Record Bus := mkBus {
  inputs : list Node;
  outputs : list Node
}.

Record Storage := mkStorage {
  nominal_capacity : Q;
  capacity_min : sequence Q;
  capacity_max : sequence Q;
  capacity_loss : sequence Q;
  inflow_conversion_factor : sequence Q;
  outflow_conversion_factor : sequence Q;
  initial_capacity : option Q;
  nominal_input_capacity_ratio : Q;
  nominal_output_capacity_ratio : Q;
  storage_fixed_costs : option Q;
  storage_investment : options.Investment
}.

(** A transformer object as [LinearTransformer._create] reads it: its
    outputs and the dict [conversion_factors] from outputs to sequences. *)
Record LinearTransformer := mkLinearTransformer {
  transformer_outputs : list Node;
  conversion_factors : gmap Node (sequence Q)
}.

End network.

(** ** The classes of [custom.py] *)

Module custom.

Record ElectricalBus := mkElectricalBus {
  slack : pyval;
  v_max : pyval;
  v_min : pyval
}.

(** [ElectricalBus.__init__(self, *args, **kwargs)]: the attributes the
    class adds to those of [Bus]. *)
Definition ElectricalBus__init__ (kwargs : gmap string pyval)
  : ElectricalBus :=
  mkElectricalBus (kwargs_get kwargs "slack" (PyBool true))
                  (kwargs_get kwargs "v_max" (PyNum 1000))
                  (kwargs_get kwargs "v_min" (PyNum (-1000))).

Record ElectricalLine := mkElectricalLine {
  line_inputs : list Node;
  line_outputs : list Node;
  reactance : sequence Q
}.

(** Modelled from the spec: [_input()] and [_output()] of the [Transformer]
    base class (in [network.py], not in these two modules) answer the single
    input and the single output bus of a line. *)
Definition _input (l : ElectricalLine) : result Node :=
  match line_inputs l with
  | i :: _ => Ok i
  | [] => Raise IndexError
  end.

Definition _output (l : ElectricalLine) : result Node :=
  match line_outputs l with
  | o :: _ => Ok o
  | [] => Raise IndexError
  end.

(** [ElectricalLine.__init__(self, *args, **kwargs)]: [inputs] and
    [outputs] are what the base class stores from the arguments;
    [reactance] is the keyword argument, a number when it is given. *)
Definition ElectricalLine__init__ (inputs outputs : list Node)
    (reactance : option Q) : result ElectricalLine :=
  let self :=
    mkElectricalLine
      inputs outputs
      (scalar match reactance with
              | Some x => x
              | None => (1 # 100000)%Q
              end) in
  if decide (1 < length (line_inputs self) \/ 1 < length (line_outputs self))
  then Raise (ValueError
                ["Component ElectricLine must not have more than                              one input and one output!"])
  else Ok self.

End custom.

(** Modelled from the spec: the [previous(t)] mapping of the time index
    ([m.previous_timesteps], built by the operational model and not by these
    two modules): [previous(first) = last] and [previous(t) = t - 1]
    otherwise. *)
Definition previous (timesteps : list nat) (t : nat) : nat :=
  match timesteps with
  | first :: _ => if decide (t = first) then List.last timesteps first
                  else t - 1
  | [] => t - 1
  end.

(** The parent block [m] as the builders see it.  [m.flow] holds a variable
    for every edge and timestep of the topology. *)
Record Model := mkModel {
  timesteps : list nat;                       (* [m.timesteps], [m.TIMESTEPS] *)
  timeincrement : Q;
  flows : gmap (Node * Node) network.Flow;    (* [m.flows] *)
  INPUTS : gmap Node Node;
  OUTPUTS : gmap Node Node;
  nodes : list Node;                          (* [m.es.nodes] *)
  bus : Node -> network.Bus;                  (* bus objects *)
  storage : Node -> network.Storage;          (* storage objects *)
  electrical_line : Node -> custom.ElectricalLine
}.

Definition previous_timesteps (m : Model) (t : nat) : nat :=
  previous (timesteps m) t.

(** ** [class Storage(SimpleBlock)] *)

Module Storage.

Record t := mk {
  STORAGES : option (list Node);
  capacity : gmap (Node * nat) VarData;
  balance : gmap (Node * nat) constr;
  fixed_costs : option expr
}.

Definition new : t := mk None ∅ ∅ None.

Section create.
Variable m : Model.

Definition _storage_capacity_bound_rule (k : Node * nat)
  : result (option Q * option Q) :=
  let '(n, t) := k in
  let s := storage m n in
  Ok (Some (network.nominal_capacity s * network.capacity_min s t)%Q,
      Some (network.nominal_capacity s * network.capacity_max s t)%Q).

(** [v.value = x; v.fix()] *)
Definition set_value (x : Q) (v : VarData) : VarData :=
  mkVar (within v) (lb v) (ub v) (Some x) (fixed v).

Definition fix_ (v : VarData) : VarData :=
  mkVar (within v) (lb v) (ub v) (value v) true.

Definition set_initial_capacity (n : Node)
    (cap : gmap (Node * nat) VarData) : result (gmap (Node * nat) VarData) :=
  match network.initial_capacity (storage m n) with
  | Some c0 =>
      last ← last_item (timesteps m);
      v ← getitem cap (n, last);
      let x := (c0 * network.nominal_capacity (storage m n))%Q in
      let cap := <[(n, last) := set_value x v]> cap in
      v ← getitem cap (n, last);
      Ok (<[(n, last) := fix_ v]> cap)
  | None => Ok cap
  end.

Definition _storage_balance_rule (k : Node * nat) : result pyrel :=
  let '(n, t) := k in
  let s := storage m n in
  let expr := Num 0 in
  let expr := py_add expr (V (Storage_capacity n t)) in
  let expr :=
    py_add expr
      (py_mul (py_neg (V (Storage_capacity n (previous_timesteps m t))))
              (Num (1 - network.capacity_loss s t)%Q)) in
  i ← getitem (INPUTS m) n;
  let expr :=
    py_add expr
      (py_mul (py_mul (py_neg (V (flow i n t)))
                      (Num (network.inflow_conversion_factor s t)))
              (Num (timeincrement m))) in
  o ← getitem (OUTPUTS m) n;
  q ← py_div (V (flow n o t)) (Num (network.outflow_conversion_factor s t));
  let expr := py_add expr (py_mul q (Num (timeincrement m))) in
  Ok (py_cmp EQ expr (Num 0)).

Definition _create (group : option (list Node)) (self : t) : result t :=
  match group with
  | None => Ok self
  | Some group =>
      let STORAGES := group in
      capacity ← Var_ (cprod STORAGES (timesteps m)) Reals
                      _storage_capacity_bound_rule;
      capacity ← for_ group set_initial_capacity capacity;
      balance ← Constraint_ (cprod STORAGES (timesteps m))
                            _storage_balance_rule;
      Ok (mk (Some STORAGES) capacity balance (fixed_costs self))
  end.

(** [_objective_expression]: fixed costs of the storages. *)
Definition _objective_expression (self : t) : t * expr :=
  match STORAGES self with
  | None => (self, Num 0)
  | Some ss =>
      let fc :=
        foldl (fun acc n =>
                 match network.storage_fixed_costs (storage m n) with
                 | Some c =>
                     let nc := network.nominal_capacity (storage m n) in
                     py_add acc (Num (nc * c)%Q)
                 | None => acc
                 end) (Num 0) ss in
      (mk (STORAGES self) (capacity self) (balance self) (Some fc), fc)
  end.

End create.
End Storage.

(** ** [class InvestmentFlow(SimpleBlock)] *)

Module InvestmentFlow.

Record t := mk {
  FLOWS : option (list Edge);
  FIXEDFLOWS : list Edge;
  SUMMED_MAX_FLOWS : list Edge;
  SUMMED_MIN_FLOWS : list Edge;
  MAX_FLOWS : list Edge;
  MIN_FLOWS : list Edge;
  invest : gmap Edge VarData;
  bounds : gmap (Edge * nat) constr;
  max : gmap (Edge * nat) constr;
  min : gmap (Edge * nat) constr;
  summed_max : gmap Edge constr;
  summed_min : gmap Edge constr;
  investment_costs : option expr;
  fixed_costs : option expr;
  variable_costs : option expr
}.

Definition new : t := mk None [] [] [] [] [] ∅ ∅ ∅ ∅ ∅ ∅ None None None.

Section create.
Variable m : Model.

Definition edge (g : Node * Node * network.Flow) : Edge := (g.1.1, g.1.2).

Definition _investvar_bound_rule (k : Edge) : result (option Q * option Q) :=
  f ← getitem (flows m) k;
  Ok (Some 0%Q, options.maximum (network.investment f)).

Definition invest_var (k : Edge) : expr := V (InvestmentFlow_invest k.1 k.2).

Definition _investflow_bound_rule (k : Edge * nat) : result pyrel :=
  let '((i, o), t) := k in
  f ← getitem (flows m) (i, o);
  Ok (py_cmp EQ (V (flow i o t))
             (py_mul (invest_var (i, o)) (Num (network.actual_value f t)))).

Definition _max_investflow_rule (k : Edge * nat) : result pyrel :=
  let '((i, o), t) := k in
  f ← getitem (flows m) (i, o);
  Ok (py_cmp LE (V (flow i o t))
             (py_mul (Num (network.max f t)) (invest_var (i, o)))).

Definition _min_investflow_rule (k : Edge * nat) : result pyrel :=
  let '((i, o), t) := k in
  f ← getitem (flows m) (i, o);
  Ok (py_cmp GE (V (flow i o t))
             (py_mul (Num (network.min f t)) (invest_var (i, o)))).

(** [sum(m.flow[i, o, t] * m.timeincrement for t in m.TIMESTEPS)] *)
Definition summed_flow (i o : Node) : expr :=
  py_sum (map (fun t => py_mul (V (flow i o t)) (Num (timeincrement m)))
              (timesteps m)).

Definition _summed_max_investflow_rule (k : Edge) : result pyrel :=
  let '(i, o) := k in
  f ← getitem (flows m) (i, o);
  s ← num_opt (network.summed_max f);
  Ok (py_cmp LE (summed_flow i o) (py_mul s (invest_var (i, o)))).

Definition _summed_min_investflow_rule (k : Edge) : result pyrel :=
  let '(i, o) := k in
  f ← getitem (flows m) (i, o);
  s ← num_opt (network.summed_min f);
  Ok (py_cmp GE (summed_flow i o) (py_mul s (invest_var (i, o)))).

Definition _create (group : option (list (Node * Node * network.Flow)))
    (self : t) : result t :=
  match group with
  | None => Ok self
  | Some group =>
      let FLOWS := map edge group in
      let FIXEDFLOWS := map edge (filter (fun g => network.fixed g.2) group) in
      let SUMMED_MAX_FLOWS :=
        map edge (filter (fun g => is_Some (network.summed_max g.2)) group) in
      let SUMMED_MIN_FLOWS :=
        map edge (filter (fun g => is_Some (network.summed_min g.2)) group) in
      let MAX_FLOWS :=
        map edge (filter (fun g => seq_len (network.max g.2) ≠ 0%nat) group) in
      let MIN_FLOWS :=
        map edge (filter (fun g => seq_len (network.min g.2) ≠ 0%nat) group) in
      invest ← Var_ FLOWS NonNegativeReals _investvar_bound_rule;
      bounds ← Constraint_ (cprod FIXEDFLOWS (timesteps m))
                           _investflow_bound_rule;
      max ← Constraint_ (cprod MAX_FLOWS (timesteps m)) _max_investflow_rule;
      min ← Constraint_ (cprod MIN_FLOWS (timesteps m)) _min_investflow_rule;
      summed_max ← Constraint_ SUMMED_MAX_FLOWS _summed_max_investflow_rule;
      summed_min ← Constraint_ SUMMED_MIN_FLOWS _summed_min_investflow_rule;
      Ok (mk (Some FLOWS) FIXEDFLOWS SUMMED_MAX_FLOWS SUMMED_MIN_FLOWS
             MAX_FLOWS MIN_FLOWS invest bounds max min summed_max summed_min
             (investment_costs self) (fixed_costs self) (variable_costs self))
  end.

(** One turn of the loop of [_objective_expression]; the state is the pair
    [(fixed_costs, investment_costs)]. *)
Definition objective_step (k : Edge) (acc : expr * expr)
  : result (expr * expr) :=
  f ← getitem (flows m) k;
  let fixed_costs :=
    match network.fixed_costs f with
    | Some c => py_add acc.1 (py_mul (invest_var k) (Num c))
    | None => acc.1
    end in
  match options.ep_costs (network.investment f) with
  | Some c =>
      Ok (fixed_costs, py_add acc.2 (py_mul (invest_var k) (Num c)))
  | None => Raise (ValueError ["Missing value for investment costs!"])
  end.

Definition _objective_expression (self : t) : result (t * expr) :=
  match FLOWS self with
  | None => Ok (self, Num 0)
  | Some FLOWS_ =>
      let fixed_costs := Num 0 in
      let variable_costs := Num 0 in
      let investment_costs := Num 0 in
      acc ← for_ FLOWS_ objective_step (fixed_costs, investment_costs);
      let '(fixed_costs, investment_costs) := acc in
      Ok (mk (FLOWS self) (FIXEDFLOWS self) (SUMMED_MAX_FLOWS self)
             (SUMMED_MIN_FLOWS self) (MAX_FLOWS self) (MIN_FLOWS self)
             (invest self) (bounds self) (max self) (min self)
             (summed_max self) (summed_min self)
             (Some investment_costs) (Some fixed_costs) (Some variable_costs),
          py_add (py_add fixed_costs variable_costs) investment_costs)
  end.

End create.
End InvestmentFlow.

(** ** [class InvestmentStorage(SimpleBlock)] *)

Module InvestmentStorage.

Record t := mk {
  INVESTSTORAGES : option (list Node);
  INITIAL_CAPACITY : list Node;
  MIN_INVESTSTORAGES : list Node;
  capacity : gmap (Node * nat) VarData;
  invest : gmap Node VarData;
  balance : gmap (Node * nat) constr;
  initial_capacity_invest : gmap Node constr;
  storage_capacity_input_invest : gmap Node constr;
  storage_capacity_output_invest : gmap Node constr;
  max_capacity_invest : gmap (Node * nat) constr;
  min_investstorage : gmap (Node * nat) constr;
  investment_costs : option expr;
  fixed_costs : option expr
}.

Definition new : t := mk None [] [] ∅ ∅ ∅ ∅ ∅ ∅ ∅ ∅ None None.

Section create.
Variable m : Model.
(** [m.InvestmentFlow] *)
Variable m_InvestmentFlow : InvestmentFlow.t.

(** [sum([n.capacity_min[t] for t in m.TIMESTEPS])] *)
Definition capacity_min_sum (n : Node) : Q :=
  foldl Qplus 0%Q
        (map (fun t => network.capacity_min (storage m n) t) (timesteps m)).

(** [... > 0] *)
Definition has_capacity_min (n : Node) : bool :=
  negb (Qle_bool (capacity_min_sum n) 0).

Definition _storage_investvar_bound_rule (n : Node)
  : result (option Q * option Q) :=
  Ok (Some 0%Q, options.maximum (network.storage_investment (storage m n))).

Definition _storage_balance_rule (k : Node * nat) : result pyrel :=
  let '(n, t) := k in
  let s := storage m n in
  let expr := Num 0 in
  let expr := py_add expr (V (InvestmentStorage_capacity n t)) in
  let expr :=
    py_add expr
      (py_mul
         (py_neg (V (InvestmentStorage_capacity n (previous_timesteps m t))))
         (Num (1 - network.capacity_loss s t)%Q)) in
  i ← getitem (INPUTS m) n;
  let expr :=
    py_add expr
      (py_mul (py_mul (py_neg (V (flow i n t)))
                      (Num (network.inflow_conversion_factor s t)))
              (Num (timeincrement m))) in
  o ← getitem (OUTPUTS m) n;
  q ← py_div (V (flow n o t)) (Num (network.outflow_conversion_factor s t));
  let expr := py_add expr (py_mul q (Num (timeincrement m))) in
  Ok (py_cmp EQ expr (Num 0)).

Definition _initial_capacity_invest_rule
    (capacity : gmap (Node * nat) VarData) (n : Node) : result pyrel :=
  last ← last_item (timesteps m);
  c ← var_ref capacity (n, last) (InvestmentStorage_capacity n last);
  c0 ← num_opt (network.initial_capacity (storage m n));
  Ok (py_cmp EQ c (py_mul c0 (V (InvestmentStorage_invest n)))).

(** [m.InvestmentFlow.invest[i, o]] *)
Definition InvestmentFlow_invest_ref (i o : Node) : result expr :=
  match InvestmentFlow.FLOWS m_InvestmentFlow with
  | None => Raise AttributeError
  | Some _ =>
      var_ref (InvestmentFlow.invest m_InvestmentFlow) (i, o)
              (InvestmentFlow_invest i o)
  end.

Definition _storage_capacity_input_invest_rule (n : Node) : result pyrel :=
  i ← getitem (INPUTS m) n;
  v ← InvestmentFlow_invest_ref i n;
  Ok (py_cmp EQ v
        (py_mul (V (InvestmentStorage_invest n))
                (Num (network.nominal_input_capacity_ratio (storage m n))))).

Definition _storage_capacity_output_invest_rule (n : Node) : result pyrel :=
  o ← getitem (OUTPUTS m) n;
  v ← InvestmentFlow_invest_ref n o;
  Ok (py_cmp EQ v
        (py_mul (V (InvestmentStorage_invest n))
                (Num (network.nominal_output_capacity_ratio (storage m n))))).

Definition _max_capacity_invest_rule (k : Node * nat) : result pyrel :=
  let '(n, t) := k in
  Ok (py_cmp LE (V (InvestmentStorage_capacity n t))
        (py_mul (Num (network.capacity_max (storage m n) t))
                (V (InvestmentStorage_invest n)))).

Definition _min_investstorage_rule (k : Node * nat) : result pyrel :=
  let '(n, t) := k in
  Ok (py_cmp LE (V (InvestmentStorage_capacity n t))
        (py_mul (Num (network.capacity_min (storage m n) t))
                (V (InvestmentStorage_invest n)))).

Definition _create (group : option (list Node)) (self : t) : result t :=
  match group with
  | None => Ok self
  | Some group =>
      let INVESTSTORAGES := group in
      let INITIAL_CAPACITY :=
        filter (fun n => is_Some (network.initial_capacity (storage m n)))
               group in
      let MIN_INVESTSTORAGES :=
        filter (fun n => has_capacity_min n = true) group in
      capacity ← Var_ (cprod INVESTSTORAGES (timesteps m)) NonNegativeReals
                      unbounded;
      invest ← Var_ INVESTSTORAGES NonNegativeReals
                    _storage_investvar_bound_rule;
      balance ← Constraint_ (cprod INVESTSTORAGES (timesteps m))
                            _storage_balance_rule;
      initial_capacity_invest ←
        Constraint_ INITIAL_CAPACITY (_initial_capacity_invest_rule capacity);
      storage_capacity_input_invest ←
        Constraint_ INVESTSTORAGES _storage_capacity_input_invest_rule;
      storage_capacity_output_invest ←
        Constraint_ INVESTSTORAGES _storage_capacity_output_invest_rule;
      max_capacity_invest ←
        Constraint_ (cprod INVESTSTORAGES (timesteps m))
                    _max_capacity_invest_rule;
      min_investstorage ←
        Constraint_ (cprod MIN_INVESTSTORAGES (timesteps m))
                    _min_investstorage_rule;
      Ok (mk (Some INVESTSTORAGES) INITIAL_CAPACITY MIN_INVESTSTORAGES
             capacity invest balance initial_capacity_invest
             storage_capacity_input_invest storage_capacity_output_invest
             max_capacity_invest min_investstorage
             (investment_costs self) (fixed_costs self))
  end.

(** One turn of the loop of [_objective_expression]; the state is the pair
    [(investment_costs, fixed_costs)]. *)
Definition objective_step (n : Node) (acc : expr * expr)
  : result (expr * expr) :=
  let s := storage m n in
  match options.ep_costs (network.storage_investment s) with
  | Some c =>
      let investment_costs :=
        py_add acc.1 (py_mul (V (InvestmentStorage_invest n)) (Num c)) in
      let fixed_costs :=
        match network.storage_fixed_costs s with
        | Some fc =>
            py_add acc.2 (py_mul (V (InvestmentStorage_invest n)) (Num fc))
        | None => acc.2
        end in
      Ok (investment_costs, fixed_costs)
  | None => Raise (ValueError ["Missing value for investment costs!"])
  end.

Definition _objective_expression (self : t) : result (t * expr) :=
  match INVESTSTORAGES self with
  | None => Ok (self, Num 0)
  | Some INVESTSTORAGES_ =>
      let investment_costs := Num 0 in
      let fixed_costs := Num 0 in
      acc ← for_ INVESTSTORAGES_ objective_step
                 (investment_costs, fixed_costs);
      let '(investment_costs, fixed_costs) := acc in
      Ok (mk (INVESTSTORAGES self) (INITIAL_CAPACITY self)
             (MIN_INVESTSTORAGES self) (capacity self) (invest self)
             (balance self) (initial_capacity_invest self)
             (storage_capacity_input_invest self)
             (storage_capacity_output_invest self)
             (max_capacity_invest self) (min_investstorage self)
             (Some investment_costs) (Some fixed_costs),
          py_add fixed_costs investment_costs)
  end.

End create.
End InvestmentStorage.

(** ** [class Flow(SimpleBlock)] *)

Module Flow.

Record t := mk {
  SUMMED_MAX_FLOWS : list Edge;
  SUMMED_MIN_FLOWS : list Edge;
  NEGATIVE_GRADIENT_FLOWS : list Edge;
  POSITIVE_GRADIENT_FLOWS : list Edge;
  summed_max : gmap Edge constr;
  summed_min : gmap Edge constr;
  positive_gradient_constr : gmap (Edge * nat) constr;
  negative_gradient_constr : gmap (Edge * nat) constr
}.

Definition new : t := mk [] [] [] [] ∅ ∅ ∅ ∅.

(** The upper bounds that [_create] sets on the gradient variables of the
    model, [m.positive_flow_gradient] and [m.negative_flow_gradient]. *)
Record GradientBounds := mkGradientBounds {
  positive_ub : gmap (Edge * nat) Q;
  negative_ub : gmap (Edge * nat) Q
}.

(** The loop variables of [_create] that stay bound after their loops and
    that the nested rule functions can see. *)
Record locals := mkLocals {
  loc_i : option Node;
  loc_o : option Node;
  loc_t : option nat
}.

(** Reading a name that may never have been bound. *)
Definition read_local {A} (x : option A) : result A :=
  match x with
  | Some a => Ok a
  | None => Raise NameError
  end.

Section create.
Variable m : Model.

(** [for t in m.TIMESTEPS: var[i, o, t].setub(grad[t] * f.nominal_value)] *)
Definition setub_loop (i o : Node) (f : network.Flow)
    (grad : sequence (option Q)) (st : gmap (Edge * nat) Q * locals)
  : result (gmap (Edge * nat) Q * locals) :=
  for_ (timesteps m)
       (fun t st =>
          let loc := mkLocals (loc_i st.2) (loc_o st.2) (Some t) in
          u ← mul_opt (grad t) (network.nominal_value f);
          Ok (<[((i, o), t) := u]> st.1, loc))
       st.

(** Body of [for i, o, f in group:]. *)
Definition gradient_bounds_step (g : Node * Node * network.Flow)
    (st : GradientBounds * locals) : result (GradientBounds * locals) :=
  let '(i, o, f) := g in
  let '(gb, loc) := st in
  let loc := mkLocals (Some i) (Some o) (loc_t loc) in
  mf ← getitem (flows m) (i, o);
  '(pub, loc) ←
    (if decide (is_Some (network.positive_gradient mf 0%nat))
     then setub_loop i o f (network.positive_gradient f) (positive_ub gb, loc)
     else Ok (positive_ub gb, loc));
  mf ← getitem (flows m) (i, o);
  '(nub, loc) ←
    (if decide (is_Some (network.negative_gradient mf 0%nat))
     then setub_loop i o f (network.negative_gradient f) (negative_ub gb, loc)
     else Ok (negative_ub gb, loc));
  Ok (mkGradientBounds pub nub, loc).

(** [sum(m.flow[inp, out, ts] * m.timeincrement for ts in m.TIMESTEPS)] *)
Definition summed_flow (inp out : Node) : expr :=
  py_sum (map (fun ts => py_mul (V (flow inp out ts)) (Num (timeincrement m)))
              (timesteps m)).

Definition summed_rhs (bound : network.Flow -> option Q) (k : Edge)
  : result expr :=
  f ← getitem (flows m) k;
  f' ← getitem (flows m) k;
  r ← mul_opt (bound f) (network.nominal_value f');
  Ok (Num r).

Definition _flow_summed_max_rule (SUMMED_MAX_FLOWS : list Edge)
    (summed_max : gmap Edge constr) : result (gmap Edge constr) :=
  for_ SUMMED_MAX_FLOWS
       (fun '(inp, out) summed_max =>
          let lhs := summed_flow inp out in
          rhs ← summed_rhs network.summed_max (inp, out);
          Constraint_add (inp, out) (py_cmp LE lhs rhs) summed_max)
       summed_max.

Definition _flow_summed_min_rule (SUMMED_MIN_FLOWS : list Edge)
    (summed_min : gmap Edge constr) : result (gmap Edge constr) :=
  for_ SUMMED_MIN_FLOWS
       (fun '(inp, out) summed_min =>
          let lhs := summed_flow inp out in
          rhs ← summed_rhs network.summed_min (inp, out);
          Constraint_add (inp, out) (py_cmp GE lhs rhs) summed_min)
       summed_min.

Definition _positive_gradient_flow_rule (POSITIVE_GRADIENT_FLOWS : list Edge)
    (positive_gradient_constr : gmap (Edge * nat) constr)
  : result (gmap (Edge * nat) constr) :=
  for_ POSITIVE_GRADIENT_FLOWS
       (fun '(inp, out) =>
          for_ (timesteps m)
               (fun ts constr_ =>
                  if decide (0 < ts)%nat then
                    let lhs := py_sub (V (flow inp out ts))
                                      (V (flow inp out (ts - 1))) in
                    let rhs := V (positive_flow_gradient inp out ts) in
                    Constraint_add (inp, out, ts) (py_cmp LE lhs rhs) constr_
                  else Ok constr_))
       positive_gradient_constr.

(** The rule reads [i], [o] and [t] of the enclosing [_create]. *)
Definition _negative_gradient_flow_rule (loc : locals)
    (NEGATIVE_GRADIENT_FLOWS : list Edge)
    (negative_gradient_constr : gmap (Edge * nat) constr)
  : result (gmap (Edge * nat) constr) :=
  for_ NEGATIVE_GRADIENT_FLOWS
       (fun '(inp, out) =>
          for_ (timesteps m)
               (fun ts constr_ =>
                  if decide (0 < ts)%nat then
                    i ← read_local (loc_i loc);
                    o ← read_local (loc_o loc);
                    t ← read_local (loc_t loc);
                    let lhs := py_sub (V (flow i o t))
                                      (V (flow inp out (ts - 1))) in
                    let rhs := V (positive_flow_gradient inp out ts) in
                    Constraint_add (inp, out, ts) (py_cmp LE lhs rhs) constr_
                  else Ok constr_))
       negative_gradient_constr.

Definition edge (g : Node * Node * network.Flow) : Edge := (g.1.1, g.1.2).

Definition _create (group : option (list (Node * Node * network.Flow)))
    (self : t) (gb : GradientBounds) : result (t * GradientBounds) :=
  match group with
  | None => Ok (self, gb)
  | Some group =>
      let SUMMED_MAX_FLOWS :=
        map edge (filter (fun g => is_Some (network.summed_max g.2)) group) in
      let SUMMED_MIN_FLOWS :=
        map edge (filter (fun g => is_Some (network.summed_min g.2)) group) in
      let NEGATIVE_GRADIENT_FLOWS :=
        map edge
            (filter (fun g => is_Some (network.negative_gradient g.2 0%nat))
                    group) in
      let POSITIVE_GRADIENT_FLOWS :=
        map edge
            (filter (fun g => is_Some (network.positive_gradient g.2 0%nat))
                    group) in
      '(gb, loc) ← for_ group gradient_bounds_step
                        (gb, mkLocals None None None);
      summed_max ← _flow_summed_max_rule SUMMED_MAX_FLOWS ∅;
      summed_min ← _flow_summed_min_rule SUMMED_MIN_FLOWS ∅;
      positive_gradient_constr ←
        _positive_gradient_flow_rule POSITIVE_GRADIENT_FLOWS ∅;
      negative_gradient_constr ←
        _negative_gradient_flow_rule loc NEGATIVE_GRADIENT_FLOWS ∅;
      Ok (mk SUMMED_MAX_FLOWS SUMMED_MIN_FLOWS NEGATIVE_GRADIENT_FLOWS
             POSITIVE_GRADIENT_FLOWS summed_max summed_min
             positive_gradient_constr negative_gradient_constr, gb)
  end.

(** [bool(x)] for a number that may be [None]. *)
Definition truthy (x : option Q) : bool :=
  match x with
  | Some q => negb (Qeq_bool q 0)
  | None => false
  end.

(** Body of [for t in m.TIMESTEPS:] in [_objective_expression]. *)
Definition variable_costs_step (i o : Node) (t : nat) (variable_costs : expr)
  : result expr :=
  f ← getitem (flows m) (i, o);
  if decide (is_Some (network.variable_costs f 0%nat)) then
    f ← getitem (flows m) (i, o);
    c ← num_opt (network.variable_costs f t);
    Ok (py_add variable_costs
               (py_mul (py_mul (V (flow i o t)) (Num (timeincrement m))) c))
  else Ok variable_costs.

(** Body of [for i, o in m.FLOWS:]; the state is the pair
    [(variable_costs, fixed_costs)]. *)
Definition objective_step (k : Edge) (acc : expr * expr)
  : result (expr * expr) :=
  let '(i, o) := k in
  variable_costs ← for_ (timesteps m) (variable_costs_step i o) acc.1;
  f ← getitem (flows m) (i, o);
  if truthy (network.fixed_costs f) then
    f ← getitem (flows m) (i, o);
    match network.nominal_value f with
    | Some nv =>
        f ← getitem (flows m) (i, o);
        fc ← num_opt (network.fixed_costs f);
        Ok (variable_costs, py_add acc.2 (py_mul (Num nv) fc))
    | None => Ok (variable_costs, acc.2)
    end
  else Ok (variable_costs, acc.2).

(** [_objective_expression]: the expressions stored as [self.fixed_costs]
    and [self.variable_costs], and the value returned.  [FLOWS] is
    [m.FLOWS]. *)
Definition _objective_expression (FLOWS : list Edge)
  : result (expr * expr * expr) :=
  let variable_costs := Num 0 in
  let fixed_costs := Num 0 in
  acc ← for_ FLOWS objective_step (variable_costs, fixed_costs);
  let '(variable_costs, fixed_costs) := acc in
  Ok (fixed_costs, variable_costs, py_add fixed_costs variable_costs).

End create.
End Flow.

(** ** [class Bus(SimpleBlock)] *)

Module Bus.

Record t := mk {
  balance : option (gmap (Node * nat) constr)
}.

Definition new : t := mk None.

Section create.
Variable m : Model.

Definition inflow_sum (n : Node) (t : nat) : expr :=
  py_sum (map (fun i => py_mul (V (flow i n t)) (Num (timeincrement m)))
              (network.inputs (bus m n))).

Definition outflow_sum (n : Node) (t : nat) : expr :=
  py_sum (map (fun o => py_mul (V (flow n o t)) (Num (timeincrement m)))
              (network.outputs (bus m n))).

(** [expr is not True] *)
Definition is_not_True (r : pyrel) : bool :=
  match r with
  | RelBool true => false
  | _ => true
  end.

(** What one turn of the inner loop of [_busbalance_rule] adds, as the
    lemmas about the loop need it: nothing for a bus without inputs and
    outputs, the balance otherwise. *)
Definition emitted (p : nat * Node) : result (option (Node * nat * constr)) :=
  let '(t, n) := p in
  Ok (if decide (network.inputs (bus m n) = []
                 /\ network.outputs (bus m n) = [])
      then None
      else Some ((n, t), Constr (inflow_sum n t) EQ (outflow_sum n t))).

Definition _busbalance_rule (group : list Node)
    (balance : gmap (Node * nat) constr)
  : result (gmap (Node * nat) constr) :=
  for_ (timesteps m)
       (fun t =>
          for_ group
               (fun n balance =>
                  let lhs := inflow_sum n t in
                  let rhs := outflow_sum n t in
                  let expr := py_cmp EQ lhs rhs in
                  if is_not_True expr
                  then Constraint_add (n, t) expr balance
                  else Ok balance))
       balance.

Definition _create (group : option (list Node)) (self : t) : result t :=
  match group with
  | None => Ok self
  | Some group =>
      balance ← _busbalance_rule group ∅;
      Ok (mk (Some balance))
  end.

End create.
End Bus.

(** ** [class Discrete(SimpleBlock)] *)

Module Discrete.

Record t := mk {
  FLOWS : list Edge;
  MIN_FLOWS : list Edge;
  STARTCOSTFLOWS : list Edge;
  status : gmap (Edge * nat) VarData;
  minimum_flow : gmap (Edge * nat) constr;
  maximum_flow : gmap (Edge * nat) constr
}.

Definition new : t := mk [] [] [] ∅ ∅ ∅.

Section create.
Variable m : Model.

Definition edge (g : Node * Node * network.Flow) : Edge := (g.1.1, g.1.2).

(** [g[2].min[0] != 0] *)
Definition has_min (g : Node * Node * network.Flow) : bool :=
  negb (Qeq_bool (network.min g.2 0%nat) 0).

Definition has_start_costs (g : Node * Node * network.Flow) : bool :=
  bool_decide (is_Some (options.start_costs (network.discrete g.2))).

Definition _minimum_flow_rule (k : Edge * nat) : result pyrel :=
  let '((i, o), t) := k in
  f ← getitem (flows m) (i, o);
  let e := py_mul (V (Discrete_status i o t)) (Num (network.min f t)) in
  f ← getitem (flows m) (i, o);
  nv ← num_opt (network.nominal_value f);
  Ok (py_cmp GE (py_mul e nv) (V (flow i o t))).

Definition _maximum_flow_rule (k : Edge * nat) : result pyrel :=
  let '((i, o), t) := k in
  f ← getitem (flows m) (i, o);
  let e := py_mul (V (Discrete_status i o t)) (Num (network.max f t)) in
  f ← getitem (flows m) (i, o);
  nv ← num_opt (network.nominal_value f);
  Ok (py_cmp LE (py_mul e nv) (V (flow i o t))).

Definition _create (group : option (list (Node * Node * network.Flow)))
    (self : t) : result t :=
  match group with
  | None => Ok self
  | Some group =>
      let FLOWS := map edge group in
      let MIN_FLOWS := map edge (filter (fun g => has_min g = true) group) in
      let STARTCOSTFLOWS :=
        map edge (filter (fun g => has_start_costs g = true) group) in
      status ← Var_ (cprod FLOWS (timesteps m)) Binary unbounded;
      minimum_flow ← Constraint_ (cprod MIN_FLOWS (timesteps m))
                                 _minimum_flow_rule;
      maximum_flow ← Constraint_ (cprod MIN_FLOWS (timesteps m))
                                 _maximum_flow_rule;
      Ok (mk FLOWS MIN_FLOWS STARTCOSTFLOWS status minimum_flow maximum_flow)
  end.

End create.
End Discrete.

(** ** [class ElectricalLineBlock(SimpleBlock)] *)

Module ElectricalLineBlock.
Import custom.

(** What the build can change outside the block: the log and the bus
    objects ([bus.slack = True]). *)
Record World := mkWorld {
  log : list string;
  electrical_bus : gmap Node ElectricalBus
}.

(** State and exceptions; the state survives a raise. *)
Definition M (A : Type) : Type := World -> result A * World.

#[global] Instance M_ret : MRet M := fun _ a w => (Ok a, w).
#[global] Instance M_bind : MBind M := fun _ _ f c w =>
  match c w with
  | (Ok a, w') => f a w'
  | (Raise e, w') => (Raise e, w')
  end.

Definition lift {A} (r : result A) : M A := fun w => (r, w).
Definition get_world : M World := fun w => (Ok w, w).

(** [logging.info(msg)] answers [None]. *)
Definition logging_info (msg : string) : M pyval :=
  fun w => (Ok PyNone, mkWorld (log w ++ [msg]) (electrical_bus w)).

(** [s.format(arg)]: the first pair of braces takes the argument. *)
Fixpoint str_format (s arg : string) : string :=
  match s with
  | String "{"%char (String "}"%char rest) => (arg ++ rest)%string
  | String c rest => String c (str_format rest arg)
  | EmptyString => EmptyString
  end.

(** [v.format(arg)]: only strings have the method. *)
Definition format (v : pyval) (arg : string) : result pyval :=
  match v with
  | PyStr s => Ok (PyStr (str_format s arg))
  | _ => Raise AttributeError
  end.

(** [bus.slack = v] *)
Definition set_slack (bus : Node) (v : pyval) : M unit :=
  fun w =>
    (Ok (),
     mkWorld (log w)
             (alter (fun b => mkElectricalBus v (v_max b) (v_min b)) bus
                    (electrical_bus w))).

(** [b.attr] for a node [b] that has to be an [ElectricalBus]. *)
Definition as_ElectricalBus (w : World) (b : Node) : result ElectricalBus :=
  match electrical_bus w !! b with
  | Some eb => Ok eb
  | None => Raise AttributeError
  end.

(** A bound given as a keyword argument. *)
Definition bound_of (v : pyval) : result (option Q) :=
  match v with
  | PyNone => Ok None
  | PyNum q => Ok (Some q)
  | PyBool b => Ok (Some (if b then 1%Q else 0%Q))
  | PyStr _ => Raise TypeError
  end.

Record t := mk {
  ELECTRICAL_BUSES : list Node;
  voltage_angle_ : gmap (Node * nat) VarData;
  electrical_flow : gmap (Node * nat) constr;
  _equate_electrical_flows : gmap (Node * nat) constr
}.

Definition new : t := mk [] ∅ ∅ ∅.

Section create.
Variable m : Model.

(** [{n: f(n) for n in group}] *)
Definition dict_of (group : list Node) (f : Node -> result Node)
  : result (gmap Node Node) :=
  for_ group (fun n d => x ← f n; Ok (<[n := x]> d)) ∅.

Definition _voltage_angle_bounds (w : World) (k : Node * nat)
  : result (option Q * option Q) :=
  let '(b, t) := k in
  eb ← as_ElectricalBus w b;
  lo ← bound_of (v_min eb);
  hi ← bound_of (v_max eb);
  Ok (lo, hi).

(** [True not in [b.slack for b in self.ELECTRICAL_BUSES]] *)
Definition no_slack (w : World) (ELECTRICAL_BUSES : list Node) : bool :=
  negb (existsb
          (fun b => match electrical_bus w !! b with
                    | Some eb => eq_True (slack eb)
                    | None => false
                    end)
          ELECTRICAL_BUSES).

(** [self.ELECTRICAL_BUSES.first()] *)
Definition first (ELECTRICAL_BUSES : list Node) : result Node :=
  match ELECTRICAL_BUSES with
  | b :: _ => Ok b
  | [] => Raise IndexError
  end.

(** Body of the two loops of [_voltage_angle_relation]; the state is the
    pair [(electrical_flow, _equate_electrical_flows)]. *)
Definition relation_step (w : World) (I O : gmap Node Node)
    (voltage_angle_ : gmap (Node * nat) VarData) (t : nat) (n : Node)
    (st : gmap (Node * nat) constr * gmap (Node * nat) constr)
  : result (gmap (Node * nat) constr * gmap (Node * nat) constr) :=
  o ← getitem O n;
  ob ← as_ElectricalBus w o;
  let lhs_rhs :=
    if is_True (slack ob) then Some (V (flow n o t), Num 0) else None in
  lhs_rhs ←
    try_except
      (o ← getitem O n;
       let lhs := V (flow n o t) in
       x ← py_div (Num 1) (Num (reactance (electrical_line m n) t));
       i ← getitem I n;
       vi ← var_ref voltage_angle_ (i, t) (voltage_angle i t);
       vo ← var_ref voltage_angle_ (o, t) (voltage_angle o t);
       Ok (lhs, py_mul x (py_sub vi vo)))
      (Raise (ValueError ["Error in constraint creation"; "of node " ++ n]));
  ef ← Constraint_add (n, t) (py_cmp EQ lhs_rhs.1 lhs_rhs.2) st.1;
  i ← getitem I n;
  eq ← Constraint_add (n, t) (py_cmp EQ (V (flow n o t)) (V (flow i n t)))
                      st.2;
  Ok (ef, eq).

Definition _voltage_angle_relation (w : World) (group : list Node)
    (I O : gmap Node Node) (voltage_angle_ : gmap (Node * nat) VarData)
  : result (gmap (Node * nat) constr * gmap (Node * nat) constr) :=
  for_ (timesteps m)
       (fun t => for_ group (relation_step w I O voltage_angle_ t))
       (∅, ∅).

Definition _create (group : option (list Node)) (self : t) : M t :=
  match group with
  | None => mret self
  | Some group =>
      I ← lift (dict_of group (fun n => _input (electrical_line m n)));
      O ← lift (dict_of group (fun n => _output (electrical_line m n)));
      w ← get_world;
      let ELECTRICAL_BUSES :=
        filter (fun n => is_Some (electrical_bus w !! n)) (nodes m) in
      voltage_angle_ ←
        lift (Var_ (cprod ELECTRICAL_BUSES (timesteps m)) Reals
                   (_voltage_angle_bounds w));
      _ ← (if no_slack w ELECTRICAL_BUSES then
             bus ← lift (first ELECTRICAL_BUSES);
             r ← logging_info "No slack bus set, setting bus {} as slack  bus";
             _ ← lift (format r bus);
             set_slack bus (PyBool true)
           else mret ());
      w ← get_world;
      cs ← lift (_voltage_angle_relation w group I O voltage_angle_);
      mret (mk ELECTRICAL_BUSES voltage_angle_ cs.1 cs.2)
  end.

End create.
End ElectricalLineBlock.

(** ** [class LinearTransformer(SimpleBlock)] *)

Module LinearTransformer.

Record t := mk {
  relation : option (gmap (Node * Node * nat) constr)
}.

Definition new : t := mk None.

Section create.
Variable m : Model.
(** Attributes of the transformer objects. *)
Variable transformer : Node -> network.LinearTransformer.

(** Body of the three loops of [_input_output_relation]. *)
Definition relation_step (t : nat) (n o : Node)
    (relation : gmap (Node * Node * nat) constr)
  : result (gmap (Node * Node * nat) constr) :=
  i ← getitem (INPUTS m) n;
  cf ← getitem (network.conversion_factors (transformer n)) o;
  let lhs := py_mul (V (flow i n t)) (Num (seq_at cf t)) in
  let rhs := V (flow n o t) in
  Constraint_add (n, o, t) (py_cmp EQ lhs rhs) relation.

Definition _input_output_relation (group : list Node)
    (relation : gmap (Node * Node * nat) constr)
  : result (gmap (Node * Node * nat) constr) :=
  for_ (timesteps m)
       (fun t =>
          for_ group
               (fun n =>
                  for_ (network.transformer_outputs (transformer n))
                       (fun o => relation_step t n o)))
       relation.

Definition _create (group : option (list Node)) (self : t) : result t :=
  match group with
  | None => Ok self
  | Some group =>
      relation ← _input_output_relation group ∅;
      Ok (mk (Some relation))
  end.

End create.
End LinearTransformer.

(** The exception of the two [_objective_expression] of the investment
    blocks. *)
Definition missing_costs : exn :=
  ValueError ["Missing value for investment costs!"].

(** ** The same topology without start costs and gradients *)

(** An edge object with [discrete.start_costs], [positive_gradient] and
    [negative_gradient] unset, everything else as it is. *)
Definition without_start_costs_and_gradients (f : network.Flow)
  : network.Flow :=
  network.mkFlow (network.nominal_value f) (network.min f) (network.max f)
                 (network.actual_value f) (network.summed_min f)
                 (network.summed_max f) (scalar None) (scalar None)
                 (network.fixed_costs f) (network.variable_costs f)
                 (network.fixed f) (network.investment f)
                 (options.mkDiscrete None).

Definition plain_group (group : list (Node * Node * network.Flow))
  : list (Node * Node * network.Flow) :=
  map (fun g => (g.1, without_start_costs_and_gradients g.2)) group.

Definition plain_model (m : Model) : Model :=
  mkModel (timesteps m) (timeincrement m)
          (without_start_costs_and_gradients <$> flows m)
          (INPUTS m) (OUTPUTS m) (nodes m) (bus m) (storage m)
          (electrical_line m).

(** * Scenarios *)

Module Scenario.
Local Open Scope Q_scope.

(** A topology without content, to build the others from. *)
Definition no_bus : network.Bus := network.mkBus [] [].

Definition no_storage : network.Storage :=
  network.mkStorage 0 (scalar 0) (scalar 1) (scalar 0) (scalar 1) (scalar 1)
                    None 0 0 None (options.mkInvestment None None).

Definition no_line : custom.ElectricalLine :=
  custom.mkElectricalLine [] [] (scalar 1).

(** A storage of capacity 100, half full at the anchor, without losses,
    over two timesteps. *)
Definition half_full : network.Storage :=
  network.mkStorage 100 (scalar 0) (scalar 1) (scalar 0) (scalar 1) (scalar 1)
                    (Some (1 # 2)) 0 0 None (options.mkInvestment None None).

Definition m_storage : Model :=
  mkModel [0%nat; 1%nat] 1 ∅ {["storage" := "bus"]} {["storage" := "bus"]}
          ["bus"; "storage"] (fun _ => no_bus) (fun _ => half_full)
          (fun _ => no_line).

(** An invested storage between two invested edges, over two timesteps. *)
Definition invest_edge : network.Flow :=
  network.mkFlow None (scalar 0) (scalar 1) (scalar 0) None None
                 (scalar None) (scalar None) None (scalar None) false
                 (options.mkInvestment (Some 50) (Some 3))
                 (options.mkDiscrete None).

Definition invest_storage : network.Storage :=
  network.mkStorage 0 (scalar (1 # 10)) (scalar 1) (scalar 0) (scalar 1)
                    (scalar 1) (Some (1 # 2)) 1 1 None
                    (options.mkInvestment (Some 200) (Some 7)).

Definition invest_group : list (Node * Node * network.Flow) :=
  [("bus", "storage", invest_edge); ("storage", "bus", invest_edge)].

Definition m_invest : Model :=
  mkModel [0%nat; 1%nat] 1
          (<[("bus", "storage") := invest_edge]>
             (<[("storage", "bus") := invest_edge]> ∅))
          {["storage" := "bus"]} {["storage" := "bus"]}
          ["bus"; "storage"] (fun _ => no_bus) (fun _ => invest_storage)
          (fun _ => no_line).

(** [m.InvestmentFlow] once its [_create] has run. *)
Definition invest_flows : InvestmentFlow.t :=
  match InvestmentFlow._create m_invest (Some invest_group)
                               InvestmentFlow.new with
  | Ok b => b
  | Raise _ => InvestmentFlow.new
  end.

(** A discrete edge with start costs and both gradients declared. *)
Definition discrete_edge : network.Flow :=
  network.mkFlow (Some 10) (scalar (1 # 2)) (scalar 1) (scalar 0) None None
                 (scalar (Some (1 # 10))) (scalar (Some (1 # 10))) None
                 (scalar None) false (options.mkInvestment None None)
                 (options.mkDiscrete (Some 5)).

Definition discrete_group : list (Node * Node * network.Flow) :=
  [("plant", "bus", discrete_edge)].

Definition m_discrete : Model :=
  mkModel [0%nat; 1%nat] 1 {[("plant", "bus") := discrete_edge]} ∅ ∅
          ["plant"; "bus"] (fun _ => no_bus) (fun _ => no_storage)
          (fun _ => no_line).

(** One bus between a source and a sink over three timesteps, and a bus
    that nothing is connected to. *)
Definition m_bus : Model :=
  mkModel [0%nat; 1%nat; 2%nat] 1 ∅ ∅ ∅ ["source"; "bus"; "sink"; "island"]
          (fun n => if decide (n = "bus")
                    then network.mkBus ["source"] ["sink"]
                    else no_bus)
          (fun _ => no_storage) (fun _ => no_line).

(** The invested storage and an invested edge of [m_invest], both with an
    investment spec that lacks [ep_costs]. *)
Definition costless_edge : network.Flow :=
  network.mkFlow None (scalar 0) (scalar 1) (scalar 0) None None
                 (scalar None) (scalar None) None (scalar None) false
                 (options.mkInvestment (Some 50) None)
                 (options.mkDiscrete None).

Definition costless_storage : network.Storage :=
  network.mkStorage 0 (scalar (1 # 10)) (scalar 1) (scalar 0) (scalar 1)
                    (scalar 1) (Some (1 # 2)) 1 1 None
                    (options.mkInvestment (Some 200) None).

Definition costless_group : list (Node * Node * network.Flow) :=
  [("bus", "storage", costless_edge); ("storage", "bus", costless_edge)].

Definition m_costless : Model :=
  mkModel [0%nat; 1%nat] 1
          (<[("bus", "storage") := costless_edge]>
             (<[("storage", "bus") := costless_edge]> ∅))
          {["storage" := "bus"]} {["storage" := "bus"]}
          ["bus"; "storage"] (fun _ => no_bus) (fun _ => costless_storage)
          (fun _ => no_line).

Definition costless_flows : InvestmentFlow.t :=
  match InvestmentFlow._create m_costless (Some costless_group)
                               InvestmentFlow.new with
  | Ok b => b
  | Raise _ => InvestmentFlow.new
  end.

(** Two electrical buses and one line from ["b1"] to ["b0"], reactance 1,
    one timestep. *)
Definition m_line : Model :=
  mkModel [0%nat] 1 ∅ ∅ ∅ ["b0"; "b1"; "line"] (fun _ => no_bus)
          (fun _ => no_storage)
          (fun _ => custom.mkElectricalLine ["b1"] ["b0"] (scalar 1)).

(** The output bus of the line is the slack bus. *)
Definition slack_at_output : ElectricalLineBlock.World :=
  ElectricalLineBlock.mkWorld []
    (<["b0" := custom.ElectricalBus__init__ {["slack" := PyBool true]}]>
       (<["b1" := custom.ElectricalBus__init__ {["slack" := PyBool false]}]>
          ∅)).

(** No bus is marked slack. *)
Definition no_slack_marked : ElectricalLineBlock.World :=
  ElectricalLineBlock.mkWorld []
    (<["b0" := custom.ElectricalBus__init__ {["slack" := PyBool false]}]>
       (<["b1" := custom.ElectricalBus__init__ {["slack" := PyBool false]}]>
          ∅)).

(** Two edges into a bus over three timesteps; the first declares a
    negative gradient of a tenth of its nominal value 10. *)
Definition ramped_edge : network.Flow :=
  network.mkFlow (Some 10) (scalar 0) (scalar 1) (scalar 0) None None
                 (scalar None) (scalar (Some (1 # 10))) None (scalar None)
                 false (options.mkInvestment None None)
                 (options.mkDiscrete None).

Definition plain_edge : network.Flow :=
  network.mkFlow (Some 10) (scalar 0) (scalar 1) (scalar 0) None None
                 (scalar None) (scalar None) None (scalar None)
                 false (options.mkInvestment None None)
                 (options.mkDiscrete None).

Definition ramp_group : list (Node * Node * network.Flow) :=
  [("a", "bus", ramped_edge); ("c", "bus", plain_edge)].

Definition m_ramp : Model :=
  mkModel [0%nat; 1%nat; 2%nat] 1
          (<[("a", "bus") := ramped_edge]>
             (<[("c", "bus") := plain_edge]> ∅))
          ∅ ∅ ["a"; "c"; "bus"] (fun _ => no_bus) (fun _ => no_storage)
          (fun _ => no_line).

Definition no_bounds : Flow.GradientBounds := Flow.mkGradientBounds ∅ ∅.

(** The storage of [m_storage] with a discharge efficiency of zero, and the
    same model over an empty time index. *)
Definition m_storage_zero_efficiency : Model :=
  mkModel [0%nat; 1%nat] 1 ∅ {["storage" := "bus"]} {["storage" := "bus"]}
          ["bus"; "storage"] (fun _ => no_bus)
          (fun _ => network.mkStorage 100 (scalar 0) (scalar 1) (scalar 0)
                                      (scalar 1) (scalar 0) (Some (1 # 2))
                                      0 0 None
                                      (options.mkInvestment None None))
          (fun _ => no_line).

Definition m_storage_no_time : Model :=
  mkModel [] 1 ∅ {["storage" := "bus"]} {["storage" := "bus"]}
          ["bus"; "storage"] (fun _ => no_bus) (fun _ => half_full)
          (fun _ => no_line).

(** Two storages of capacity 100 with fixed costs of 2 per unit. *)
Definition m_storage_costs : Model :=
  mkModel [0%nat; 1%nat] 1 ∅ {["storage" := "bus"]} {["storage" := "bus"]}
          ["bus"; "s1"; "s2"] (fun _ => no_bus)
          (fun _ => network.mkStorage 100 (scalar 0) (scalar 1) (scalar 0)
                                      (scalar 1) (scalar 1) None
                                      0 0 (Some 2)
                                      (options.mkInvestment None None))
          (fun _ => no_line).

Definition created_storages : Storage.t :=
  Storage.mk (Some ["s1"; "s2"]) ∅ ∅ None.

(** The block of invested storages of [m_invest] once its [_create] has
    run. *)
Definition invest_storages : InvestmentStorage.t :=
  match InvestmentStorage._create m_invest invest_flows (Some ["storage"])
                                  InvestmentStorage.new with
  | Ok b => b
  | Raise _ => InvestmentStorage.new
  end.

(** An invested edge with a prescribed profile of three tenths and a
    declared maximum, next to the model that knows it. *)
Definition profiled_edge : network.Flow :=
  network.mkFlow None (scalar 0) (Sequence 2 (fun _ => 1)) (scalar (3 # 10))
                 None None (scalar None) (scalar None) (Some 4) (scalar None)
                 true (options.mkInvestment (Some 50) (Some 3))
                 (options.mkDiscrete None).

Definition m_profiled : Model :=
  mkModel [0%nat; 1%nat] 1 {[("pv", "bus") := profiled_edge]} ∅ ∅
          ["pv"; "bus"] (fun _ => no_bus) (fun _ => no_storage)
          (fun _ => no_line).

Definition profiled_flows : InvestmentFlow.t :=
  match InvestmentFlow._create m_profiled
                               (Some [("pv", "bus", profiled_edge)])
                               InvestmentFlow.new with
  | Ok b => b
  | Raise _ => InvestmentFlow.new
  end.

(** An edge with a positive gradient of a fifth and a horizon-sum limit of
    four times its nominal value 10, over three timesteps. *)
Definition limited_edge : network.Flow :=
  network.mkFlow (Some 10) (scalar 0) (scalar 1) (scalar 0) None (Some 4)
                 (scalar (Some (1 # 5))) (scalar None) (Some 2)
                 (scalar (Some 3)) false (options.mkInvestment None None)
                 (options.mkDiscrete None).

Definition m_limited : Model :=
  mkModel [0%nat; 1%nat; 2%nat] 1 {[("plant", "bus") := limited_edge]} ∅ ∅
          ["plant"; "bus"] (fun _ => no_bus) (fun _ => no_storage)
          (fun _ => no_line).

(** A plant that turns gas into electricity (factor 2/5) and heat (factor
    1/2), over two timesteps. *)
Definition chp : network.LinearTransformer :=
  network.mkLinearTransformer
    ["electricity"; "heat"]
    (<["electricity" := scalar (2 # 5)]> (<["heat" := scalar (1 # 2)]> ∅)).

Definition m_chp : Model :=
  mkModel [0%nat; 1%nat] 1 ∅ {["chp" := "gas"]} ∅
          ["gas"; "chp"; "electricity"; "heat"] (fun _ => no_bus)
          (fun _ => no_storage) (fun _ => no_line).

(** The same plant with the conversion factor of heat left out. *)
Definition chp_without_heat_factor : network.LinearTransformer :=
  network.mkLinearTransformer ["electricity"; "heat"]
                              {["electricity" := scalar (2 # 5)]}.

(** The discrete edge of [m_discrete] without a nominal value. *)
Definition unsized_discrete_edge : network.Flow :=
  network.mkFlow None (scalar (1 # 2)) (scalar 1) (scalar 0) None None
                 (scalar None) (scalar None) None (scalar None) false
                 (options.mkInvestment None None) (options.mkDiscrete None).

Definition m_unsized_discrete : Model :=
  mkModel [0%nat; 1%nat] 1 {[("plant", "bus") := unsized_discrete_edge]} ∅ ∅
          ["plant"; "bus"] (fun _ => no_bus) (fun _ => no_storage)
          (fun _ => no_line).


(** The line of [m_line] with a reactance of zero. *)
Definition m_line_shorted : Model :=
  mkModel [0%nat] 1 ∅ ∅ ∅ ["b0"; "b1"; "line"] (fun _ => no_bus)
          (fun _ => no_storage)
          (fun _ => custom.mkElectricalLine ["b1"] ["b0"] (scalar 0)).

(** A discrete edge whose minimum is zero at index 0 and one half
    afterwards, next to the model that knows it. *)
Definition late_minimum_edge : network.Flow :=
  network.mkFlow (Some 10)
                 (Sequence 2 (fun t => match t with
                                       | O => 0
                                       | S _ => 1 # 2
                                       end))
                 (scalar 1) (scalar 0) None None (scalar None) (scalar None)
                 None (scalar None) false (options.mkInvestment None None)
                 (options.mkDiscrete None).

Definition m_late_minimum : Model :=
  mkModel [0%nat; 1%nat] 1 {[("plant", "bus") := late_minimum_edge]} ∅ ∅
          ["plant"; "bus"] (fun _ => no_bus) (fun _ => no_storage)
          (fun _ => no_line).

End Scenario.

(** * Properties *)

(** ** Loops that fill a container *)

Section loops.
Context {A S : Type}.

Lemma for_app (l l' : list A) (body : A -> S -> result S) (s : S) :
  for_ (l ++ l') body s = s' ← for_ l body s; for_ l' body s'.
Proof.
  revert s. induction l as [|a l IH]; intros s; simpl; [done|].
  destruct (body a s) as [s1|e]; simpl; [apply IH | done].
Qed.

Lemma for_map {B} (f : B -> A) (l : list B) (body : A -> S -> result S) s :
  for_ (map f l) body s = for_ l (fun b => body (f b)) s.
Proof.
  revert s. induction l as [|b l IH]; intros s; simpl; [done|].
  destruct (body (f b) s); simpl; [apply IH | done].
Qed.

Lemma for_ext (l : list A) (body body' : A -> S -> result S) s :
  (forall a s, a ∈ l -> body a s = body' a s) ->
  for_ l body s = for_ l body' s.
Proof.
  revert s. induction l as [|a l IH]; intros s Hb; simpl; [done|].
  rewrite Hb by left. destruct (body' a s); simpl; [|done].
  apply IH. intros; apply Hb. by right.
Qed.

End loops.

(** Two nested loops visit the pairs of the Cartesian product in order. *)
Lemma for_nested {A B S} (l1 : list A) (l2 : list B)
    (body : A -> B -> S -> result S) (s : S) :
  for_ l1 (fun a => for_ l2 (body a)) s
  = for_ (cprod l1 l2) (fun p => body p.1 p.2) s.
Proof.
  rewrite list_cprod_list_prod.
  revert s. induction l1 as [|a l1 IH]; intros s; simpl; [done|].
  rewrite for_app, for_map. simpl.
  destruct (for_ l2 (body a) s); simpl; [apply IH | done].
Qed.

Section emit.
Context {A V : Type} `{Countable K}.
Variable f : A -> result (option (K * V)).
Variable body : A -> gmap K V -> result (gmap K V).
Hypothesis body_eq : forall a s,
  body a s = v ← f a;
             Ok (match v with
                 | Some (k, c) => <[k := c]> s
                 | None => s
                 end).

Lemma emit_total (l : list A) (acc : gmap K V) :
  (forall a, a ∈ l -> is_Ok (f a)) -> is_Ok (for_ l body acc).
Proof.
  revert acc. induction l as [|a l IH]; intros acc Hf; simpl.
  - by eexists.
  - destruct (Hf a) as [v Hv]; [by left|].
    rewrite body_eq, Hv. simpl. apply IH. intros; apply Hf. by right.
Qed.

Lemma emit_ok (l : list A) (acc res : gmap K V) :
  for_ l body acc = Ok res -> forall a, a ∈ l -> is_Ok (f a).
Proof.
  revert acc. induction l as [|a l IH]; intros acc Hres a' Ha'.
  - by apply elem_of_nil in Ha'.
  - simpl in Hres. rewrite body_eq in Hres.
    destruct (f a) as [v|e] eqn:Hv; simpl in Hres; [|done].
    apply elem_of_cons in Ha' as [->|Ha']; [by eexists | eauto].
Qed.

Lemma emit_keep (l : list A) (acc res : gmap K V) (k : K) :
  for_ l body acc = Ok res ->
  (forall a c, a ∈ l -> f a ≠ Ok (Some (k, c))) ->
  res !! k = acc !! k.
Proof.
  revert acc. induction l as [|a l IH]; intros acc Hres Hno; simpl in Hres.
  - by inversion Hres.
  - rewrite body_eq in Hres.
    destruct (f a) as [v|e] eqn:Hv; simpl in Hres; [|done].
    rewrite (IH _ Hres) by (intros; apply Hno; by right).
    destruct v as [[k' c']|]; [|done].
    apply lookup_insert_ne. intros ->. by apply (Hno a c'); [left|].
Qed.

Lemma emit_stable (l : list A) (acc res : gmap K V) (k : K) (c : V) :
  for_ l body acc = Ok res ->
  acc !! k = Some c ->
  (forall a c', a ∈ l -> f a = Ok (Some (k, c')) -> c' = c) ->
  res !! k = Some c.
Proof.
  revert acc. induction l as [|a l IH]; intros acc Hres Hacc Hfun;
    simpl in Hres.
  - by inversion Hres; subst.
  - rewrite body_eq in Hres.
    destruct (f a) as [v|e] eqn:Hv; simpl in Hres; [|done].
    apply (IH _ Hres); [|intros; eapply Hfun; [by right|done]].
    destruct v as [[k' c']|]; [|done].
    destruct (decide (k' = k)) as [->|Hne].
    + rewrite (Hfun a c') by (done || by left). apply lookup_insert_eq.
    + by rewrite lookup_insert_ne.
Qed.

Lemma emit_found (l : list A) (acc res : gmap K V) (a : A) (k : K) (c : V) :
  for_ l body acc = Ok res ->
  a ∈ l -> f a = Ok (Some (k, c)) ->
  (forall a' c', a' ∈ l -> f a' = Ok (Some (k, c')) -> c' = c) ->
  res !! k = Some c.
Proof.
  revert acc. induction l as [|a0 l IH]; intros acc Hres Ha Hfa Hfun.
  - by apply elem_of_nil in Ha.
  - simpl in Hres. rewrite body_eq in Hres.
    destruct (f a0) as [v|e] eqn:Hv; simpl in Hres; [|done].
    apply elem_of_cons in Ha as [->|Hin].
    + rewrite Hfa in Hv. inversion Hv; subst v.
      eapply emit_stable; [exact Hres|apply lookup_insert_eq|].
      intros; eapply Hfun; [by right|done].
    + apply (IH _ Hres Hin Hfa). intros; eapply Hfun; [by right|done].
Qed.

End emit.

(** A loop that stores [g k] under every key [k] of an index. *)
Section fill.
Context {V : Type} `{Countable K}.
Variable g : K -> result V.
Variable body : K -> gmap K V -> result (gmap K V).
Hypothesis body_eq : forall k s, body k s = v ← g k; Ok (<[k := v]> s).

Let f (k : K) : result (option (K * V)) := v ← g k; Ok (Some (k, v)).

Lemma fill_body k s :
  body k s = v ← f k;
             Ok (match v with
                 | Some (k, c) => <[k := c]> s
                 | None => s
                 end).
Proof. rewrite body_eq. unfold f. by destruct (g k). Qed.

Lemma fill_lookup (index : list K) (res : gmap K V) (k : K) :
  for_ index body ∅ = Ok res ->
  res !! k = if decide (k ∈ index)
             then match g k with
                  | Ok v => Some v
                  | Raise _ => None
                  end
             else None.
Proof.
  intros Hres. destruct (decide (k ∈ index)) as [Hin|Hnin].
  - destruct (emit_ok f body fill_body _ _ _ Hres k Hin) as [v Hv].
    unfold f in Hv. destruct (g k) as [v'|e] eqn:Hg; simpl in Hv; [|done].
    eapply (emit_found f body fill_body); [exact Hres|exact Hin| |].
    + unfold f. by rewrite Hg.
    + intros a' c' _ Ha'. unfold f in Ha'.
      destruct (g a') eqn:Hg'; simpl in Ha'; [|done].
      inversion Ha'; subst. congruence.
  - rewrite (emit_keep f body fill_body _ _ _ _ Hres); [apply lookup_empty|].
    intros a c Ha Hfa. unfold f in Hfa.
    destruct (g a); simpl in Hfa; [|done]. inversion Hfa; by subst.
Qed.

Lemma fill_total (index : list K) :
  (forall k, k ∈ index -> is_Ok (g k)) -> is_Ok (for_ index body ∅).
Proof.
  intros Hg. apply (emit_total f body fill_body).
  intros a Ha. destruct (Hg a Ha) as [v Hv]. unfold f. rewrite Hv.
  by eexists.
Qed.

End fill.

Section containers.
Context `{Countable K}.

Lemma Var_body dom bounds (k : K) (vs : gmap K VarData) :
  (b ← bounds k; Ok (<[k := mkVar dom b.1 b.2 None false]> vs))
  = v ← var_of dom bounds k; Ok (<[k := v]> vs).
Proof. unfold var_of. by destruct (bounds k). Qed.

Lemma Var_lookup (index : list K) dom bounds vs (k : K) :
  Var_ index dom bounds = Ok vs ->
  vs !! k = if decide (k ∈ index)
            then match bounds k with
                 | Ok b => Some (mkVar dom b.1 b.2 None false)
                 | Raise _ => None
                 end
            else None.
Proof.
  intros Hvs.
  rewrite (fill_lookup _ _ (Var_body dom bounds) index vs k Hvs).
  case_decide; [|done]. unfold var_of. by destruct (bounds k).
Qed.

Lemma Var_total (index : list K) dom bounds :
  (forall k : K, k ∈ index -> is_Ok (bounds k)) ->
  is_Ok (Var_ index dom bounds).
Proof.
  intros Hb. apply (fill_total _ _ (Var_body dom bounds)).
  intros k Hk. destruct (Hb k Hk) as [b Hbk]. unfold var_of. rewrite Hbk.
  by eexists.
Qed.

Lemma Constraint_add_eq (k : K) r (cs : gmap K constr) :
  Constraint_add k r cs = c ← as_constr r; Ok (<[k := c]> cs).
Proof. by destruct r. Qed.

Lemma Constraint_body (rule : K -> result pyrel) k (cs : gmap K constr) :
  (r ← rule k; Constraint_add k r cs)
  = c ← (r ← rule k; as_constr r); Ok (<[k := c]> cs).
Proof. by destruct (rule k) as [[]|]. Qed.

Lemma Constraint_lookup (index : list K) rule cs (k : K) :
  Constraint_ index rule = Ok cs ->
  cs !! k = if decide (k ∈ index) then rule_constr rule k else None.
Proof.
  intros Hcs.
  rewrite (fill_lookup _ _ (Constraint_body rule) index cs k Hcs).
  case_decide; [|done]. unfold rule_constr. by destruct (rule k) as [[]|].
Qed.

Lemma Constraint_total (index : list K) rule :
  (forall k : K, k ∈ index -> is_Some (rule_constr rule k)) ->
  is_Ok (Constraint_ index rule).
Proof.
  intros Hr. apply (fill_total _ _ (Constraint_body rule)).
  intros k Hk. destruct (Hr k Hk) as [c Hc]. unfold rule_constr in Hc.
  destruct (rule k) as [[]|]; try done. by eexists.
Qed.

End containers.

(** ** Storages of fixed size *)

Section storage.
Variable m : Model.

Local Abbreviation cap n t := (V (Storage_capacity n t)).

(** The tree that [_storage_balance_rule] builds. *)
Lemma Storage_balance_rule_eq (n i o : Node) (t : nat) :
  INPUTS m !! n = Some i ->
  OUTPUTS m !! n = Some o ->
  ~ (network.outflow_conversion_factor (storage m n) t == 0)%Q ->
  Storage._storage_balance_rule m (n, t)
  = Ok (RelExpr
          (Constr
             (Add (Add (Add (Add (Num 0) (cap n t))
                            (Mul (Neg (cap n (previous_timesteps m t)))
                                 (Num (1 - network.capacity_loss
                                             (storage m n) t)%Q)))
                       (Mul (Mul (Neg (V (flow i n t)))
                                 (Num (network.inflow_conversion_factor
                                         (storage m n) t)))
                            (Num (timeincrement m))))
                  (Mul (Div (V (flow n o t))
                            (Num (network.outflow_conversion_factor
                                    (storage m n) t)))
                       (Num (timeincrement m))))
             EQ (Num 0))).
Proof.
  intros Hi Ho Heff. unfold Storage._storage_balance_rule, getitem.
  rewrite Hi, Ho. simpl.
  destruct (Qeq_bool _ 0) eqn:E; [by apply Qeq_bool_eq in E|done].
Qed.

(** One turn of the loop that fixes the initial capacities. *)
Lemma Storage_set_initial_step (tlast : nat) (n : Node) (c0 : Q)
    (cap0 : gmap (Node * nat) VarData) (v0 : VarData) :
  last (timesteps m) = Some tlast ->
  network.initial_capacity (storage m n) = Some c0 ->
  cap0 !! (n, tlast) = Some v0 ->
  Storage.set_initial_capacity m n cap0
  = Ok (<[(n, tlast) :=
            Storage.fix_
              (Storage.set_value
                 (c0 * network.nominal_capacity (storage m n))%Q v0)]> cap0).
Proof.
  intros Hlast Hinit Hv0. unfold Storage.set_initial_capacity, last_item.
  rewrite Hinit, Hlast. simpl. unfold getitem. rewrite Hv0. simpl.
  rewrite lookup_insert_eq. simpl. by rewrite insert_insert_eq.
Qed.

Lemma Storage_set_initial (tlast : nat) (group : list Node) :
  last (timesteps m) = Some tlast ->
  forall cap0 : gmap (Node * nat) VarData,
  (forall n, n ∈ group -> is_Some (cap0 !! (n, tlast))) ->
  exists cap1,
    for_ group (Storage.set_initial_capacity m) cap0 = Ok cap1
    /\ (forall k, (forall n, n ∈ group -> k ≠ (n, tlast)) ->
                  cap1 !! k = cap0 !! k)
    /\ (forall n c0, n ∈ group ->
          network.initial_capacity (storage m n) = Some c0 ->
          exists v, cap1 !! (n, tlast) = Some v /\ fixed v = true
                    /\ value v
                       = Some (c0 * network.nominal_capacity (storage m n))%Q).
Proof.
  intros Hlast. induction group as [|n0 group IH]; intros cap0 Hdom.
  - exists cap0. split_and!; try done.
    intros n c0 Hn. by apply elem_of_nil in Hn.
  - cbn [for_].
    destruct (network.initial_capacity (storage m n0)) as [c0|] eqn:Hinit.
    + destruct (Hdom n0) as [v0 Hv0]; [by left|].
      rewrite (Storage_set_initial_step tlast n0 c0 cap0 v0) by done.
      set (v1 := Storage.fix_ (Storage.set_value _ v0)).
      destruct (IH (<[(n0, tlast) := v1]> cap0))
        as (cap1 & Hfor & Hk & Hf).
      { intros n Hn. destruct (decide (n = n0)) as [->|Hne].
        - rewrite lookup_insert_eq. by eexists.
        - rewrite lookup_insert_ne by congruence. apply Hdom. by right. }
      exists cap1. split_and!; [done| |].
      * intros k Hne. rewrite Hk by (intros; apply Hne; by right).
        apply lookup_insert_ne. intros <-. by apply (Hne n0); [left|].
      * intros n c1 Hn Hc1.
        destruct (decide (n ∈ group)) as [Hin|Hnin]; [by apply Hf|].
        apply elem_of_cons in Hn as [->|?]; [|done].
        rewrite Hk, lookup_insert_eq.
        -- exists v1. rewrite Hinit in Hc1. by inversion Hc1; subst.
        -- intros n Hn' [= ->]. done.
    + assert (Storage.set_initial_capacity m n0 cap0 = Ok cap0) as ->.
      { unfold Storage.set_initial_capacity. by rewrite Hinit. }
      destruct (IH cap0) as (cap1 & Hfor & Hk & Hf).
      { intros; apply Hdom; by right. }
      exists cap1. split_and!; [done| |].
      * intros k Hne. apply Hk. intros; apply Hne; by right.
      * intros n c1 Hn Hc1.
        apply elem_of_cons in Hn as [->|?]; [congruence|by apply Hf].
Qed.

Lemma previous_first_last (ts : list nat) (first tlast : nat) :
  head ts = Some first -> last ts = Some tlast -> previous ts first = tlast.
Proof.
  destruct ts as [|t0 ts]; [done|]. intros [= <-] Hlast.
  unfold previous. rewrite decide_True by done.
  generalize t0 at 2. revert t0 Hlast.
  induction ts as [|t1 ts IH]; intros t0 Hlast d.
  - by inversion Hlast.
  - change (List.last (t0 :: t1 :: ts) d) with (List.last (t1 :: ts) d).
    apply IH. exact Hlast.
Qed.

(** C6: for every fixed-size storage and timestep the balance constraint is
    [capacity[t] - capacity[previous(t)] * (1 - capacity_loss[t])
     - inflow[t] * inflow_eff[t] * dt + outflow[t] / outflow_eff[t] * dt == 0]
    with [previous(first) = last], and a storage with an initial capacity has
    its capacity variable at the last timestep fixed to
    [initial_capacity * nominal_capacity]. *)
Theorem Storage_balance_and_anchor (group : list Node) (self : Storage.t) :
  timesteps m ≠ [] ->
  (forall n, n ∈ group ->
     is_Some (INPUTS m !! n) /\ is_Some (OUTPUTS m !! n)) ->
  (forall n t, n ∈ group -> t ∈ timesteps m ->
     ~ (network.outflow_conversion_factor (storage m n) t == 0)%Q) ->
  exists b tlast,
    Storage._create m (Some group) self = Ok b
    /\ last (timesteps m) = Some tlast
    /\ (forall first, head (timesteps m) = Some first ->
          previous_timesteps m first = tlast)
    /\ forall n, n ∈ group ->
         (forall t, t ∈ timesteps m ->
            exists i o c,
              INPUTS m !! n = Some i /\ OUTPUTS m !! n = Some o
              /\ Storage.balance b !! (n, t) = Some c
              /\ rel c = EQ /\ rhs c = Num 0
              /\ forall env,
                   (eval env (lhs c)
                    == env (Storage_capacity n t)
                       - env (Storage_capacity n (previous_timesteps m t))
                         * (1 - network.capacity_loss (storage m n) t)
                       - env (flow i n t)
                         * network.inflow_conversion_factor (storage m n) t
                         * timeincrement m
                       + env (flow n o t)
                         / network.outflow_conversion_factor (storage m n) t
                         * timeincrement m)%Q)
         /\ (forall c0,
               network.initial_capacity (storage m n) = Some c0 ->
               exists v,
                 Storage.capacity b !! (n, tlast) = Some v
                 /\ fixed v = true
                 /\ value v
                    = Some (c0 * network.nominal_capacity (storage m n))%Q).
Proof.
  intros Hts Hio Heff.
  destruct (proj2 (last_is_Some (timesteps m)) Hts) as [tlast Hlast].
  assert (Hin_last : tlast ∈ timesteps m).
  { apply last_Some in Hlast as [l' ->]. apply elem_of_app. right. by left. }
  unfold Storage._create.
  destruct (Var_total (cprod group (timesteps m)) Reals
                      (Storage._storage_capacity_bound_rule m))
    as [cap0 Hcap0].
  { intros [n t] _. by eexists. }
  rewrite Hcap0. simpl.
  destruct (Storage_set_initial tlast group Hlast cap0)
    as (cap1 & -> & _ & Hfix).
  { intros n Hn. rewrite (Var_lookup _ _ _ _ _ Hcap0).
    rewrite decide_True by (apply list_elem_of_cprod; done). by eexists. }
  simpl.
  destruct (Constraint_total (cprod group (timesteps m))
                             (Storage._storage_balance_rule m))
    as [bal Hbal].
  { intros [n t] [Hn Ht]%list_elem_of_cprod. simpl in *.
    destruct (Hio n Hn) as [[i Hi] [o Ho]]. unfold rule_constr.
    rewrite (Storage_balance_rule_eq n i o t) by auto. by eexists. }
  rewrite Hbal. simpl. eexists _, tlast. split_and!; [done|done| |].
  { intros first Hfirst. by apply previous_first_last. }
  intros n Hn. split; [|intros c0 Hc0; simpl; by apply Hfix].
  intros t Ht. destruct (Hio n Hn) as [[i Hi] [o Ho]].
  eexists i, o, _. split_and!; [done|done| | | |].
  - simpl. rewrite (Constraint_lookup _ _ _ _ Hbal).
    rewrite decide_True by (apply list_elem_of_cprod; done).
    unfold rule_constr. rewrite (Storage_balance_rule_eq n i o t) by auto.
    reflexivity.
  - done.
  - done.
  - intros env. simpl. unfold Qdiv. ring.
Qed.

End storage.

Lemma Storage_balance_and_anchor_witness :
  exists b v,
    Storage._create Scenario.m_storage (Some ["storage"]) Storage.new = Ok b
    /\ Storage.capacity b !! ("storage", 1%nat) = Some v
    /\ fixed v = true
    /\ value v = Some ((1 # 2) * 100)%Q.
Proof.
  destruct (Storage_balance_and_anchor Scenario.m_storage ["storage"]
                                       Storage.new)
    as (b & tlast & Hb & Hlast & _ & Hall).
  - discriminate.
  - intros n ->%list_elem_of_singleton. split; eexists; reflexivity.
  - intros n t ->%list_elem_of_singleton _. discriminate.
  - injection Hlast as <-.
    destruct (Hall "storage") as [_ Hfix]; [by left|].
    destruct (Hfix (1 # 2)) as (v & Hv); [reflexivity|].
    by exists b, v.
Defined.

(** ** Electrical buses *)

(** C10: an [ElectricalBus] built without a [slack] keyword argument has
    [slack = True] (and without [v_max], [v_min]: 1000 and -1000), so buses
    built with the defaults are all marked slack, every one of them. *)
Theorem ElectricalBus_default_slack (kwargs : gmap string pyval)
    (topology : list (gmap string pyval)) :
  (kwargs !! "slack" = None ->
   custom.slack (custom.ElectricalBus__init__ kwargs) = PyBool true)
  /\ (kwargs !! "v_max" = None ->
      custom.v_max (custom.ElectricalBus__init__ kwargs) = PyNum 1000)
  /\ (kwargs !! "v_min" = None ->
      custom.v_min (custom.ElectricalBus__init__ kwargs) = PyNum (-1000))
  /\ (Forall (fun kw => kw !! "slack" = None) topology ->
      Forall (fun b => is_True (custom.slack b) = true)
             (map custom.ElectricalBus__init__ topology)
      /\ length (filter (fun b => is_True (custom.slack b) = true)
                        (map custom.ElectricalBus__init__ topology))
         = length topology).
Proof.
  split_and!;
    try (unfold custom.ElectricalBus__init__, kwargs_get; intros ->;
         reflexivity).
  intros Hall. induction Hall as [|kw l Hkw _ [IH1 IH2]]; [by split|].
  assert (is_True (custom.slack (custom.ElectricalBus__init__ kw)) = true)
    as Hslack.
  { unfold custom.ElectricalBus__init__, kwargs_get. by rewrite Hkw. }
  split; [by constructor|].
  cbn [map]. rewrite filter_cons_True by exact Hslack.
  cbn [length]. by rewrite IH2.
Qed.

Lemma ElectricalBus_default_slack_witness :
  custom.ElectricalBus__init__ {["label" := PyStr "b0"]}
  = custom.mkElectricalBus (PyBool true) (PyNum 1000) (PyNum (-1000))
  /\ length (filter (fun b => is_True (custom.slack b) = true)
                    (map custom.ElectricalBus__init__
                         [{["label" := PyStr "b0"]};
                          {["label" := PyStr "b1"]}]))
     = 2%nat.
Proof.
  destruct (ElectricalBus_default_slack
              {["label" := PyStr "b0"]}
              [{["label" := PyStr "b0"]}; {["label" := PyStr "b1"]}])
    as (Hs & Hmax & Hmin & Hall).
  split.
  - specialize (Hs eq_refl). specialize (Hmax eq_refl).
    specialize (Hmin eq_refl).
    destruct (custom.ElectricalBus__init__ _). simpl in *. congruence.
  - apply Hall. repeat constructor.
Defined.

(** ** Invested storages *)

Lemma elem_of_map {A B} (f : A -> B) (l : list A) (y : B) :
  y ∈ map f l <-> exists x, y = f x /\ x ∈ l.
Proof.
  rewrite list_elem_of_In, in_map_iff. split.
  - intros (x & <- & Hx). exists x. by rewrite list_elem_of_In.
  - intros (x & -> & Hx). exists x. by rewrite <- list_elem_of_In.
Qed.


Section investment_storage.
Variable m : Model.
Variable m_InvestmentFlow : InvestmentFlow.t.



Local Abbreviation icap n t := (V (InvestmentStorage_capacity n t)).
Local Abbreviation isize n := (V (InvestmentStorage_invest n)).


End investment_storage.


(** ** Discrete flows *)

Section discrete.
Variable m : Model.

Local Abbreviation stat i o t := (V (Discrete_status i o t)).

Lemma Discrete_minimum_rule_eq (i o : Node) (t : nat) mf nv :
  flows m !! (i, o) = Some mf ->
  network.nominal_value mf = Some nv ->
  Discrete._minimum_flow_rule m (i, o, t)
  = Ok (RelExpr (Constr (Mul (Mul (stat i o t) (Num (network.min mf t)))
                             (Num nv))
                        GE (V (flow i o t)))).
Proof.
  intros Hf Hnv. unfold Discrete._minimum_flow_rule, getitem.
  rewrite Hf. simpl. by rewrite Hnv.
Qed.

Lemma Discrete_maximum_rule_eq (i o : Node) (t : nat) mf nv :
  flows m !! (i, o) = Some mf ->
  network.nominal_value mf = Some nv ->
  Discrete._maximum_flow_rule m (i, o, t)
  = Ok (RelExpr (Constr (Mul (Mul (stat i o t) (Num (network.max mf t)))
                             (Num nv))
                        LE (V (flow i o t)))).
Proof.
  intros Hf Hnv. unfold Discrete._maximum_flow_rule, getitem.
  rewrite Hf. simpl. by rewrite Hnv.
Qed.

(** C8, amended: [MIN_FLOWS] holds the edges whose minimum fraction is
    nonzero at index 0 ([min[0] != 0]).  Every such edge gets, at every
    timestep, the two constraints
    [status * min[t] * nominal_value >= flow] and
    [status * max[t] * nominal_value <= flow]; both families have the index
    [MIN_FLOWS], so an edge outside it gets neither, whatever its minimum
    is at later timesteps. *)
Theorem Discrete_coupling_constraints
    (group : list (Node * Node * network.Flow)) (self : Discrete.t) :
  (forall g, g ∈ group -> Discrete.has_min g = true ->
     exists mf nv, flows m !! Discrete.edge g = Some mf
                   /\ network.nominal_value mf = Some nv) ->
  exists b,
    Discrete._create m (Some group) self = Ok b
    /\ (forall e, e ∈ Discrete.MIN_FLOWS b <->
                  exists g, g ∈ group /\ e = Discrete.edge g
                            /\ ~ (network.min g.2 0%nat == 0)%Q)
    /\ (forall i o t mf nv,
          (i, o) ∈ Discrete.MIN_FLOWS b -> t ∈ timesteps m ->
          flows m !! (i, o) = Some mf ->
          network.nominal_value mf = Some nv ->
          Discrete.minimum_flow b !! (i, o, t)
          = Some (Constr (Mul (Mul (stat i o t) (Num (network.min mf t)))
                              (Num nv))
                         GE (V (flow i o t)))
          /\ Discrete.maximum_flow b !! (i, o, t)
             = Some (Constr (Mul (Mul (stat i o t) (Num (network.max mf t)))
                                 (Num nv))
                            LE (V (flow i o t))))
    /\ (forall e t,
          e ∉ Discrete.MIN_FLOWS b ->
          Discrete.minimum_flow b !! (e, t) = None
          /\ Discrete.maximum_flow b !! (e, t) = None).
Proof.
  intros Hflows. unfold Discrete._create.
  set (MIN := map Discrete.edge
                  (filter (fun g => Discrete.has_min g = true) group)).
  assert (HMIN : forall e, e ∈ MIN ->
            exists mf nv, flows m !! e = Some mf
                          /\ network.nominal_value mf = Some nv).
  { intros e (g & -> & [Hm Hg]%list_elem_of_filter)%elem_of_map. eauto. }
  destruct (Var_total (cprod (map Discrete.edge group) (timesteps m))
                      Binary unbounded) as [st Hst]; [by eexists|].
  destruct (Constraint_total (cprod MIN (timesteps m))
                             (Discrete._minimum_flow_rule m)) as [cmin Hcmin].
  { intros [[i o] t] [He _]%list_elem_of_cprod. simpl in He.
    destruct (HMIN _ He) as (mf & nv & Hf & Hnv). unfold rule_constr.
    rewrite (Discrete_minimum_rule_eq i o t mf nv Hf Hnv). by eexists. }
  destruct (Constraint_total (cprod MIN (timesteps m))
                             (Discrete._maximum_flow_rule m)) as [cmax Hcmax].
  { intros [[i o] t] [He _]%list_elem_of_cprod. simpl in He.
    destruct (HMIN _ He) as (mf & nv & Hf & Hnv). unfold rule_constr.
    rewrite (Discrete_maximum_rule_eq i o t mf nv Hf Hnv). by eexists. }
  rewrite Hst. simpl. rewrite Hcmin. simpl. rewrite Hcmax. simpl.
  eexists. split; [reflexivity|]. simpl. fold MIN. split_and!.
  - intros e. unfold MIN. rewrite elem_of_map. split.
    + intros (g & -> & [Hm Hg]%list_elem_of_filter). exists g.
      split_and!; [done..|]. unfold Discrete.has_min in Hm.
      intros Hz%Qeq_bool_iff. by rewrite Hz in Hm.
    + intros (g & Hg & -> & Hnz). exists g. split; [done|].
      apply list_elem_of_filter. split; [|done]. unfold Discrete.has_min.
      destruct (Qeq_bool _ 0) eqn:E; [|done]. by apply Qeq_bool_iff in E.
  - intros i o t mf nv He Ht Hf Hnv.
    rewrite (Constraint_lookup _ _ _ _ Hcmin),
            (Constraint_lookup _ _ _ _ Hcmax).
    rewrite !decide_True by (apply list_elem_of_cprod; done).
    unfold rule_constr.
    by rewrite (Discrete_minimum_rule_eq i o t mf nv Hf Hnv),
               (Discrete_maximum_rule_eq i o t mf nv Hf Hnv).
  - intros e t He.
    rewrite (Constraint_lookup _ _ _ _ Hcmin),
            (Constraint_lookup _ _ _ _ Hcmax).
    rewrite !decide_False; [done|..];
      by intros [? _]%list_elem_of_cprod.
Qed.

End discrete.

Lemma Discrete_coupling_constraints_witness :
  exists b,
    Discrete._create Scenario.m_discrete (Some Scenario.discrete_group)
                     Discrete.new = Ok b
    /\ Discrete.minimum_flow b !! ("plant", "bus", 1%nat)
       = Some (Constr (Mul (Mul (V (Discrete_status "plant" "bus" 1))
                                (Num (1 # 2))) (Num 10))
                      GE (V (flow "plant" "bus" 1)))
    /\ Discrete.maximum_flow b !! ("plant", "bus", 1%nat)
       = Some (Constr (Mul (Mul (V (Discrete_status "plant" "bus" 1))
                                (Num 1)) (Num 10))
                      LE (V (flow "plant" "bus" 1))).
Proof.
  destruct (Discrete_coupling_constraints
              Scenario.m_discrete Scenario.discrete_group Discrete.new)
    as (b & Hb & HMIN & Hc & _).
  - intros g ->%list_elem_of_singleton _.
    exists Scenario.discrete_edge, 10%Q. by split.
  - exists b. split; [exact Hb|].
    apply (Hc "plant" "bus" 1%nat Scenario.discrete_edge 10%Q);
      [|by right; left|reflexivity|reflexivity].
    apply HMIN. exists ("plant", "bus", Scenario.discrete_edge).
    split_and!; [by left|reflexivity|discriminate].
Defined.

(** C8, as stated, fails: an edge whose declared minimum is zero at index 0
    and one half at timestep 1 is not in [MIN_FLOWS] and gets neither of the
    two constraints, at no timestep. *)
Lemma Discrete_late_minimum_unconstrained :
  ~ (network.min Scenario.late_minimum_edge 1%nat == 0)%Q
  /\ exists b,
       Discrete._create Scenario.m_late_minimum
                        (Some [("plant", "bus", Scenario.late_minimum_edge)])
                        Discrete.new = Ok b
       /\ Discrete.FLOWS b = [("plant", "bus")]
       /\ Discrete.MIN_FLOWS b = []
       /\ forall t,
            Discrete.minimum_flow b !! ("plant", "bus", t) = None
            /\ Discrete.maximum_flow b !! ("plant", "bus", t) = None.
Proof.
  split; [discriminate|].
  eexists. split; [vm_compute; reflexivity|]. by split_and!.
Qed.

(** *** Start costs and gradients of discrete edges *)

Lemma filter_map_invariant {A B} (phi : A -> A) (e : A -> B) (P : A -> Prop)
    `{forall x, Decision (P x)} (l : list A) :
  (forall x, P (phi x) <-> P x) -> (forall x, e (phi x) = e x) ->
  map e (filter P (map phi l)) = map e (filter P l).
Proof.
  intros HP He. induction l as [|x l IH]; [done|]. cbn [map].
  destruct (decide (P x)) as [Hx|Hx].
  - rewrite !filter_cons_True by (done || by apply HP).
    cbn [map]. by rewrite He, IH.
  - rewrite !filter_cons_False by (done || by rewrite HP). exact IH.
Qed.

Lemma Discrete_minimum_rule_plain (m : Model) (k : Edge * nat) :
  Discrete._minimum_flow_rule (plain_model m) k
  = Discrete._minimum_flow_rule m k.
Proof.
  destruct k as [[i o] t]. unfold Discrete._minimum_flow_rule, getitem.
  simpl. rewrite lookup_fmap. by destruct (flows m !! (i, o)).
Qed.

Lemma Discrete_maximum_rule_plain (m : Model) (k : Edge * nat) :
  Discrete._maximum_flow_rule (plain_model m) k
  = Discrete._maximum_flow_rule m k.
Proof.
  destruct k as [[i o] t]. unfold Discrete._maximum_flow_rule, getitem.
  simpl. rewrite lookup_fmap. by destruct (flows m !! (i, o)).
Qed.

(** C2, as the code has it: the Discrete block raises nothing on account of
    start costs or gradients.  An edge with start costs is listed in
    [STARTCOSTFLOWS] and that is all: the sets, the status variables and the
    two constraint families are those of the same topology with start costs
    and gradients unset. *)
Theorem Discrete_start_costs_and_gradients_unused (m : Model)
    (group : list (Node * Node * network.Flow)) (self : Discrete.t) :
  Discrete._create (plain_model m) (Some (plain_group group)) self
  = (b ← Discrete._create m (Some group) self;
     Ok (Discrete.mk (Discrete.FLOWS b) (Discrete.MIN_FLOWS b) []
                     (Discrete.status b) (Discrete.minimum_flow b)
                     (Discrete.maximum_flow b)))
  /\ forall b, Discrete._create m (Some group) self = Ok b ->
       forall e, e ∈ Discrete.STARTCOSTFLOWS b <->
                 exists g, g ∈ group /\ e = Discrete.edge g
                           /\ is_Some (options.start_costs
                                         (network.discrete g.2)).
Proof.
  unfold Discrete._create, plain_group.
  assert (map Discrete.edge
              (map (fun g => (g.1, without_start_costs_and_gradients g.2))
                   group)
          = map Discrete.edge group) as ->.
  { rewrite map_map. apply map_ext. by intros [[i o] f]. }
  rewrite (filter_map_invariant
             (fun g => (g.1, without_start_costs_and_gradients g.2))
             Discrete.edge (fun g => Discrete.has_min g = true) group)
    by (by intros [[i o] f]).
  assert (filter (fun g => Discrete.has_start_costs g = true)
                 (map (fun g => (g.1, without_start_costs_and_gradients g.2))
                      group) = []) as ->.
  { induction group as [|g group IH]; [done|]. cbn [map].
    by rewrite filter_cons_False. }
  unfold Constraint_.
  rewrite (for_ext _ (fun k cs => r ← Discrete._minimum_flow_rule
                                        (plain_model m) k;
                                  Constraint_add k r cs)
                   (fun k cs => r ← Discrete._minimum_flow_rule m k;
                                Constraint_add k r cs))
    by (intros; cbv beta; by rewrite Discrete_minimum_rule_plain).
  rewrite (for_ext _ (fun k cs => r ← Discrete._maximum_flow_rule
                                        (plain_model m) k;
                                  Constraint_add k r cs)
                   (fun k cs => r ← Discrete._maximum_flow_rule m k;
                                Constraint_add k r cs))
    by (intros; cbv beta; by rewrite Discrete_maximum_rule_plain).
  change (timesteps (plain_model m)) with (timesteps m).
  split.
  - destruct (Var_ _ _ _); simpl; [|done].
    destruct (for_ _ (fun k cs => r ← Discrete._minimum_flow_rule m k; _) ∅);
      simpl; [|done].
    by destruct (for_ _ _ ∅).
  - intros b Hb e.
    destruct (Var_ _ _ _); simpl in Hb; [|done].
    destruct (for_ _ (fun k cs => r ← Discrete._minimum_flow_rule m k; _) ∅);
      simpl in Hb; [|done].
    destruct (for_ _ _ ∅); simpl in Hb; [|done].
    inversion Hb; subst b; clear Hb. simpl. rewrite elem_of_map. split.
    + intros (g & -> & [Hs Hg]%list_elem_of_filter). exists g.
      split_and!; [done..|]. unfold Discrete.has_start_costs in Hs.
      by apply bool_decide_eq_true in Hs.
    + intros (g & Hg & -> & Hs). exists g. split; [done|].
      apply list_elem_of_filter. split; [|done].
      by apply bool_decide_eq_true.
Qed.

Lemma Discrete_start_costs_and_gradients_unused_witness :
  Discrete._create (plain_model Scenario.m_discrete)
                   (Some (plain_group Scenario.discrete_group)) Discrete.new
  = (b ← Discrete._create Scenario.m_discrete (Some Scenario.discrete_group)
                          Discrete.new;
     Ok (Discrete.mk (Discrete.FLOWS b) (Discrete.MIN_FLOWS b) []
                     (Discrete.status b) (Discrete.minimum_flow b)
                     (Discrete.maximum_flow b)))
  /\ forall b,
       Discrete._create Scenario.m_discrete (Some Scenario.discrete_group)
                        Discrete.new = Ok b ->
       ("plant", "bus") ∈ Discrete.STARTCOSTFLOWS b.
Proof.
  destruct (Discrete_start_costs_and_gradients_unused
              Scenario.m_discrete Scenario.discrete_group Discrete.new)
    as [Heq Hstart].
  split; [exact Heq|]. intros b Hb. apply (Hstart b Hb).
  exists ("plant", "bus", Scenario.discrete_edge).
  split_and!; [by left|reflexivity|by eexists].
Defined.

(** C2, as stated, fails: a discrete edge that declares start costs and
    both gradients builds without any error. *)
Lemma Discrete_start_costs_not_refused :
  is_Some (options.start_costs
             (network.discrete Scenario.discrete_edge))
  /\ is_Some (network.positive_gradient Scenario.discrete_edge 0%nat)
  /\ is_Some (network.negative_gradient Scenario.discrete_edge 0%nat)
  /\ ~ (exists e, Discrete._create Scenario.m_discrete
                    (Some Scenario.discrete_group) Discrete.new = Raise e)
  /\ exists b, Discrete._create Scenario.m_discrete
                 (Some Scenario.discrete_group) Discrete.new = Ok b
               /\ Discrete.STARTCOSTFLOWS b = [("plant", "bus")]
               /\ Discrete.FLOWS b = [("plant", "bus")].
Proof.
  split_and!; [by eexists..| |].
  - intros [e He]. vm_compute in He. discriminate.
  - eexists. split; [vm_compute; reflexivity|]. by split.
Qed.

(** ** Bus balances *)

Lemma eval_py_add env (a b : expr) :
  (eval env (py_add a b) == eval env a + eval env b)%Q.
Proof. destruct a, b; simpl; reflexivity. Qed.

Lemma eval_foldl_py_add env (l : list expr) (acc : expr) :
  (eval env (foldl py_add acc l) == eval env acc + Qsum (map (eval env) l))%Q.
Proof.
  revert acc. induction l as [|x l IH]; intros acc; simpl.
  - ring.
  - rewrite IH, eval_py_add. ring.
Qed.

Lemma eval_py_sum env (l : list expr) :
  (eval env (py_sum l) == Qsum (map (eval env) l))%Q.
Proof. unfold py_sum. rewrite eval_foldl_py_add. simpl. ring. Qed.

Lemma foldl_py_add_Add (l : list expr) (acc : expr) :
  is_Add acc -> is_Add (foldl py_add acc l).
Proof.
  revert acc. induction l as [|x l IH]; intros acc Hacc; simpl; [done|].
  apply IH. by destruct acc, x.
Qed.

Lemma py_sum_products (A : Type) (v : A -> var) (dt : Q) (l : list A) :
  l ≠ [] -> is_Add (py_sum (map (fun a => py_mul (V (v a)) (Num dt)) l)).
Proof.
  destruct l as [|a l]; [done|]. intros _. unfold py_sum. simpl.
  by apply foldl_py_add_Add.
Qed.

Section bus.
Variable m : Model.

Lemma py_cmp_Add_l op (a b : expr) :
  is_Add a -> py_cmp op a b = RelExpr (Constr a op b).
Proof. by destruct a. Qed.

Lemma py_cmp_Add_r op (a b : expr) :
  is_Add b -> py_cmp op a b = RelExpr (Constr a op b).
Proof. by destruct a, b. Qed.

Lemma bus_step_eq (p : nat * Node) (bal : gmap (Node * nat) constr) :
  (let lhs := Bus.inflow_sum m p.2 p.1 in
   let rhs := Bus.outflow_sum m p.2 p.1 in
   let expr := py_cmp EQ lhs rhs in
   if Bus.is_not_True expr then Constraint_add (p.2, p.1) expr bal
   else Ok bal)
  = v ← Bus.emitted m p;
    Ok (match v with
        | Some (k, c) => <[k := c]> bal
        | None => bal
        end).
Proof.
  destruct p as [t n]. unfold Bus.emitted. cbn [fst snd].
  case_decide as Hd.
  - destruct Hd as [Hi Ho]. unfold Bus.inflow_sum, Bus.outflow_sum.
    by rewrite Hi, Ho.
  - assert (is_Add (Bus.inflow_sum m n t) \/ is_Add (Bus.outflow_sum m n t))
      as Hadd.
    { unfold Bus.inflow_sum, Bus.outflow_sum.
      destruct (network.inputs (bus m n)) as [|i ins].
      - right. apply (py_sum_products _ (fun o => flow n o t)).
        intros Ho. by apply Hd.
      - left. by apply (py_sum_products _ (fun i => flow i n t)). }
    cbv zeta.
    assert (py_cmp EQ (Bus.inflow_sum m n t) (Bus.outflow_sum m n t)
            = RelExpr (Constr (Bus.inflow_sum m n t) EQ
                              (Bus.outflow_sum m n t))) as ->.
    { destruct Hadd; [by apply py_cmp_Add_l | by apply py_cmp_Add_r]. }
    done.
Qed.

(** C9: every bus of the group gets, at every timestep, the balance
    [sum(inflow * dt) == sum(outflow * dt)], except a bus without any input
    and output, whose balance would read [0 == 0]: for it no constraint is
    added. *)
Theorem Bus_balance_emitted (group : list Node) (self : Bus.t) :
  exists bal,
    Bus._create m (Some group) self = Ok (Bus.mk (Some bal))
    /\ (forall n t,
          bal !! (n, t)
          = if decide (n ∈ group /\ t ∈ timesteps m
                       /\ ~ (network.inputs (bus m n) = []
                             /\ network.outputs (bus m n) = []))
            then Some (Constr (Bus.inflow_sum m n t) EQ
                              (Bus.outflow_sum m n t))
            else None)
    /\ (forall env n t,
          (eval env (Bus.inflow_sum m n t)
           == Qsum (map (fun i => env (flow i n t) * timeincrement m)
                        (network.inputs (bus m n))))%Q
          /\ (eval env (Bus.outflow_sum m n t)
              == Qsum (map (fun o => env (flow n o t) * timeincrement m)
                           (network.outputs (bus m n))))%Q)
    /\ (forall n t,
          network.inputs (bus m n) = [] /\ network.outputs (bus m n) = [] ->
          py_cmp EQ (Bus.inflow_sum m n t) (Bus.outflow_sum m n t)
          = RelBool (Qeq_bool 0 0)).
Proof.
  unfold Bus._create, Bus._busbalance_rule.
  rewrite for_nested.
  set (body := fun (p : nat * Node) (balance : gmap (Node * nat) constr) =>
                 let lhs := Bus.inflow_sum m p.2 p.1 in
                 let rhs := Bus.outflow_sum m p.2 p.1 in
                 let expr := py_cmp EQ lhs rhs in
                 if Bus.is_not_True expr
                 then Constraint_add (p.2, p.1) expr balance
                 else Ok balance).
  destruct (emit_total (Bus.emitted m) body bus_step_eq
                       (cprod (timesteps m) group) ∅) as [bal Hbal].
  { intros [t n] _. by eexists. }
  exists bal. split; [by rewrite Hbal|]. split_and!.
  - intros n t. case_decide as Hd.
    + destruct Hd as (Hn & Ht & Hdeg).
      eapply (emit_found (Bus.emitted m) body bus_step_eq _ _ _ (t, n));
        [exact Hbal|by apply list_elem_of_cprod| |].
      * unfold Bus.emitted. by rewrite decide_False.
      * intros [t' n'] c' _. unfold Bus.emitted.
        case_decide; intros [= <- <- <-]. done.
    + rewrite (emit_keep (Bus.emitted m) body bus_step_eq _ _ _ _ Hbal);
        [apply lookup_empty|].
      intros [t' n'] c [Ht' Hn']%list_elem_of_cprod. unfold Bus.emitted.
      case_decide as Hdeg; [done|]. intros [= -> -> _]. by apply Hd.
  - intros env n t. unfold Bus.inflow_sum, Bus.outflow_sum.
    rewrite !eval_py_sum, !map_map. done.
  - intros n t [Hi Ho]. unfold Bus.inflow_sum, Bus.outflow_sum.
    by rewrite Hi, Ho.
Qed.

End bus.

Lemma Bus_balance_emitted_witness :
  exists bal,
    Bus._create Scenario.m_bus (Some ["bus"; "island"]) Bus.new
    = Ok (Bus.mk (Some bal))
    /\ bal !! ("bus", 2%nat)
       = Some (Constr (Add (Num 0) (Mul (V (flow "source" "bus" 2)) (Num 1)))
                      EQ
                      (Add (Num 0) (Mul (V (flow "bus" "sink" 2)) (Num 1))))
    /\ bal !! ("island", 2%nat) = None
    /\ py_cmp EQ (Bus.inflow_sum Scenario.m_bus "island" 2)
                 (Bus.outflow_sum Scenario.m_bus "island" 2)
       = RelBool true.
Proof.
  destruct (Bus_balance_emitted Scenario.m_bus ["bus"; "island"] Bus.new)
    as (bal & Hb & Hbal & _ & Hdeg).
  exists bal. split_and!; [exact Hb| | |].
  - rewrite Hbal. rewrite decide_True; [reflexivity|].
    split_and!; [by left|by right; right; left|by intros [? _]].
  - rewrite Hbal. apply decide_False. intros (_ & _ & Hno). by apply Hno.
  - apply Hdeg. by split.
Defined.

(** ** Missing investment costs *)

(** Inversion of [x ← c; k x = Ok r]. *)
Ltac bind_inv H :=
  match type of H with
  | mbind _ ?c = Ok _ =>
      let E := fresh "E" in
      destruct c eqn:E; simpl in H; [|discriminate H]
  end.

Section missing_ep_costs.
Variable m : Model.

Lemma InvestmentStorage_objective_raises (group : list Node) acc :
  (exists n, n ∈ group
             /\ options.ep_costs (network.storage_investment (storage m n))
                = None) ->
  for_ group (InvestmentStorage.objective_step m) acc = Raise missing_costs.
Proof.
  revert acc. induction group as [|n0 group IH]; intros acc (n & Hn & Hep).
  - by apply elem_of_nil in Hn.
  - cbn [for_].
    destruct (InvestmentStorage.objective_step m n0 acc) as [acc'|e] eqn:E.
    + simpl. apply IH. exists n. split; [|done].
      apply elem_of_cons in Hn as [->|?]; [|done].
      unfold InvestmentStorage.objective_step in E. by rewrite Hep in E.
    + unfold InvestmentStorage.objective_step in E.
      destruct (options.ep_costs
                  (network.storage_investment (storage m n0)));
        [discriminate E|].
      injection E as <-. reflexivity.
Qed.

Lemma InvestmentFlow_objective_raises (FLOWS : list Edge) acc :
  (forall k, k ∈ FLOWS -> is_Some (flows m !! k)) ->
  (exists k f, k ∈ FLOWS /\ flows m !! k = Some f
               /\ options.ep_costs (network.investment f) = None) ->
  for_ FLOWS (InvestmentFlow.objective_step m) acc = Raise missing_costs.
Proof.
  revert acc. induction FLOWS as [|k0 FLOWS IH];
    intros acc Hall (k & f & Hk & Hf & Hep).
  - by apply elem_of_nil in Hk.
  - cbn [for_]. destruct (Hall k0) as [f0 Hf0]; [by left|].
    destruct (InvestmentFlow.objective_step m k0 acc) as [acc'|e] eqn:E.
    + simpl. apply IH; [intros; apply Hall; by right|].
      exists k, f. split; [|done].
      apply elem_of_cons in Hk as [->|?]; [|done].
      unfold InvestmentFlow.objective_step, getitem in E.
      rewrite Hf in E. simpl in E. by rewrite Hep in E.
    + unfold InvestmentFlow.objective_step, getitem in E.
      rewrite Hf0 in E. simpl in E.
      destruct (options.ep_costs (network.investment f0));
        [discriminate E|].
      injection E as <-. reflexivity.
Qed.

(** C3, as the code has it: an investment spec without [ep_costs] makes
    [_objective_expression] of its block raise
    [ValueError("Missing value for investment costs!")].  The check is made
    there and only for a block whose [_create] has run, so the sizing
    variable of the component (and the capacity variables of a storage)
    exist when it is raised; a block that was never created answers [0]
    without any check. *)
Theorem ep_costs_checked_by_objective :
  (forall m_InvestmentFlow group self b,
     InvestmentStorage._create m m_InvestmentFlow (Some group) self = Ok b ->
     (forall n, n ∈ group ->
        is_Some (InvestmentStorage.invest b !! n)
        /\ forall t, t ∈ timesteps m ->
                     is_Some (InvestmentStorage.capacity b !! (n, t)))
     /\ ((exists n, n ∈ group
                    /\ options.ep_costs
                         (network.storage_investment (storage m n)) = None) ->
         InvestmentStorage._objective_expression m b = Raise missing_costs))
  /\ (forall group self b,
        InvestmentFlow._create m (Some group) self = Ok b ->
        (forall g, g ∈ group ->
           is_Some (InvestmentFlow.invest b !! InvestmentFlow.edge g))
        /\ ((exists g f, g ∈ group
                         /\ flows m !! InvestmentFlow.edge g = Some f
                         /\ options.ep_costs (network.investment f) = None) ->
            InvestmentFlow._objective_expression m b = Raise missing_costs))
  /\ InvestmentStorage._objective_expression m InvestmentStorage.new
     = Ok (InvestmentStorage.new, Num 0)
  /\ InvestmentFlow._objective_expression m InvestmentFlow.new
     = Ok (InvestmentFlow.new, Num 0).
Proof.
  split_and!; [| |done|done].
  - intros mif group self b Hb. unfold InvestmentStorage._create in Hb.
    do 8 bind_inv Hb. injection Hb as <-. simpl. split.
    + intros n Hn. split.
      * rewrite (Var_lookup _ _ _ _ _ E0).
        rewrite decide_True by done. by eexists.
      * intros t Ht. rewrite (Var_lookup _ _ _ _ _ E).
        rewrite decide_True by (apply list_elem_of_cprod; done).
        by eexists.
    + intros Hex. unfold InvestmentStorage._objective_expression. simpl.
      by rewrite InvestmentStorage_objective_raises.
  - intros group self b Hb. unfold InvestmentFlow._create in Hb.
    do 6 bind_inv Hb. injection Hb as <-. simpl.
    assert (Hkeys : forall k, k ∈ map InvestmentFlow.edge group ->
                      is_Some (a !! k) /\ is_Some (flows m !! k)).
    { intros k Hk. pose proof (Var_lookup _ _ _ _ k E) as Hl.
      rewrite decide_True in Hl by done.
      unfold InvestmentFlow._investvar_bound_rule, getitem in Hl.
      destruct (flows m !! k) eqn:Hf; simpl in Hl.
      - rewrite Hl. split; by eexists.
      - exfalso.
        destruct (emit_ok _ _ (fill_body _ _ (Var_body NonNegativeReals
                     (InvestmentFlow._investvar_bound_rule m))) _ _ _ E k Hk)
          as [v Hv].
        unfold var_of, InvestmentFlow._investvar_bound_rule, getitem in Hv.
        by rewrite Hf in Hv. }
    split.
    + intros g Hg. apply Hkeys, elem_of_map. by exists g.
    + intros (g & f & Hg & Hf & Hep).
      unfold InvestmentFlow._objective_expression. simpl.
      rewrite InvestmentFlow_objective_raises; [done| |].
      * intros k Hk. by apply Hkeys.
      * exists (InvestmentFlow.edge g), f. split; [|done].
        apply elem_of_map. by exists g.
Qed.

End missing_ep_costs.

Lemma ep_costs_checked_by_objective_witness :
  exists b,
    InvestmentStorage._create Scenario.m_costless Scenario.costless_flows
                              (Some ["storage"]) InvestmentStorage.new = Ok b
    /\ is_Some (InvestmentStorage.invest b !! "storage")
    /\ InvestmentStorage._objective_expression Scenario.m_costless b
       = Raise missing_costs.
Proof.
  destruct (InvestmentStorage._create
              Scenario.m_costless Scenario.costless_flows
              (Some ["storage"]) InvestmentStorage.new) as [b|e] eqn:Hb;
    [|vm_compute in Hb; discriminate Hb].
  destruct (ep_costs_checked_by_objective Scenario.m_costless)
    as (Hst & _ & _ & _).
  destruct (Hst Scenario.costless_flows ["storage"] InvestmentStorage.new b Hb)
    as [Hvars Hraise].
  exists b. split_and!; [done| |].
  - apply Hvars. by left.
  - apply Hraise. exists "storage". split; [by left|reflexivity].
Defined.

(** C3, as stated, fails: when the error for the missing [ep_costs] of a
    storage, or of an edge, is raised, the sizing variable of that component
    and the capacity variables of the storage have been created. *)
Lemma ep_costs_error_after_variables :
  (exists b,
     InvestmentStorage._create Scenario.m_costless Scenario.costless_flows
                               (Some ["storage"]) InvestmentStorage.new = Ok b
     /\ InvestmentStorage._objective_expression Scenario.m_costless b
        = Raise missing_costs
     /\ InvestmentStorage.invest b !! "storage"
        = Some (mkVar NonNegativeReals (Some 0%Q) (Some 200%Q) None false)
     /\ InvestmentStorage.capacity b !! ("storage", 0%nat)
        = Some (mkVar NonNegativeReals None None None false))
  /\ (exists b,
        InvestmentFlow._create Scenario.m_costless
                               (Some Scenario.costless_group)
                               InvestmentFlow.new = Ok b
        /\ InvestmentFlow._objective_expression Scenario.m_costless b
           = Raise missing_costs
        /\ InvestmentFlow.invest b !! ("bus", "storage")
           = Some (mkVar NonNegativeReals (Some 0%Q) (Some 50%Q) None false)).
Proof.
  split; eexists; (split; [vm_compute; reflexivity|]); by vm_compute.
Qed.

(** ** Electrical lines *)

(** Whatever the slack flag of the output bus, a turn of
    [_voltage_angle_relation] stores the angle relation: the assignment of
    the slack branch is overwritten by the [try] block that follows it. *)
Lemma relation_step_angle (m : Model) w I O va t n st ef eq :
  ElectricalLineBlock.relation_step m w I O va t n st = Ok (ef, eq) ->
  exists i o x,
    ef !! (n, t)
    = Some (Constr (V (flow n o t)) EQ
                   (Mul (Num x) (Sub (V (voltage_angle i t))
                                     (V (voltage_angle o t)))))
    /\ eq !! (n, t) = Some (Constr (V (flow n o t)) EQ (V (flow i n t))).
Proof.
  unfold ElectricalLineBlock.relation_step, getitem, try_except, var_ref.
  intros H.
  destruct (O !! n) as [o|]; simpl in H; [|discriminate H].
  destruct (ElectricalLineBlock.as_ElectricalBus w o) as [ob|];
    simpl in H; [|discriminate H].
  destruct (Qeq_bool _ 0); simpl in H; [discriminate H|].
  destruct (I !! n) as [i|]; simpl in H; [|discriminate H].
  destruct (va !! (i, t)); simpl in H; [|discriminate H].
  destruct (va !! (o, t)); simpl in H; [|discriminate H].
  injection H as <- <-.
  eexists i, o, _. split; apply lookup_insert_eq.
Qed.

(** C1 at a line whose output bus is the slack bus: the constraint stored
    for the line is the angle relation, which a nonzero flow satisfies; the
    flow is not pinned to zero.  The second constraint equates the two
    directional flows. *)
Theorem ElectricalLine_slack_output_not_pinned :
  custom._output (electrical_line Scenario.m_line "line") = Ok "b0"
  /\ (custom.slack <$> ElectricalLineBlock.electrical_bus
                        Scenario.slack_at_output !! "b0") = Some (PyBool true)
  /\ exists b w c,
       ElectricalLineBlock._create Scenario.m_line (Some ["line"])
                                   ElectricalLineBlock.new
                                   Scenario.slack_at_output = (Ok b, w)
       /\ ElectricalLineBlock.electrical_flow b !! ("line", 0%nat) = Some c
       /\ c = Constr (V (flow "line" "b0" 0)) EQ
                     (Mul (Num 1) (Sub (V (voltage_angle "b1" 0))
                                       (V (voltage_angle "b0" 0))))
       /\ c ≠ Constr (V (flow "line" "b0" 0)) EQ (Num 0)
       /\ ElectricalLineBlock._equate_electrical_flows b !! ("line", 0%nat)
          = Some (Constr (V (flow "line" "b0" 0)) EQ
                         (V (flow "b1" "line" 0)))
       /\ exists env, holds env c /\ ~ (env (flow "line" "b0" 0%nat) == 0)%Q.
Proof.
  split_and!; [reflexivity..|].
  eexists _, _, _. split_and!;
    [vm_compute; reflexivity|vm_compute; reflexivity|reflexivity
    |discriminate|vm_compute; reflexivity|].
  exists (fun v => match v with
                   | flow _ _ _ => 1%Q
                   | voltage_angle b _ => if String.eqb b "b1" then 1%Q
                                          else 0%Q
                   | _ => 0%Q
                   end).
  split; [reflexivity|discriminate].
Qed.

(** C5 on the path where no electrical bus is marked slack: the build
    raises, and no bus has been marked when it does.  With at least one
    electrical bus the exception is the [AttributeError] of calling
    [format] on the answer of [logging.info], after the unformatted message
    has been logged. *)
Theorem ElectricalLine_no_slack_raises (m : Model) (group : list Node)
    (self : ElectricalLineBlock.t) (w : ElectricalLineBlock.World) :
  ElectricalLineBlock.no_slack w
    (filter (fun n => is_Some (ElectricalLineBlock.electrical_bus w !! n))
            (nodes m)) = true ->
  exists e w',
    ElectricalLineBlock._create m (Some group) self w = (Raise e, w')
    /\ ElectricalLineBlock.electrical_bus w'
       = ElectricalLineBlock.electrical_bus w
    /\ (ElectricalLineBlock.log w' ≠ ElectricalLineBlock.log w ->
        e = AttributeError
        /\ ElectricalLineBlock.log w'
           = (ElectricalLineBlock.log w
              ++ ["No slack bus set, setting bus {} as slack  bus"])%list).
Proof.
  intros Hno. unfold ElectricalLineBlock._create.
  unfold mbind, ElectricalLineBlock.M_bind, ElectricalLineBlock.lift,
    ElectricalLineBlock.get_world.
  destruct (ElectricalLineBlock.dict_of group
              (fun n => custom._input (electrical_line m n))) as [I|e];
    [|by eexists _, _].
  destruct (ElectricalLineBlock.dict_of group
              (fun n => custom._output (electrical_line m n))) as [O|e];
    [|by eexists _, _].
  destruct (Var_ _ Reals (ElectricalLineBlock._voltage_angle_bounds w))
    as [va|e]; [|by eexists _, _].
  rewrite Hno.
  destruct (ElectricalLineBlock.first _) as [bus|e]; [|by eexists _, _].
  simpl. eexists _, _. split_and!; [reflexivity|reflexivity|done].
Qed.

Lemma ElectricalLine_no_slack_raises_witness :
  exists w',
    ElectricalLineBlock._create Scenario.m_line (Some ["line"])
                                ElectricalLineBlock.new
                                Scenario.no_slack_marked
    = (Raise AttributeError, w')
    /\ ElectricalLineBlock.electrical_bus w'
       = ElectricalLineBlock.electrical_bus Scenario.no_slack_marked.
Proof.
  destruct (ElectricalLine_no_slack_raises
              Scenario.m_line ["line"] ElectricalLineBlock.new
              Scenario.no_slack_marked) as (e & w' & Hc & Hb & He).
  - reflexivity.
  - exists w'. split; [|exact Hb].
    destruct He as [-> _]; [|exact Hc].
    vm_compute in Hc. injection Hc as _ <-. discriminate.
Defined.

(** ** Gradients of flows *)

(** C4 at an edge with a negative gradient next to a second edge, over three
    timesteps.  The upper bound of the negative-gradient variable is set
    and the first timestep gets no constraint, but the constraint stored for
    [t = 1] is
    [flow[c, bus, 2] - flow[a, bus, 0] <= positive_flow_gradient[a, bus, 1]]:
    the rule reads the loop variables [i], [o], [t] left over by [_create]
    and the positive-gradient variable.  It does not bound the decrease of
    the flow of the edge by the negative-gradient variable. *)
Theorem Flow_negative_gradient_rule_off :
  exists b gb c,
    Flow._create Scenario.m_ramp (Some Scenario.ramp_group) Flow.new
                 Scenario.no_bounds = Ok (b, gb)
    /\ Flow.NEGATIVE_GRADIENT_FLOWS b = [("a", "bus")]
    /\ Flow.negative_ub gb !! ("a", "bus", 1%nat) = Some ((1 # 10) * 10)%Q
    /\ Flow.negative_gradient_constr b !! ("a", "bus", 0%nat) = None
    /\ Flow.negative_gradient_constr b !! ("a", "bus", 1%nat) = Some c
    /\ c = Constr (Sub (V (flow "c" "bus" 2)) (V (flow "a" "bus" 0))) LE
                  (V (positive_flow_gradient "a" "bus" 1))
    /\ exists env,
         holds env c
         /\ ~ (env (flow "a" "bus" 0%nat) - env (flow "a" "bus" 1%nat)
               <= env (negative_flow_gradient "a" "bus" 1%nat))%Q.
Proof.
  eexists _, _, _. split_and!;
    [vm_compute; reflexivity|reflexivity|vm_compute; reflexivity
    |vm_compute; reflexivity|vm_compute; reflexivity|reflexivity|].
  exists (fun v => match v with
                   | flow _ _ t => if Nat.eqb t 0 then 1%Q else 0%Q
                   | positive_flow_gradient _ _ _ => 0%Q
                   | _ => 0%Q
                   end).
  split; [by vm_compute|]. by vm_compute.
Qed.

(** * Further properties of the blocks *)

(** ** More about loops *)

Section more_loops.
Context {A S : Type}.

(** A loop that ends normally ran every turn normally. *)
Lemma for_ok_each (l : list A) (body : A -> S -> result S) (s r : S) :
  for_ l body s = Ok r ->
  forall a, a ∈ l -> exists s' r', body a s' = Ok r'.
Proof.
  revert s. induction l as [|a0 l IH]; intros s Hr a Ha.
  - by apply elem_of_nil in Ha.
  - cbn [for_] in Hr. destruct (body a0 s) as [s1|e] eqn:E; simpl in Hr;
      [|discriminate Hr].
    apply elem_of_cons in Ha as [->|Ha]; [by eexists _, _|by eapply IH].
Qed.

(** When a turn can only raise [e], and some turn always does, the loop
    raises [e]. *)
Lemma for_raise_uniform (l : list A) (body : A -> S -> result S) (e : exn)
    (s : S) :
  (forall a s, a ∈ l -> body a s = Raise e \/ is_Ok (body a s)) ->
  (exists a, a ∈ l /\ forall s, body a s = Raise e) ->
  for_ l body s = Raise e.
Proof.
  revert s. induction l as [|a0 l IH]; intros s Hb (a & Ha & Hraise).
  - by apply elem_of_nil in Ha.
  - cbn [for_]. destruct (Hb a0 s) as [->|[s1 Hs1]]; [by left|done|].
    rewrite Hs1. simpl. apply IH; [intros; apply Hb; by right|].
    apply elem_of_cons in Ha as [->|Ha]; [|by exists a].
    rewrite Hraise in Hs1. discriminate Hs1.
Qed.

(** A loop whose turns all leave the state alone. *)
Lemma for_skip (l : list A) (body : A -> S -> result S) (s : S) :
  (forall a s, a ∈ l -> body a s = Ok s) -> for_ l body s = Ok s.
Proof.
  induction l as [|a0 l IH]; intros Hb; [done|].
  cbn [for_]. rewrite Hb by left. simpl. apply IH. intros; apply Hb.
  by right.
Qed.

End more_loops.

(** An inner loop over a list that depends on the outer variable. *)
Lemma for_flat {A B S} (l : list A) (inner : A -> list B)
    (body : A -> B -> S -> result S) (s : S) :
  for_ l (fun a => for_ (inner a) (body a)) s
  = for_ (flat_map (fun a => map (pair a) (inner a)) l)
         (fun p => body p.1 p.2) s.
Proof.
  revert s. induction l as [|a l IH]; intros s; simpl; [done|].
  rewrite for_app, for_map. simpl.
  destruct (for_ (inner a) (body a) s); simpl; [apply IH|done].
Qed.

Lemma elem_of_flat_pairs {A B} (l : list A) (inner : A -> list B) (a : A)
    (b : B) :
  (a, b) ∈ flat_map (fun a => map (pair a) (inner a)) l
  <-> a ∈ l /\ b ∈ inner a.
Proof.
  rewrite list_elem_of_In, in_flat_map. split.
  - intros (a' & Ha' & Hb). apply in_map_iff in Hb as (b' & [= -> ->] & Hb').
    by rewrite !list_elem_of_In.
  - intros [Ha Hb]. exists a. rewrite <- list_elem_of_In. split; [done|].
    apply in_map_iff. exists b. by rewrite <- list_elem_of_In.
Qed.

Section container_inversion.
Context `{Countable K}.

Lemma Constraint_inv (index : list K) (rule : K -> result pyrel) cs :
  Constraint_ index rule = Ok cs ->
  forall k, k ∈ index -> is_Some (rule_constr rule k).
Proof.
  intros Hcs k Hk.
  destruct (for_ok_each _ _ _ _ Hcs k Hk) as (s' & r' & Hr).
  unfold rule_constr. destruct (rule k) as [[b|c]|e]; simpl in Hr;
    [discriminate Hr|by eexists|discriminate Hr].
Qed.

Lemma Var_inv (index : list K) dom bounds (vs : gmap K VarData) :
  Var_ index dom bounds = Ok vs ->
  forall k, k ∈ index -> is_Ok (bounds k).
Proof.
  intros Hvs k Hk.
  destruct (for_ok_each _ _ _ _ Hvs k Hk) as (s' & r' & Hr).
  destruct (bounds k) as [b|e]; [by eexists|discriminate Hr].
Qed.

(** The first key whose rule raises decides the exception of
    [Constraint]; when every failing rule raises the same one, it is that
    one. *)
Lemma Constraint_raise (index : list K) (rule : K -> result pyrel) (e : exn) :
  (forall k, k ∈ index -> rule k = Raise e \/ is_Some (rule_constr rule k)) ->
  (exists k, k ∈ index /\ rule k = Raise e) ->
  Constraint_ index rule = Raise e.
Proof.
  intros Hall (k & Hk & Hr). apply for_raise_uniform.
  - intros a s Ha. destruct (Hall a Ha) as [->|[c Hc]]; [by left|].
    right. unfold rule_constr in Hc.
    destruct (rule a) as [[]|]; try done. by eexists.
  - exists k. split; [done|]. intros s. by rewrite Hr.
Qed.

End container_inversion.

(** ** Storages of fixed size: variables, failures, costs *)

Section storage_more.
Variable m : Model.

Lemma Storage_set_initial_step_inv (n : Node)
    (cap cap' : gmap (Node * nat) VarData) :
  Storage.set_initial_capacity m n cap = Ok cap' ->
  (network.initial_capacity (storage m n) = None /\ cap' = cap)
  \/ exists c0 tl v,
       network.initial_capacity (storage m n) = Some c0
       /\ last (timesteps m) = Some tl
       /\ cap !! (n, tl) = Some v
       /\ cap' = <[(n, tl) :=
                     Storage.fix_
                       (Storage.set_value
                          (c0 * network.nominal_capacity (storage m n))%Q
                          v)]> cap.
Proof.
  unfold Storage.set_initial_capacity, last_item, getitem. intros H.
  destruct (network.initial_capacity (storage m n)) as [c0|];
    [|left; split; [done|congruence]].
  right. destruct (last (timesteps m)) as [tl|]; simpl in H;
    [|discriminate H].
  destruct (cap !! (n, tl)) as [v|] eqn:Hv; simpl in H; [|discriminate H].
  rewrite lookup_insert_eq in H. simpl in H. rewrite insert_insert_eq in H.
  injection H as <-. by eexists c0, tl, v.
Qed.

(** The loop that fixes the initial capacities keeps the index, the domain
    and the bounds of every variable, and changes value and fixing only at
    the last timestep of a storage of the group with an initial capacity. *)
Lemma Storage_set_initial_inv (group : list Node) :
  forall cap0 cap1 : gmap (Node * nat) VarData,
  for_ group (Storage.set_initial_capacity m) cap0 = Ok cap1 ->
  forall k,
    match cap0 !! k with
    | None => cap1 !! k = None
    | Some v0 =>
        exists v1,
          cap1 !! k = Some v1
          /\ within v1 = within v0 /\ lb v1 = lb v0 /\ ub v1 = ub v0
          /\ ((fixed v1 = fixed v0 /\ value v1 = value v0)
              \/ (k.1 ∈ group
                  /\ is_Some (network.initial_capacity (storage m k.1))
                  /\ last (timesteps m) = Some k.2))
    end.
Proof.
  induction group as [|n0 group IH]; intros cap0 cap1 Hfor k.
  - injection Hfor as <-. destruct (cap0 !! k) as [v0|]; [|done].
    exists v0. split_and!; try done. by left.
  - cbn [for_] in Hfor.
    destruct (Storage.set_initial_capacity m n0 cap0) as [cap'|] eqn:Hstep;
      simpl in Hfor; [|discriminate Hfor].
    specialize (IH cap' cap1 Hfor k).
    apply Storage_set_initial_step_inv in Hstep
      as [[_ ->]|(c0 & tl & v & Hc0 & Hlast & Hv & ->)].
    + destruct (cap0 !! k) as [v0|]; [|done].
      destruct IH as (v1 & ? & ? & ? & ? & [?|(? & ? & ?)]).
      * exists v1. split_and!; try done. by left.
      * exists v1. split_and!; try done. right. split_and!; try done.
        by right.
    + destruct (decide (k = (n0, tl))) as [->|Hne].
      * rewrite lookup_insert_eq in IH. rewrite Hv.
        destruct IH as (v1 & ? & Hw & Hl & Hu & _).
        exists v1. split_and!; try done. right. simpl.
        split_and!; [by left|by rewrite Hc0|done].
      * rewrite lookup_insert_ne in IH by done.
        destruct (cap0 !! k) as [v0|]; [|done].
        destruct IH as (v1 & ? & ? & ? & ? & [?|(? & ? & ?)]).
        -- exists v1. split_and!; try done. by left.
        -- exists v1. split_and!; try done. right. split_and!; try done.
           by right.
Qed.

(** The loop ends normally exactly when no initial capacity has to be
    written into an empty time index. *)
Lemma Storage_set_initial_ok (group : list Node)
    (cap0 cap1 : gmap (Node * nat) VarData) :
  for_ group (Storage.set_initial_capacity m) cap0 = Ok cap1 ->
  forall n, n ∈ group ->
    is_Some (network.initial_capacity (storage m n)) ->
    is_Some (last (timesteps m)).
Proof.
  intros Hfor n Hn [c0 Hc0].
  destruct (for_ok_each _ _ _ _ Hfor n Hn) as (s' & r' & Hr).
  apply Storage_set_initial_step_inv in Hr
    as [[? _]|(? & tl & _ & _ & Hl & _)]; [congruence|by eexists].
Qed.

End storage_more.

Section storage_extras.
Variable m : Model.

(** X1: the block holds one capacity variable for every storage of the
    group and every timestep and no other; each is a real variable bounded
    by [nominal_capacity * capacity_min[t]] and
    [nominal_capacity * capacity_max[t]]; the variables that are fixed are
    exactly those at the last timestep of a storage with an initial
    capacity, and the others carry no value. *)
Theorem Storage_capacity_variables (group : list Node) (self b : Storage.t) :
  Storage._create m (Some group) self = Ok b ->
  forall n t,
    (is_Some (Storage.capacity b !! (n, t))
     <-> n ∈ group /\ t ∈ timesteps m)
    /\ forall v, Storage.capacity b !! (n, t) = Some v ->
         within v = Reals
         /\ lb v = Some (network.nominal_capacity (storage m n)
                         * network.capacity_min (storage m n) t)%Q
         /\ ub v = Some (network.nominal_capacity (storage m n)
                         * network.capacity_max (storage m n) t)%Q
         /\ (fixed v = true
             <-> is_Some (network.initial_capacity (storage m n))
                 /\ last (timesteps m) = Some t)
         /\ (fixed v = false -> value v = None).
Proof.
  intros Hb n t. unfold Storage._create in Hb. do 3 bind_inv Hb.
  injection Hb as <-. simpl.
  rename a into cap0, a0 into cap1.
  pose proof (Var_lookup _ _ _ _ (n, t) E) as Hcap0. simpl in Hcap0.
  pose proof (Storage_set_initial_inv m group cap0 cap1 E0 (n, t)) as Hinv.
  destruct (decide ((n, t) ∈ cprod group (timesteps m))) as [Hin|Hnin].
  - rewrite Hcap0 in Hinv.
    destruct Hinv as (v1 & Hv1 & Hw & Hl & Hu & Hfix).
    apply list_elem_of_cprod in Hin as [Hn Ht]. simpl in Hn, Ht.
    split; [split; [done|by eexists]|].
    intros v Hv. rewrite Hv1 in Hv. injection Hv as <-.
    split_and!; [done..| |].
    + split.
      * intros Hf. destruct Hfix as [[Hf' _]|(_ & ? & ?)]; [|done].
        rewrite Hf in Hf'. discriminate Hf'.
      * intros [[c0 Hc0] Hlast].
        destruct (Storage_set_initial m t group Hlast cap0)
          as (cap1' & Hfor & _ & Hset).
        { intros n' Hn'. rewrite (Var_lookup _ _ _ _ _ E).
          rewrite decide_True by (apply list_elem_of_cprod; done).
          by eexists. }
        rewrite E0 in Hfor. injection Hfor as <-.
        destruct (Hset n c0 Hn Hc0) as (v' & Hv' & Hf & _). congruence.
    + intros Hf. destruct Hfix as [[_ ->]|(Hn' & [c0 Hc0] & Hlast)]; [done|].
      destruct (Storage_set_initial m t group Hlast cap0)
        as (cap1' & Hfor & _ & Hset).
      { intros n' Hn''. rewrite (Var_lookup _ _ _ _ _ E).
        rewrite decide_True by (apply list_elem_of_cprod; done).
        by eexists. }
      rewrite E0 in Hfor. injection Hfor as <-.
      destruct (Hset n c0 Hn Hc0) as (v' & Hv' & Hf' & _). congruence.
  - rewrite Hcap0 in Hinv. rewrite Hinv. split; [|done]. split.
    + by intros [? ?].
    + intros [Hn Ht]. exfalso. apply Hnin. by apply list_elem_of_cprod.
Qed.

End storage_extras.

Lemma Storage_capacity_variables_witness :
  exists b v,
    Storage._create Scenario.m_storage (Some ["storage"]) Storage.new = Ok b
    /\ Storage.capacity b !! ("storage", 0%nat) = Some v
    /\ lb v = Some (100 * 0)%Q /\ ub v = Some (100 * 1)%Q
    /\ fixed v = false /\ value v = None.
Proof.
  destruct (Storage._create Scenario.m_storage (Some ["storage"])
                            Storage.new) as [b|e] eqn:Hb;
    [|vm_compute in Hb; discriminate Hb].
  destruct (Storage_capacity_variables
              Scenario.m_storage ["storage"] Storage.new b Hb "storage" 0%nat)
    as [Hdom Hv].
  destruct (proj2 Hdom) as [v Hv0]; [split; by left|].
  destruct (Hv v Hv0) as (_ & Hl & Hu & Hfix & Hval).
  assert (fixed v = false) as Hf.
  { destruct (fixed v) eqn:Hf; [|done].
    destruct (proj1 Hfix eq_refl) as [_ Hlast]. discriminate Hlast. }
  exists b, v. split_and!; [done..|].
  by apply Hval.
Defined.

Section storage_failures.
Variable m : Model.

Lemma Storage_balance_rule_inv (n : Node) (t : nat) :
  is_Some (rule_constr (Storage._storage_balance_rule m) (n, t)) ->
  is_Some (INPUTS m !! n) /\ is_Some (OUTPUTS m !! n)
  /\ ~ (network.outflow_conversion_factor (storage m n) t == 0)%Q.
Proof.
  unfold rule_constr, Storage._storage_balance_rule, getitem, py_div.
  intros [c Hc].
  destruct (INPUTS m !! n) as [i|]; simpl in Hc; [|discriminate Hc].
  destruct (OUTPUTS m !! n) as [o|]; simpl in Hc; [|discriminate Hc].
  destruct (Qeq_bool _ 0) eqn:E; simpl in Hc; [discriminate Hc|].
  split_and!; [by eexists..|]. intros Hz%Qeq_bool_iff. congruence.
Qed.

(** With an input and an output, the balance rule either answers a
    constraint or raises [ZeroDivisionError]. *)
Lemma Storage_balance_rule_cases (n i o : Node) (t : nat) :
  INPUTS m !! n = Some i -> OUTPUTS m !! n = Some o ->
  (network.outflow_conversion_factor (storage m n) t == 0)%Q
  /\ Storage._storage_balance_rule m (n, t) = Raise ZeroDivisionError
  \/ ~ (network.outflow_conversion_factor (storage m n) t == 0)%Q
     /\ is_Some (rule_constr (Storage._storage_balance_rule m) (n, t)).
Proof.
  intros Hi Ho.
  destruct (Qeq_bool (network.outflow_conversion_factor (storage m n) t) 0)
    eqn:E.
  - left. split; [by apply Qeq_bool_iff|].
    unfold Storage._storage_balance_rule, getitem, py_div.
    rewrite Hi, Ho. simpl. by rewrite E.
  - right. assert (~ (network.outflow_conversion_factor (storage m n) t
                      == 0)%Q) as Hnz.
    { intros Hz%Qeq_bool_iff. congruence. }
    split; [done|]. unfold rule_constr.
    rewrite (Storage_balance_rule_eq m n i o t) by done. by eexists.
Qed.

(** X2: [Storage._create] returns a block exactly when no initial capacity
    has to be written into an empty time index and every storage of the
    group has, at every timestep, an input, an output and a discharge
    efficiency other than zero. *)
Theorem Storage_create_ok_iff (group : list Node) (self : Storage.t) :
  is_Ok (Storage._create m (Some group) self)
  <-> ((exists n, n ∈ group
                  /\ is_Some (network.initial_capacity (storage m n))) ->
       timesteps m ≠ [])
      /\ (forall n t, n ∈ group -> t ∈ timesteps m ->
            is_Some (INPUTS m !! n) /\ is_Some (OUTPUTS m !! n)
            /\ ~ (network.outflow_conversion_factor (storage m n) t == 0)%Q).
Proof.
  split.
  - intros [b Hb]. unfold Storage._create in Hb. do 3 bind_inv Hb. split.
    + intros (n & Hn & Hinit) Hts.
      destruct (Storage_set_initial_ok m _ _ _ E0 n Hn Hinit) as [tl Hl].
      by rewrite Hts in Hl.
    + intros n t Hn Ht. apply Storage_balance_rule_inv.
      apply (Constraint_inv _ _ _ E1). by apply list_elem_of_cprod.
  - intros [Hinit Hrule]. unfold Storage._create.
    destruct (Var_total (cprod group (timesteps m)) Reals
                        (Storage._storage_capacity_bound_rule m))
      as [cap0 Hcap0].
    { intros [n t] _. by eexists. }
    rewrite Hcap0. simpl.
    assert (exists cap1,
              for_ group (Storage.set_initial_capacity m) cap0 = Ok cap1)
      as [cap1 Hcap1].
    { destruct (last (timesteps m)) as [tl|] eqn:Hlast.
      - destruct (Storage_set_initial m tl group Hlast cap0)
          as (cap1 & Hfor & _); [|by exists cap1].
        intros n Hn. rewrite (Var_lookup _ _ _ _ _ Hcap0).
        rewrite decide_True; [by eexists|].
        apply list_elem_of_cprod. split; [done|]. simpl.
        apply last_Some in Hlast as [l' ->]. apply elem_of_app. right.
        by left.
      - exists cap0. apply for_skip. intros n s Hn.
        unfold Storage.set_initial_capacity.
        destruct (network.initial_capacity (storage m n)) eqn:Hc; [|done].
        exfalso. apply Hinit; [by eexists n; split; [|eexists]|].
        by apply last_None. }
    rewrite Hcap1. simpl.
    destruct (Constraint_total (cprod group (timesteps m))
                               (Storage._storage_balance_rule m))
      as [bal Hbal].
    { intros [n t] [Hn Ht]%list_elem_of_cprod. simpl in *.
      destruct (Hrule n t Hn Ht) as ([i Hi] & [o Ho] & Hnz).
      unfold rule_constr.
      rewrite (Storage_balance_rule_eq m n i o t) by done. by eexists. }
    rewrite Hbal. by eexists.
Qed.

(** X3: the exceptions of [Storage._create].  An initial capacity over an
    empty time index raises [IndexError]; where the time index is not
    empty and every storage has an input and an output, a discharge
    efficiency of zero raises [ZeroDivisionError]. *)
Theorem Storage_create_exceptions (group : list Node) (self : Storage.t) :
  (timesteps m = [] ->
   (exists n, n ∈ group
              /\ is_Some (network.initial_capacity (storage m n))) ->
   Storage._create m (Some group) self = Raise IndexError)
  /\ (timesteps m ≠ [] ->
      (forall n, n ∈ group ->
         is_Some (INPUTS m !! n) /\ is_Some (OUTPUTS m !! n)) ->
      (exists n t, n ∈ group /\ t ∈ timesteps m
                   /\ (network.outflow_conversion_factor (storage m n) t
                       == 0)%Q) ->
      Storage._create m (Some group) self = Raise ZeroDivisionError).
Proof.
  split.
  - intros Hts (n & Hn & Hinit). unfold Storage._create.
    destruct (Var_total (cprod group (timesteps m)) Reals
                        (Storage._storage_capacity_bound_rule m))
      as [cap0 ->].
    { intros [n' t] _. by eexists. }
    simpl. rewrite (for_raise_uniform _ _ IndexError); [done| |].
    + intros a s _. unfold Storage.set_initial_capacity, last_item.
      rewrite Hts. simpl.
      destruct (network.initial_capacity (storage m a)); [by left|].
      right. by eexists.
    + exists n. split; [done|]. intros s.
      unfold Storage.set_initial_capacity, last_item. rewrite Hts.
      by destruct Hinit as [c0 ->].
  - intros Hts Hio (n & t & Hn & Ht & Hz). unfold Storage._create.
    destruct (Var_total (cprod group (timesteps m)) Reals
                        (Storage._storage_capacity_bound_rule m))
      as [cap0 Hcap0].
    { intros [n' t'] _. by eexists. }
    rewrite Hcap0. simpl.
    destruct (proj2 (last_is_Some (timesteps m)) Hts) as [tl Hlast].
    destruct (Storage_set_initial m tl group Hlast cap0)
      as (cap1 & -> & _).
    { intros n' Hn'. rewrite (Var_lookup _ _ _ _ _ Hcap0).
      rewrite decide_True; [by eexists|].
      apply list_elem_of_cprod. split; [done|]. simpl.
      apply last_Some in Hlast as [l' ->]. apply elem_of_app. right.
      by left. }
    simpl. rewrite (Constraint_raise _ _ ZeroDivisionError); [done| |].
    + intros [n' t'] [Hn' Ht']%list_elem_of_cprod. simpl in *.
      destruct (Hio n' Hn') as [[i Hi] [o Ho]].
      destruct (Storage_balance_rule_cases n' i o t' Hi Ho) as [[_ ?]|[_ ?]];
        [by left|by right].
    + exists (n, t). split; [by apply list_elem_of_cprod|].
      destruct (Hio n Hn) as [[i Hi] [o Ho]].
      destruct (Storage_balance_rule_cases n i o t Hi Ho) as [[_ ?]|[? _]];
        done.
Qed.

End storage_failures.

Lemma Storage_create_ok_iff_witness :
  is_Ok (Storage._create Scenario.m_storage (Some ["storage"]) Storage.new)
  /\ ~ is_Ok (Storage._create Scenario.m_storage_zero_efficiency
                              (Some ["storage"]) Storage.new).
Proof.
  split.
  - apply (proj2 (Storage_create_ok_iff Scenario.m_storage ["storage"]
                                        Storage.new)).
    split; [discriminate|].
    intros n t ->%list_elem_of_singleton _.
    split_and!; [by eexists..|discriminate].
  - intros Hok.
    apply (proj1 (Storage_create_ok_iff Scenario.m_storage_zero_efficiency
                                        ["storage"] Storage.new)) in Hok.
    destruct Hok as [_ Hrule].
    destruct (Hrule "storage" 0%nat) as (_ & _ & Hnz); [by left..|].
    by apply Hnz.
Defined.

Lemma Storage_create_exceptions_witness :
  Storage._create Scenario.m_storage_no_time (Some ["storage"]) Storage.new
  = Raise IndexError
  /\ Storage._create Scenario.m_storage_zero_efficiency (Some ["storage"])
                     Storage.new = Raise ZeroDivisionError.
Proof.
  split.
  - apply (proj1 (Storage_create_exceptions Scenario.m_storage_no_time
                                            ["storage"] Storage.new));
      [reflexivity|].
    exists "storage". split; [by left|by eexists].
  - apply (proj2 (Storage_create_exceptions
                    Scenario.m_storage_zero_efficiency ["storage"]
                    Storage.new)); [discriminate| |].
    + intros n ->%list_elem_of_singleton. split; by eexists.
    + exists "storage", 0%nat. split_and!; [by left..|reflexivity].
Defined.

Section storage_costs.
Variable m : Model.

(** The fixed costs of one storage, zero when it declares none. *)
Local Abbreviation storage_costs n :=
  (match network.storage_fixed_costs (storage m n) with
   | Some c => Qmult (network.nominal_capacity (storage m n)) c
   | None => 0%Q
   end).

Lemma Storage_fixed_costs_fold (ss : list Node) (a : Q) :
  exists q,
    foldl (fun acc n =>
             match network.storage_fixed_costs (storage m n) with
             | Some c =>
                 let nc := network.nominal_capacity (storage m n) in
                 py_add acc (Num (nc * c)%Q)
             | None => acc
             end) (Num a) ss = Num q
    /\ (q == a + Qsum (map (fun n => storage_costs n) ss))%Q.
Proof.
  revert a. induction ss as [|n ss IH]; intros a.
  - exists a. split; [done|]. simpl. ring.
  - cbn [foldl map Qsum foldr].
    destruct (network.storage_fixed_costs (storage m n)) as [c|].
    + destruct (IH (a + network.nominal_capacity (storage m n) * c)%Q)
        as (q & Hfold & Hq).
      exists q. split; [exact Hfold|]. rewrite Hq.
      change (Qsum ?l) with (foldr Qplus 0%Q l). ring.
    + destruct (IH a) as (q & Hfold & Hq). exists q. split; [exact Hfold|].
      rewrite Hq. change (Qsum ?l) with (foldr Qplus 0%Q l). ring.
Qed.

(** X4: the objective part of the storages is a number, the sum of
    [nominal_capacity * fixed_costs] over the storages that declare fixed
    costs; it is stored as [fixed_costs] of the block, whose other
    attributes stay.  A block that was never created answers [0] and stays
    as it is. *)
Theorem Storage_objective_fixed_costs (self : Storage.t) :
  (Storage.STORAGES self = None ->
   Storage._objective_expression m self = (self, Num 0))
  /\ (forall ss, Storage.STORAGES self = Some ss ->
        exists q,
          Storage._objective_expression m self
          = (Storage.mk (Some ss) (Storage.capacity self)
                        (Storage.balance self) (Some (Num q)), Num q)
          /\ (q == Qsum (map (fun n => storage_costs n) ss))%Q).
Proof.
  unfold Storage._objective_expression. split.
  - by intros ->.
  - intros ss ->. destruct (Storage_fixed_costs_fold ss 0) as (q & Hq & Hsum).
    exists q. cbv zeta in Hq |- *. cbv iota beta. rewrite Hq.
    split; [done|]. rewrite Hsum. ring.
Qed.

End storage_costs.

Lemma Storage_objective_fixed_costs_witness :
  exists q,
    (Storage._objective_expression Scenario.m_storage_costs
                                   Scenario.created_storages).2 = Num q
    /\ (q == 400)%Q.
Proof.
  destruct (Storage_objective_fixed_costs Scenario.m_storage_costs
                                          Scenario.created_storages)
    as [_ Hsome].
  destruct (Hsome ["s1"; "s2"] eq_refl) as (q & Hq & Hsum).
  exists q. rewrite Hq. split; [done|]. rewrite Hsum. reflexivity.
Defined.

(** ** Invested storages: couplings, balance, costs *)

Section investment_storage_more.
Variable m : Model.
Variable m_InvestmentFlow : InvestmentFlow.t.

Local Abbreviation icap n t := (V (InvestmentStorage_capacity n t)).
Local Abbreviation isize n := (V (InvestmentStorage_invest n)).

Lemma InvestmentStorage_input_rule_inv (n : Node) (c : constr) :
  rule_constr (InvestmentStorage._storage_capacity_input_invest_rule
                 m m_InvestmentFlow) n = Some c ->
  exists i,
    INPUTS m !! n = Some i
    /\ is_Some (InvestmentFlow.FLOWS m_InvestmentFlow)
    /\ is_Some (InvestmentFlow.invest m_InvestmentFlow !! (i, n))
    /\ c = Constr (V (InvestmentFlow_invest i n)) EQ
                  (Mul (isize n)
                       (Num (network.nominal_input_capacity_ratio
                               (storage m n)))).
Proof.
  unfold rule_constr, InvestmentStorage._storage_capacity_input_invest_rule,
    InvestmentStorage.InvestmentFlow_invest_ref, getitem, var_ref.
  destruct (INPUTS m !! n) as [i|]; simpl; [|done].
  destruct (InvestmentFlow.FLOWS m_InvestmentFlow); simpl; [|done].
  destruct (InvestmentFlow.invest m_InvestmentFlow !! (i, n)) eqn:E; simpl;
    [|done].
  intros [= <-]. exists i. split_and!; by eauto.
Qed.

Lemma InvestmentStorage_output_rule_inv (n : Node) (c : constr) :
  rule_constr (InvestmentStorage._storage_capacity_output_invest_rule
                 m m_InvestmentFlow) n = Some c ->
  exists o,
    OUTPUTS m !! n = Some o
    /\ is_Some (InvestmentFlow.invest m_InvestmentFlow !! (n, o))
    /\ c = Constr (V (InvestmentFlow_invest n o)) EQ
                  (Mul (isize n)
                       (Num (network.nominal_output_capacity_ratio
                               (storage m n)))).
Proof.
  unfold rule_constr, InvestmentStorage._storage_capacity_output_invest_rule,
    InvestmentStorage.InvestmentFlow_invest_ref, getitem, var_ref.
  destruct (OUTPUTS m !! n) as [o|]; simpl; [|done].
  destruct (InvestmentFlow.FLOWS m_InvestmentFlow); simpl; [|done].
  destruct (InvestmentFlow.invest m_InvestmentFlow !! (n, o)) eqn:E; simpl;
    [|done].
  intros [= <-]. exists o. split_and!; by eauto.
Qed.

Lemma InvestmentStorage_initial_rule_inv cap (n : Node) (c : constr) :
  rule_constr (InvestmentStorage._initial_capacity_invest_rule m cap) n
  = Some c ->
  exists tl c0,
    last (timesteps m) = Some tl
    /\ network.initial_capacity (storage m n) = Some c0
    /\ c = Constr (icap n tl) EQ (Mul (Num c0) (isize n)).
Proof.
  unfold rule_constr, InvestmentStorage._initial_capacity_invest_rule,
    last_item, var_ref, num_opt.
  destruct (last (timesteps m)) as [tl|]; simpl; [|done].
  destruct (cap !! (n, tl)); simpl; [|done].
  destruct (network.initial_capacity (storage m n)) as [c0|]; simpl; [|done].
  intros [= <-]. by exists tl, c0.
Qed.

(** X5: in a block that [InvestmentStorage._create] returns, every storage
    of the group has a sizing variable bounded by 0 and the maximum of its
    investment, and its size is tied to the sizes of its two edges:
    [invest_flow[i, n] == invest[n] * nominal_input_capacity_ratio] and
    [invest_flow[n, o] == invest[n] * nominal_output_capacity_ratio], both
    edges having a sizing variable in the investment-flow block.  A storage
    with an initial capacity gets
    [capacity[n, last] == initial_capacity * invest[n]], a storage without
    gets no such constraint. *)
Theorem InvestmentStorage_couplings (group : list Node)
    (self b : InvestmentStorage.t) :
  InvestmentStorage._create m m_InvestmentFlow (Some group) self = Ok b ->
  forall n, n ∈ group ->
    InvestmentStorage.invest b !! n
    = Some (mkVar NonNegativeReals (Some 0%Q)
                  (options.maximum
                     (network.storage_investment (storage m n)))
                  None false)
    /\ (exists i o,
          INPUTS m !! n = Some i /\ OUTPUTS m !! n = Some o
          /\ is_Some (InvestmentFlow.invest m_InvestmentFlow !! (i, n))
          /\ is_Some (InvestmentFlow.invest m_InvestmentFlow !! (n, o))
          /\ InvestmentStorage.storage_capacity_input_invest b !! n
             = Some (Constr (V (InvestmentFlow_invest i n)) EQ
                            (Mul (isize n)
                                 (Num (network.nominal_input_capacity_ratio
                                         (storage m n)))))
          /\ InvestmentStorage.storage_capacity_output_invest b !! n
             = Some (Constr (V (InvestmentFlow_invest n o)) EQ
                            (Mul (isize n)
                                 (Num (network.nominal_output_capacity_ratio
                                         (storage m n))))))
    /\ match network.initial_capacity (storage m n) with
       | Some c0 =>
           exists tl,
             last (timesteps m) = Some tl
             /\ InvestmentStorage.initial_capacity_invest b !! n
                = Some (Constr (icap n tl) EQ (Mul (Num c0) (isize n)))
       | None => InvestmentStorage.initial_capacity_invest b !! n = None
       end.
Proof.
  intros Hb n Hn. unfold InvestmentStorage._create in Hb.
  do 8 bind_inv Hb. injection Hb as <-. simpl. split_and!.
  - rewrite (Var_lookup _ _ _ _ _ E0). by rewrite decide_True.
  - destruct (Constraint_inv _ _ _ E3 n Hn) as [ci Hci].
    destruct (Constraint_inv _ _ _ E4 n Hn) as [co Hco].
    pose proof (Constraint_lookup _ _ _ n E3) as Hli.
    pose proof (Constraint_lookup _ _ _ n E4) as Hlo.
    rewrite decide_True in Hli, Hlo by done. rewrite Hci in Hli.
    rewrite Hco in Hlo.
    apply InvestmentStorage_input_rule_inv in Hci
      as (i & Hi & _ & Hvi & ->).
    apply InvestmentStorage_output_rule_inv in Hco as (o & Ho & Hvo & ->).
    by exists i, o.
  - pose proof (Constraint_lookup _ _ _ n E2) as Hl.
    destruct (network.initial_capacity (storage m n)) as [c0|] eqn:Hc0.
    + assert (n ∈ filter (fun n => is_Some (network.initial_capacity
                                              (storage m n))) group) as Hin.
      { apply list_elem_of_filter. split; [by rewrite Hc0|done]. }
      rewrite decide_True in Hl by done.
      destruct (Constraint_inv _ _ _ E2 n Hin) as [c Hc]. rewrite Hc in Hl.
      apply InvestmentStorage_initial_rule_inv in Hc
        as (tl & c0' & Hlast & Hc0' & ->).
      exists tl. split; [done|]. congruence.
    + rewrite decide_False in Hl; [done|].
      intros [[? Hs] _]%list_elem_of_filter. congruence.
Qed.

End investment_storage_more.

Lemma InvestmentStorage_couplings_witness :
  exists b,
    InvestmentStorage._create Scenario.m_invest Scenario.invest_flows
                              (Some ["storage"]) InvestmentStorage.new = Ok b
    /\ InvestmentStorage.initial_capacity_invest b !! "storage"
       = Some (Constr (V (InvestmentStorage_capacity "storage" 1)) EQ
                      (Mul (Num (1 # 2))
                           (V (InvestmentStorage_invest "storage")))).
Proof.
  destruct (InvestmentStorage._create
              Scenario.m_invest Scenario.invest_flows (Some ["storage"])
              InvestmentStorage.new) as [b|e] eqn:Hb;
    [|vm_compute in Hb; discriminate Hb].
  destruct (InvestmentStorage_couplings
              Scenario.m_invest Scenario.invest_flows ["storage"]
              InvestmentStorage.new b Hb "storage") as (_ & _ & Hinit);
    [by left|].
  exists b. split; [done|].
  change (network.initial_capacity (storage Scenario.m_invest "storage"))
    with (Some (1 # 2)%Q) in Hinit.
  destruct Hinit as (tl & Hlast & Hc). injection Hlast as <-. exact Hc.
Defined.

(** ** Investment costs in the objective *)

Lemma Qsum_plus {A} (f g : A -> Q) (l : list A) :
  (Qsum (map (fun a => f a + g a) l) == Qsum (map f l) + Qsum (map g l))%Q.
Proof.
  unfold Qsum. induction l as [|a l IH]; simpl; [ring|]. rewrite IH. ring.
Qed.

Lemma Qsum_ext {A} (f g : A -> Q) (l : list A) :
  (forall a, a ∈ l -> (f a == g a)%Q) ->
  (Qsum (map f l) == Qsum (map g l))%Q.
Proof.
  unfold Qsum. induction l as [|a l IH]; intros Hfg; simpl; [reflexivity|].
  rewrite IH by (intros; apply Hfg; by right). rewrite (Hfg a) by left.
  reflexivity.
Qed.

Section investment_costs.
Variable m : Model.

Local Abbreviation storage_ep n :=
  (default 0%Q (options.ep_costs (network.storage_investment (storage m n)))).
Local Abbreviation storage_fc n :=
  (default 0%Q (network.storage_fixed_costs (storage m n))).

Lemma InvestmentStorage_objective_loop (env : var -> Q) (ss : list Node) :
  forall acc r,
  for_ ss (InvestmentStorage.objective_step m) acc = Ok r ->
  (eval env r.1
   == eval env acc.1
      + Qsum (map (fun n => env (InvestmentStorage_invest n) * storage_ep n)
                  ss))%Q
  /\ (eval env r.2
      == eval env acc.2
         + Qsum (map (fun n => env (InvestmentStorage_invest n)
                               * storage_fc n) ss))%Q.
Proof.
  induction ss as [|n ss IH]; intros acc r Hr.
  - injection Hr as <-. simpl. split; ring.
  - cbn [for_] in Hr.
    destruct (InvestmentStorage.objective_step m n acc) as [acc'|] eqn:Hs;
      simpl in Hr; [|discriminate Hr].
    destruct (IH acc' r Hr) as [H1 H2]. rewrite H1, H2.
    unfold InvestmentStorage.objective_step in Hs.
    cbn [map]. unfold Qsum. cbn [foldr].
    destruct (options.ep_costs (network.storage_investment (storage m n)))
      as [c|]; [|discriminate Hs].
    injection Hs as <-. cbn [fst snd]. rewrite eval_py_add.
    destruct (network.storage_fixed_costs (storage m n)) as [fc|];
      [rewrite eval_py_add|]; simpl; split; ring.
Qed.

Lemma InvestmentStorage_objective_total (ss : list Node) acc :
  (forall n, n ∈ ss ->
     is_Some (options.ep_costs (network.storage_investment (storage m n)))) ->
  is_Ok (for_ ss (InvestmentStorage.objective_step m) acc).
Proof.
  revert acc. induction ss as [|n ss IH]; intros acc Hep; [by eexists|].
  cbn [for_]. destruct (Hep n) as [c Hc]; [by left|].
  assert (is_Ok (InvestmentStorage.objective_step m n acc)) as [acc' ->].
  { unfold InvestmentStorage.objective_step. rewrite Hc. by eexists. }
  simpl. apply IH. intros; apply Hep. by right.
Qed.

(** X6: for a created block of invested storages the objective part is
    built exactly when every storage has [ep_costs]; it then amounts to
    the sum over the storages of [invest[n] * ep_costs] plus
    [invest[n] * fixed_costs], and both partial sums are stored in the
    block. *)
Theorem InvestmentStorage_objective_value (self : InvestmentStorage.t)
    (ss : list Node) :
  InvestmentStorage.INVESTSTORAGES self = Some ss ->
  (is_Ok (InvestmentStorage._objective_expression m self)
   <-> forall n, n ∈ ss ->
         is_Some (options.ep_costs
                    (network.storage_investment (storage m n))))
  /\ forall b e,
       InvestmentStorage._objective_expression m self = Ok (b, e) ->
       (exists ic fc,
          InvestmentStorage.investment_costs b = Some ic
          /\ InvestmentStorage.fixed_costs b = Some fc
          /\ e = py_add fc ic)
       /\ InvestmentStorage.invest b = InvestmentStorage.invest self
       /\ forall env,
            (eval env e
             == Qsum (map (fun n => env (InvestmentStorage_invest n)
                                    * (storage_ep n + storage_fc n)) ss))%Q.
Proof.
  intros Hss. unfold InvestmentStorage._objective_expression. rewrite Hss.
  split.
  - split.
    + intros [r Hr] n Hn.
      destruct (options.ep_costs (network.storage_investment (storage m n)))
        eqn:Hep; [by eexists|].
      rewrite (InvestmentStorage_objective_raises m ss) in Hr;
        [discriminate Hr|by exists n].
    + intros Hep.
      destruct (InvestmentStorage_objective_total ss (Num 0, Num 0) Hep)
        as [[r1 r2] ->]. by eexists.
  - intros b e Hb. cbv zeta in Hb. bind_inv Hb. destruct a as [ic fc].
    injection Hb as <- <-. simpl. split_and!; [by eexists _, _|done|].
    intros env.
    destruct (InvestmentStorage_objective_loop env ss _ _ E) as [H1 H2].
    simpl in H1, H2. rewrite eval_py_add, H1, H2.
    rewrite (Qsum_ext (fun n => env (InvestmentStorage_invest n)
                                * (storage_ep n + storage_fc n))%Q
                      (fun n => env (InvestmentStorage_invest n)
                                * storage_ep n
                                + env (InvestmentStorage_invest n)
                                  * storage_fc n)%Q)
      by (intros; ring).
    rewrite (Qsum_plus (fun n => env (InvestmentStorage_invest n)
                                 * storage_ep n)%Q
                       (fun n => env (InvestmentStorage_invest n)
                                 * storage_fc n)%Q).
    ring.
Qed.

End investment_costs.

Lemma InvestmentStorage_objective_value_witness :
  exists b e,
    InvestmentStorage._objective_expression Scenario.m_invest
                                            Scenario.invest_storages
    = Ok (b, e)
    /\ forall env,
         (eval env e
          == env (InvestmentStorage_invest "storage") * (7 + 0) + 0)%Q.
Proof.
  destruct (InvestmentStorage_objective_value
              Scenario.m_invest Scenario.invest_storages ["storage"]
              eq_refl) as [Hok Hval].
  destruct (proj2 Hok) as [[b e] Hbe].
  { intros n ->%list_elem_of_singleton. by eexists. }
  exists b, e. split; [exact Hbe|]. intros env.
  destruct (Hval b e Hbe) as (_ & _ & Hev). rewrite Hev. reflexivity.
Defined.

(** ** Invested flows *)

Section investment_flow.
Variable m : Model.

Local Abbreviation fsize i o := (V (InvestmentFlow_invest i o)).

(** X7: in a block that [InvestmentFlow._create] returns, every edge of the
    group is an edge of [m.flows] and has a sizing variable bounded by 0 and
    the maximum of its investment.  At every timestep a fixed edge gets
    [flow == invest * actual_value[t]], an edge whose [max] has a length
    other than 0 gets [flow <= max[t] * invest], and an edge whose [min] has
    a length other than 0 gets [flow >= min[t] * invest].  Each family is
    there for such edges only: an edge that is not fixed gets no equality,
    and a [max] or [min] of length 0, as [sequence] makes of a scalar, gets
    no bound. *)
Theorem InvestmentFlow_constraints
    (group : list (Node * Node * network.Flow)) (self b : InvestmentFlow.t) :
  InvestmentFlow._create m (Some group) self = Ok b ->
  (forall i o f, (i, o, f) ∈ group ->
     exists mf,
       flows m !! (i, o) = Some mf
       /\ InvestmentFlow.invest b !! (i, o)
          = Some (mkVar NonNegativeReals (Some 0%Q)
                        (options.maximum (network.investment mf)) None false)
       /\ forall t, t ∈ timesteps m ->
            (network.fixed f = true ->
             InvestmentFlow.bounds b !! (i, o, t)
             = Some (Constr (V (flow i o t)) EQ
                            (Mul (fsize i o)
                                 (Num (network.actual_value mf t)))))
            /\ (seq_len (network.max f) ≠ 0%nat ->
                InvestmentFlow.max b !! (i, o, t)
                = Some (Constr (V (flow i o t)) LE
                               (Mul (Num (network.max mf t)) (fsize i o))))
            /\ (seq_len (network.min f) ≠ 0%nat ->
                InvestmentFlow.min b !! (i, o, t)
                = Some (Constr (V (flow i o t)) GE
                               (Mul (Num (network.min mf t)) (fsize i o)))))
  /\ (forall i o t,
        is_Some (InvestmentFlow.bounds b !! (i, o, t)) ->
        t ∈ timesteps m
        /\ exists f, (i, o, f) ∈ group /\ network.fixed f = true)
  /\ (forall i o t,
        is_Some (InvestmentFlow.max b !! (i, o, t)) ->
        t ∈ timesteps m
        /\ exists f, (i, o, f) ∈ group /\ seq_len (network.max f) ≠ 0%nat)
  /\ (forall i o t,
        is_Some (InvestmentFlow.min b !! (i, o, t)) ->
        t ∈ timesteps m
        /\ exists f, (i, o, f) ∈ group /\ seq_len (network.min f) ≠ 0%nat).
Proof.
  intros Hb. unfold InvestmentFlow._create in Hb. do 6 bind_inv Hb.
  injection Hb as <-. simpl. split_and!.
  - intros i o f Hg.
    assert ((i, o) ∈ map InvestmentFlow.edge group) as Hk.
    { apply elem_of_map. by exists (i, o, f). }
    destruct (Var_inv _ _ _ _ E (i, o) Hk) as [bd Hbd].
    unfold InvestmentFlow._investvar_bound_rule, getitem in Hbd.
    destruct (flows m !! (i, o)) as [mf|] eqn:Hmf; [|discriminate Hbd].
    exists mf. split; [done|]. split.
    + rewrite (Var_lookup _ _ _ _ _ E). rewrite decide_True by done.
      unfold InvestmentFlow._investvar_bound_rule, getitem. by rewrite Hmf.
    + intros t Ht. split_and!.
      * intros Hfix. rewrite (Constraint_lookup _ _ _ _ E0).
        rewrite decide_True.
        -- unfold rule_constr, InvestmentFlow._investflow_bound_rule, getitem.
           by rewrite Hmf.
        -- apply list_elem_of_cprod. split; [|done]. apply elem_of_map.
           exists (i, o, f). split; [done|]. apply list_elem_of_filter.
           split; [|done]. simpl. by rewrite Hfix.
      * intros Hlen. rewrite (Constraint_lookup _ _ _ _ E1).
        rewrite decide_True.
        -- unfold rule_constr, InvestmentFlow._max_investflow_rule, getitem.
           by rewrite Hmf.
        -- apply list_elem_of_cprod. split; [|done]. apply elem_of_map.
           exists (i, o, f). split; [done|]. by apply list_elem_of_filter.
      * intros Hlen. rewrite (Constraint_lookup _ _ _ _ E2).
        rewrite decide_True.
        -- unfold rule_constr, InvestmentFlow._min_investflow_rule, getitem.
           by rewrite Hmf.
        -- apply list_elem_of_cprod. split; [|done]. apply elem_of_map.
           exists (i, o, f). split; [done|]. by apply list_elem_of_filter.
  - intros i o t. rewrite (Constraint_lookup _ _ _ _ E0).
    case_decide as Hd; [|by intros [? ?]]. intros _.
    apply list_elem_of_cprod in Hd as [Hk Ht]. simpl in Hk, Ht.
    split; [done|].
    apply elem_of_map in Hk as ([[i' o'] f] & [= -> ->] & Hf).
    apply list_elem_of_filter in Hf as [Hfix Hg]. simpl in Hfix.
    exists f. split; [done|]. by apply Is_true_true.
  - intros i o t. rewrite (Constraint_lookup _ _ _ _ E1).
    case_decide as Hd; [|by intros [? ?]]. intros _.
    apply list_elem_of_cprod in Hd as [Hk Ht]. simpl in Hk, Ht.
    split; [done|].
    apply elem_of_map in Hk as ([[i' o'] f] & [= -> ->] & Hf).
    apply list_elem_of_filter in Hf as [Hlen Hg]. by exists f.
  - intros i o t. rewrite (Constraint_lookup _ _ _ _ E2).
    case_decide as Hd; [|by intros [? ?]]. intros _.
    apply list_elem_of_cprod in Hd as [Hk Ht]. simpl in Hk, Ht.
    split; [done|].
    apply elem_of_map in Hk as ([[i' o'] f] & [= -> ->] & Hf).
    apply list_elem_of_filter in Hf as [Hlen Hg]. by exists f.
Qed.

(** X8: an edge of the group that [m.flows] does not know makes
    [InvestmentFlow._create] raise [KeyError], before any variable or
    constraint of the block exists. *)
Theorem InvestmentFlow_unknown_edge
    (group : list (Node * Node * network.Flow)) (self : InvestmentFlow.t) :
  (exists g, g ∈ group /\ flows m !! InvestmentFlow.edge g = None) ->
  InvestmentFlow._create m (Some group) self = Raise KeyError
  /\ Var_ (map InvestmentFlow.edge group) NonNegativeReals
          (InvestmentFlow._investvar_bound_rule m) = Raise KeyError.
Proof.
  intros (g & Hg & Hnone).
  assert (Var_ (map InvestmentFlow.edge group) NonNegativeReals
               (InvestmentFlow._investvar_bound_rule m) = Raise KeyError)
    as HVar.
  { apply for_raise_uniform.
    - intros k s _. unfold InvestmentFlow._investvar_bound_rule, getitem.
      destruct (flows m !! k); simpl; [right; by eexists|by left].
    - exists (InvestmentFlow.edge g). split.
      + apply elem_of_map. by exists g.
      + intros s. unfold InvestmentFlow._investvar_bound_rule, getitem.
        by rewrite Hnone. }
  split; [|done]. unfold InvestmentFlow._create. by rewrite HVar.
Qed.

End investment_flow.

Lemma InvestmentFlow_constraints_witness :
  exists b,
    InvestmentFlow._create Scenario.m_profiled
                           (Some [("pv", "bus", Scenario.profiled_edge)])
                           InvestmentFlow.new = Ok b
    /\ InvestmentFlow.bounds b !! ("pv", "bus", 1%nat)
       = Some (Constr (V (flow "pv" "bus" 1)) EQ
                      (Mul (V (InvestmentFlow_invest "pv" "bus"))
                           (Num (3 # 10))))
    /\ InvestmentFlow.max b !! ("pv", "bus", 1%nat)
       = Some (Constr (V (flow "pv" "bus" 1)) LE
                      (Mul (Num 1) (V (InvestmentFlow_invest "pv" "bus"))))
    /\ InvestmentFlow.min b !! ("pv", "bus", 1%nat) = None.
Proof.
  destruct (InvestmentFlow._create
              Scenario.m_profiled
              (Some [("pv", "bus", Scenario.profiled_edge)])
              InvestmentFlow.new) as [b|e] eqn:Hb;
    [|vm_compute in Hb; discriminate Hb].
  destruct (InvestmentFlow_constraints
              Scenario.m_profiled [("pv", "bus", Scenario.profiled_edge)]
              InvestmentFlow.new b Hb) as (Hall & _ & _ & Hmin).
  destruct (Hall "pv" "bus" Scenario.profiled_edge) as (mf & Hmf & _ & Ht);
    [by left|].
  injection Hmf as <-.
  destruct (Ht 1%nat) as (Hfix & Hmax & _); [by right; left|].
  exists b. split_and!; [done|by apply Hfix|by apply Hmax|].
  destruct (InvestmentFlow.min b !! ("pv", "bus", 1%nat)) as [c|] eqn:Hc;
    [|done].
  destruct (Hmin "pv" "bus" 1%nat (ex_intro _ c Hc))
    as (_ & f & Hf & Hlen).
  apply list_elem_of_singleton in Hf. injection Hf as ->. by destruct Hlen.
Defined.

Lemma InvestmentFlow_unknown_edge_witness :
  InvestmentFlow._create Scenario.m_profiled
                         (Some [("pv", "bus", Scenario.profiled_edge);
                                ("wind", "bus", Scenario.profiled_edge)])
                         InvestmentFlow.new = Raise KeyError.
Proof.
  apply (InvestmentFlow_unknown_edge Scenario.m_profiled).
  exists ("wind", "bus", Scenario.profiled_edge).
  split; [by right; left|reflexivity].
Defined.

Section investment_flow_costs.
Variable m : Model.

Local Abbreviation flow_ep k :=
  (default 0%Q (flows m !! k
                ≫= fun f => options.ep_costs (network.investment f))).
Local Abbreviation flow_fc k :=
  (default 0%Q (flows m !! k ≫= network.fixed_costs)).

Lemma InvestmentFlow_objective_loop (env : var -> Q) (fl : list Edge) :
  forall acc r,
  for_ fl (InvestmentFlow.objective_step m) acc = Ok r ->
  (eval env r.1
   == eval env acc.1
      + Qsum (map (fun k => env (InvestmentFlow_invest k.1 k.2) * flow_fc k)
                  fl))%Q
  /\ (eval env r.2
      == eval env acc.2
         + Qsum (map (fun k => env (InvestmentFlow_invest k.1 k.2)
                               * flow_ep k) fl))%Q.
Proof.
  induction fl as [|k fl IH]; intros acc r Hr.
  - injection Hr as <-. simpl. split; ring.
  - cbn [for_] in Hr.
    destruct (InvestmentFlow.objective_step m k acc) as [acc'|] eqn:Hs;
      simpl in Hr; [|discriminate Hr].
    destruct (IH acc' r Hr) as [H1 H2]. rewrite H1, H2.
    unfold InvestmentFlow.objective_step, getitem in Hs.
    cbn [map]. unfold Qsum. cbn [foldr].
    destruct (flows m !! k) as [f|]; simpl in Hs; [|discriminate Hs].
    simpl.
    destruct (options.ep_costs (network.investment f)) as [c|];
      [|discriminate Hs].
    injection Hs as <-. cbn [fst snd]. rewrite eval_py_add.
    destruct (network.fixed_costs f) as [fc|];
      [rewrite eval_py_add|]; simpl; split; ring.
Qed.

Lemma InvestmentFlow_objective_total (fl : list Edge) acc :
  (forall k, k ∈ fl ->
     exists f, flows m !! k = Some f
               /\ is_Some (options.ep_costs (network.investment f))) ->
  is_Ok (for_ fl (InvestmentFlow.objective_step m) acc).
Proof.
  revert acc. induction fl as [|k fl IH]; intros acc Hep; [by eexists|].
  cbn [for_]. destruct (Hep k) as (f & Hf & [c Hc]); [by left|].
  assert (is_Ok (InvestmentFlow.objective_step m k acc)) as [acc' ->].
  { unfold InvestmentFlow.objective_step, getitem. rewrite Hf. simpl.
    rewrite Hc. by eexists. }
  simpl. apply IH. intros; apply Hep. by right.
Qed.

(** X9: for a created block of invested flows whose edges are edges of
    [m.flows], the objective part is built exactly when every edge has
    [ep_costs]; it then amounts to the sum over the edges of
    [invest[i, o] * fixed_costs] plus [invest[i, o] * ep_costs], the
    variable costs of the block being the number 0. *)
Theorem InvestmentFlow_objective_value (self : InvestmentFlow.t)
    (fl : list Edge) :
  InvestmentFlow.FLOWS self = Some fl ->
  (forall k, k ∈ fl -> is_Some (flows m !! k)) ->
  (is_Ok (InvestmentFlow._objective_expression m self)
   <-> forall k f, k ∈ fl -> flows m !! k = Some f ->
         is_Some (options.ep_costs (network.investment f)))
  /\ forall b e,
       InvestmentFlow._objective_expression m self = Ok (b, e) ->
       InvestmentFlow.variable_costs b = Some (Num 0)
       /\ InvestmentFlow.invest b = InvestmentFlow.invest self
       /\ forall env,
            (eval env e
             == Qsum (map (fun k => env (InvestmentFlow_invest k.1 k.2)
                                    * (flow_fc k + flow_ep k)) fl))%Q.
Proof.
  intros Hfl Hknown. unfold InvestmentFlow._objective_expression.
  rewrite Hfl. split.
  - split.
    + intros [r Hr] k f Hk Hf.
      destruct (options.ep_costs (network.investment f)) eqn:Hep;
        [by eexists|].
      rewrite (InvestmentFlow_objective_raises m fl) in Hr;
        [discriminate Hr|done|by exists k, f].
    + intros Hep.
      destruct (InvestmentFlow_objective_total fl (Num 0, Num 0))
        as [[r1 r2] ->]; [|by eexists].
      intros k Hk. destruct (Hknown k Hk) as [f Hf]. exists f.
      split; [done|by eapply Hep].
  - intros b e Hb. cbv zeta in Hb. bind_inv Hb. destruct a as [fc ic].
    injection Hb as <- <-. simpl. split_and!; [done..|].
    intros env.
    destruct (InvestmentFlow_objective_loop env fl _ _ E) as [H1 H2].
    simpl in H1, H2. rewrite !eval_py_add, H1, H2.
    rewrite (Qsum_ext (fun k => env (InvestmentFlow_invest k.1 k.2)
                                * (flow_fc k + flow_ep k))%Q
                      (fun k => env (InvestmentFlow_invest k.1 k.2)
                                * flow_fc k
                                + env (InvestmentFlow_invest k.1 k.2)
                                  * flow_ep k)%Q)
      by (intros; ring).
    rewrite (Qsum_plus (fun k => env (InvestmentFlow_invest k.1 k.2)
                                 * flow_fc k)%Q
                       (fun k => env (InvestmentFlow_invest k.1 k.2)
                                 * flow_ep k)%Q).
    simpl. ring.
Qed.

End investment_flow_costs.

Lemma InvestmentFlow_objective_value_witness :
  exists b e,
    InvestmentFlow._objective_expression Scenario.m_profiled
                                         Scenario.profiled_flows = Ok (b, e)
    /\ forall env,
         (eval env e
          == env (InvestmentFlow_invest "pv" "bus") * (4 + 3) + 0)%Q.
Proof.
  destruct (InvestmentFlow_objective_value
              Scenario.m_profiled Scenario.profiled_flows [("pv", "bus")]
              eq_refl) as [Hok Hval].
  { intros k ->%list_elem_of_singleton. by eexists. }
  destruct (proj2 Hok) as [[b e] Hbe].
  { intros k f ->%list_elem_of_singleton [= <-]. by eexists. }
  exists b, e. split; [exact Hbe|]. intros env.
  destruct (Hval b e Hbe) as (_ & _ & Hev). rewrite Hev. reflexivity.
Defined.

(** ** Flows: ramp-up and horizon sums *)

Section flow_more.
Variable m : Model.

Lemma positive_gradient_body (p : Edge * nat)
    (cs : gmap (Edge * nat) constr) :
  (if decide (0 < p.2)%nat then
     let lhs := py_sub (V (flow p.1.1 p.1.2 p.2))
                       (V (flow p.1.1 p.1.2 (p.2 - 1))) in
     let rhs := V (positive_flow_gradient p.1.1 p.1.2 p.2) in
     Constraint_add (p.1.1, p.1.2, p.2) (py_cmp LE lhs rhs) cs
   else Ok cs)
  = v ← Ok (if decide (0 < p.2)%nat
            then Some ((p.1.1, p.1.2, p.2),
                       Constr (Sub (V (flow p.1.1 p.1.2 p.2))
                                   (V (flow p.1.1 p.1.2 (p.2 - 1))))
                              LE (V (positive_flow_gradient p.1.1 p.1.2 p.2)))
            else None);
    Ok (match v with
        | Some (k, c) => <[k := c]> cs
        | None => cs
        end).
Proof. by case_decide. Qed.

Lemma positive_gradient_rule_flat (POS : list Edge)
    (cs : gmap (Edge * nat) constr) :
  Flow._positive_gradient_flow_rule m POS cs
  = for_ (cprod POS (timesteps m))
         (fun p cs =>
            if decide (0 < p.2)%nat then
              let lhs := py_sub (V (flow p.1.1 p.1.2 p.2))
                                (V (flow p.1.1 p.1.2 (p.2 - 1))) in
              let rhs := V (positive_flow_gradient p.1.1 p.1.2 p.2) in
              Constraint_add (p.1.1, p.1.2, p.2) (py_cmp LE lhs rhs) cs
            else Ok cs)
         cs.
Proof.
  unfold Flow._positive_gradient_flow_rule.
  set (body := fun (e : Edge) (t : nat) (cs : gmap (Edge * nat) constr) =>
                 if decide (0 < t)%nat then
                   let lhs := py_sub (V (flow e.1 e.2 t))
                                     (V (flow e.1 e.2 (t - 1))) in
                   let rhs := V (positive_flow_gradient e.1 e.2 t) in
                   Constraint_add (e.1, e.2, t) (py_cmp LE lhs rhs) cs
                 else Ok cs).
  rewrite (for_ext POS _ (fun e => for_ (timesteps m) (body e)))
    by (by intros [inp out] s _).
  exact (for_nested POS (timesteps m) body cs).
Qed.

(** X10: in a block that [Flow._create] returns, an edge whose positive
    gradient is set gets, at every timestep after the first,
    [flow[t] - flow[t-1] <= positive_flow_gradient[t]] with its own flow
    and its own gradient variable; timestep 0 and edges without a positive
    gradient get no such constraint. *)
Theorem Flow_positive_gradient
    (group : list (Node * Node * network.Flow)) (self b : Flow.t)
    (gb gb' : Flow.GradientBounds) :
  Flow._create m (Some group) self gb = Ok (b, gb') ->
  (forall i o,
     (i, o) ∈ Flow.POSITIVE_GRADIENT_FLOWS b
     <-> exists f, (i, o, f) ∈ group
                   /\ is_Some (network.positive_gradient f 0%nat))
  /\ forall i o t,
       Flow.positive_gradient_constr b !! (i, o, t)
       = if decide ((i, o) ∈ Flow.POSITIVE_GRADIENT_FLOWS b
                    /\ t ∈ timesteps m /\ (0 < t)%nat)
         then Some (Constr (Sub (V (flow i o t)) (V (flow i o (t - 1))))
                           LE (V (positive_flow_gradient i o t)))
         else None.
Proof.
  intros Hb. unfold Flow._create in Hb. bind_inv Hb.
  destruct a as [gb1 loc]. do 4 bind_inv Hb. injection Hb as <- <-. simpl.
  rewrite positive_gradient_rule_flat in E2.
  set (POS := map Flow.edge
                  (filter (fun g => is_Some (network.positive_gradient
                                               g.2 0%nat)) group)) in *.
  split.
  - intros i o. unfold POS. rewrite elem_of_map. split.
    + intros ([[i' o'] f] & [= -> ->] & [Hs Hg]%list_elem_of_filter).
      by exists f.
    + intros (f & Hg & Hs). exists (i, o, f). split; [done|].
      by apply list_elem_of_filter.
  - intros i o t. case_decide as Hd.
    + destruct Hd as (Hf & Ht & Hpos).
      eapply (emit_found _ _ positive_gradient_body _ _ _ ((i, o), t));
        [exact E2| | |].
      * by apply list_elem_of_cprod.
      * simpl. by rewrite decide_True.
      * intros [[i' o'] t'] c' _. simpl. case_decide; [|done].
        by intros [= -> -> -> <-].
    + rewrite (emit_keep _ _ positive_gradient_body _ _ _ _ E2);
        [apply lookup_empty|].
      intros [[i' o'] t'] c [He Ht]%list_elem_of_cprod. simpl in *.
      case_decide; [|done]. intros [= -> -> -> _]. by apply Hd.
Qed.

End flow_more.

Lemma Flow_positive_gradient_witness :
  exists b gb,
    Flow._create Scenario.m_limited
                 (Some [("plant", "bus", Scenario.limited_edge)])
                 Flow.new Scenario.no_bounds = Ok (b, gb)
    /\ Flow.positive_gradient_constr b !! ("plant", "bus", 2%nat)
       = Some (Constr (Sub (V (flow "plant" "bus" 2))
                           (V (flow "plant" "bus" 1)))
                      LE (V (positive_flow_gradient "plant" "bus" 2)))
    /\ Flow.positive_gradient_constr b !! ("plant", "bus", 0%nat) = None.
Proof.
  destruct (Flow._create Scenario.m_limited
                         (Some [("plant", "bus", Scenario.limited_edge)])
                         Flow.new Scenario.no_bounds) as [[b gb]|e] eqn:Hb;
    [|vm_compute in Hb; discriminate Hb].
  destruct (Flow_positive_gradient
              Scenario.m_limited [("plant", "bus", Scenario.limited_edge)]
              Flow.new b Scenario.no_bounds gb Hb) as [HPOS Hpos].
  exists b, gb. split_and!; [done| |].
  - rewrite Hpos. rewrite decide_True; [done|].
    split_and!; [|by right; right; left|lia]. apply HPOS.
    exists Scenario.limited_edge. split; [by left|by eexists].
  - rewrite Hpos. apply decide_False. intros (_ & _ & Hlt). lia.
Defined.

Section flow_sums.
Variable m : Model.

Lemma summed_rule_inv (bound : network.Flow -> option Q) (op : relop)
    (k : Edge) (c : constr) :
  (rhs ← Flow.summed_rhs m bound k;
   as_constr (py_cmp op (Flow.summed_flow m k.1 k.2) rhs)) = Ok c ->
  exists mf s nv,
    flows m !! k = Some mf /\ bound mf = Some s
    /\ network.nominal_value mf = Some nv
    /\ timesteps m ≠ []
    /\ c = Constr (Flow.summed_flow m k.1 k.2) op (Num (s * nv)%Q).
Proof.
  unfold Flow.summed_rhs, getitem, mul_opt.
  destruct (flows m !! k) as [mf|]; simpl; [|done].
  destruct (bound mf) as [s|] eqn:Hs; simpl; [|done].
  destruct (network.nominal_value mf) as [nv|] eqn:Hnv; simpl; [|done].
  intros Hc. exists mf, s, nv. split_and!; try done.
  - intros Hts. unfold Flow.summed_flow in Hc. rewrite Hts in Hc.
    discriminate Hc.
  - destruct (timesteps m) as [|t0 ts] eqn:Hts.
    + unfold Flow.summed_flow in Hc. rewrite Hts in Hc. discriminate Hc.
    + rewrite py_cmp_Add_l in Hc; [by injection Hc as <-|].
      unfold Flow.summed_flow. rewrite Hts.
      by apply (py_sum_products _ (fun t => flow k.1 k.2 t)).
Qed.

Lemma summed_max_rule_fill (l : list Edge) (cs : gmap Edge constr) :
  Flow._flow_summed_max_rule m l cs
  = for_ l (fun k sm =>
              v ← (rhs ← Flow.summed_rhs m network.summed_max k;
                   as_constr (py_cmp LE (Flow.summed_flow m k.1 k.2) rhs));
              Ok (<[k := v]> sm)) cs.
Proof.
  apply for_ext. intros [inp out] sm _. simpl.
  destruct (Flow.summed_rhs m network.summed_max (inp, out)); simpl; [|done].
  apply Constraint_add_eq.
Qed.

Lemma summed_min_rule_fill (l : list Edge) (cs : gmap Edge constr) :
  Flow._flow_summed_min_rule m l cs
  = for_ l (fun k sm =>
              v ← (rhs ← Flow.summed_rhs m network.summed_min k;
                   as_constr (py_cmp GE (Flow.summed_flow m k.1 k.2) rhs));
              Ok (<[k := v]> sm)) cs.
Proof.
  apply for_ext. intros [inp out] sm _. simpl.
  destruct (Flow.summed_rhs m network.summed_min (inp, out)); simpl; [|done].
  apply Constraint_add_eq.
Qed.

(** X11: in a block that [Flow._create] returns, an edge in
    [SUMMED_MAX_FLOWS] carries
    [sum(flow[t] * dt) <= summed_max * nominal_value] and an edge in
    [SUMMED_MIN_FLOWS] the same with [>=] and [summed_min]; both factors
    are those of the edge in [m.flows], the sum runs over a time index
    that is not empty, and edges outside the two sets carry no such
    constraint. *)
Theorem Flow_summed_limits
    (group : list (Node * Node * network.Flow)) (self b : Flow.t)
    (gb gb' : Flow.GradientBounds) :
  Flow._create m (Some group) self gb = Ok (b, gb') ->
  forall i o,
    (forall env,
       (eval env (Flow.summed_flow m i o)
        == Qsum (map (fun t => env (flow i o t) * timeincrement m)
                     (timesteps m)))%Q)
    /\ (if decide ((i, o) ∈ Flow.SUMMED_MAX_FLOWS b)
        then exists mf s nv,
               flows m !! (i, o) = Some mf
               /\ network.summed_max mf = Some s
               /\ network.nominal_value mf = Some nv
               /\ timesteps m ≠ []
               /\ Flow.summed_max b !! (i, o)
                  = Some (Constr (Flow.summed_flow m i o) LE
                                 (Num (s * nv)%Q))
        else Flow.summed_max b !! (i, o) = None)
    /\ (if decide ((i, o) ∈ Flow.SUMMED_MIN_FLOWS b)
        then exists mf s nv,
               flows m !! (i, o) = Some mf
               /\ network.summed_min mf = Some s
               /\ network.nominal_value mf = Some nv
               /\ timesteps m ≠ []
               /\ Flow.summed_min b !! (i, o)
                  = Some (Constr (Flow.summed_flow m i o) GE
                                 (Num (s * nv)%Q))
        else Flow.summed_min b !! (i, o) = None).
Proof.
  intros Hb i o. unfold Flow._create in Hb. bind_inv Hb.
  destruct a as [gb1 loc]. do 4 bind_inv Hb. injection Hb as <- <-. simpl.
  split_and!.
  - intros env. unfold Flow.summed_flow. by rewrite eval_py_sum, map_map.
  - rewrite summed_max_rule_fill in E0.
    pose proof (fill_lookup _ _ (fun k s => eq_refl) _ _ (i, o) E0) as Hl.
    case_decide as Hd; [|done].
    destruct (for_ok_each _ _ _ _ E0 (i, o) Hd) as (s' & r' & Hr).
    destruct (rhs ← Flow.summed_rhs m network.summed_max (i, o);
              as_constr (py_cmp LE (Flow.summed_flow m (i, o).1 (i, o).2) rhs))
      as [c|] eqn:Hc; [|discriminate Hr].
    apply summed_rule_inv in Hc as (mf & s & nv & ? & ? & ? & ? & ->).
    by exists mf, s, nv.
  - rewrite summed_min_rule_fill in E1.
    pose proof (fill_lookup _ _ (fun k s => eq_refl) _ _ (i, o) E1) as Hl.
    case_decide as Hd; [|done].
    destruct (for_ok_each _ _ _ _ E1 (i, o) Hd) as (s' & r' & Hr).
    destruct (rhs ← Flow.summed_rhs m network.summed_min (i, o);
              as_constr (py_cmp GE (Flow.summed_flow m (i, o).1 (i, o).2) rhs))
      as [c|] eqn:Hc; [|discriminate Hr].
    apply summed_rule_inv in Hc as (mf & s & nv & ? & ? & ? & ? & ->).
    by exists mf, s, nv.
Qed.

End flow_sums.

Lemma Flow_summed_limits_witness :
  exists b gb,
    Flow._create Scenario.m_limited
                 (Some [("plant", "bus", Scenario.limited_edge)])
                 Flow.new Scenario.no_bounds = Ok (b, gb)
    /\ Flow.summed_max b !! ("plant", "bus")
       = Some (Constr (Flow.summed_flow Scenario.m_limited "plant" "bus") LE
                      (Num (4 * 10)%Q))
    /\ Flow.summed_min b !! ("plant", "bus") = None.
Proof.
  destruct (Flow._create Scenario.m_limited
                         (Some [("plant", "bus", Scenario.limited_edge)])
                         Flow.new Scenario.no_bounds) as [[b gb]|e] eqn:Hb;
    [|vm_compute in Hb; discriminate Hb].
  destruct (Flow_summed_limits
              Scenario.m_limited [("plant", "bus", Scenario.limited_edge)]
              Flow.new b Scenario.no_bounds gb Hb "plant" "bus")
    as (_ & Hmax & Hmin).
  assert (Flow.SUMMED_MAX_FLOWS b = [("plant", "bus")]
          /\ Flow.SUMMED_MIN_FLOWS b = []) as [HM Hm].
  { vm_compute in Hb. injection Hb as <- _. by split. }
  rewrite HM in Hmax. rewrite Hm in Hmin.
  rewrite decide_True in Hmax by (by left).
  rewrite decide_False in Hmin by (by intros ?%elem_of_nil).
  destruct Hmax as (mf & s & nv & Hmf & Hs & Hnv & _ & Hc).
  injection Hmf as <-. injection Hs as <-. injection Hnv as <-.
  by exists b, gb.
Defined.

(** ** Flows: costs in the objective *)

Section flow_costs.
Variable m : Model.

(** The variable costs of an edge at a timestep and its fixed costs, as the
    objective counts them. *)
Local Abbreviation edge_variable_costs env k t :=
  (match flows m !! k with
   | Some f =>
       if decide (is_Some (network.variable_costs f 0%nat))
       then Qmult (Qmult (env (flow k.1 k.2 t%nat)) (timeincrement m))
                  (default 0%Q (network.variable_costs f t%nat))
       else 0%Q
   | None => 0%Q
   end).
Local Abbreviation edge_fixed_costs k :=
  (match flows m !! k with
   | Some f =>
       if Flow.truthy (network.fixed_costs f)
       then match network.nominal_value f with
            | Some nv => Qmult nv (default 0%Q (network.fixed_costs f))
            | None => 0%Q
            end
       else 0%Q
   | None => 0%Q
   end).

Lemma Flow_variable_costs_loop env (i o : Node) (f : network.Flow)
    (ts : list nat) :
  flows m !! (i, o) = Some f ->
  (is_Some (network.variable_costs f 0%nat) ->
   forall t, t ∈ ts -> is_Some (network.variable_costs f t)) ->
  forall acc,
  exists r,
    for_ ts (Flow.variable_costs_step m i o) acc = Ok r
    /\ (eval env r
        == eval env acc
           + Qsum (map (fun t => edge_variable_costs env (i, o) t) ts))%Q.
Proof.
  intros Hf. induction ts as [|t ts IH]; intros Hvc acc.
  - exists acc. split; [done|]. simpl. ring.
  - cbn [for_ map]. unfold Qsum. cbn [foldr]. rewrite Hf. cbn [fst snd].
    assert (exists acc',
              Flow.variable_costs_step m i o t acc = Ok acc'
              /\ (eval env acc'
                  == eval env acc
                     + (if decide (is_Some (network.variable_costs f 0%nat))
                        then env (flow i o t) * timeincrement m
                             * default 0 (network.variable_costs f t)
                        else 0))%Q) as (acc' & -> & Hacc').
    { unfold Flow.variable_costs_step, getitem. rewrite Hf. simpl.
      case_decide as Hd.
      - destruct (Hvc Hd t) as [c Hc]; [by left|]. rewrite Hc. simpl.
        eexists. split; [done|]. rewrite eval_py_add. simpl. ring.
      - exists acc. split; [done|]. ring. }
    simpl. destruct (IH (fun H t' Ht' => Hvc H t' (list_elem_of_further _ _ _ Ht'))
                        acc') as (r & -> & Hr).
    exists r. split; [done|]. rewrite Hr, Hacc'. rewrite Hf. unfold Qsum.
    simpl. ring.
Qed.

Lemma Flow_objective_loop env (FLOWS : list Edge) :
  (forall k, k ∈ FLOWS ->
     exists f, flows m !! k = Some f
               /\ (is_Some (network.variable_costs f 0%nat) ->
                   forall t, t ∈ timesteps m ->
                     is_Some (network.variable_costs f t))) ->
  forall acc,
  exists r,
    for_ FLOWS (Flow.objective_step m) acc = Ok r
    /\ (eval env r.1
        == eval env acc.1
           + Qsum (map (fun k =>
                          Qsum (map (fun t => edge_variable_costs env k t)
                                    (timesteps m))) FLOWS))%Q
    /\ (eval env r.2
        == eval env acc.2 + Qsum (map (fun k => edge_fixed_costs k) FLOWS))%Q
    /\ ((exists q, acc.2 = Num q) -> exists q, r.2 = Num q).
Proof.
  induction FLOWS as [|[i o] FLOWS IH]; intros Hall acc.
  - exists acc. split_and!; [done|simpl; ring|simpl; ring|done].
  - destruct (Hall (i, o)) as (f & Hf & Hvc); [by left|].
    destruct (Flow_variable_costs_loop env i o f (timesteps m) Hf Hvc acc.1)
      as (vc & Hvcl & Hvce).
    assert (exists fc,
              Flow.objective_step m (i, o) acc = Ok (vc, fc)
              /\ (eval env fc == eval env acc.2 + edge_fixed_costs (i, o))%Q
              /\ ((exists q, acc.2 = Num q) -> exists q, fc = Num q))
      as (fc & Hstep & Hfce & Hnum).
    { unfold Flow.objective_step, getitem. rewrite Hvcl. simpl.
      rewrite Hf. simpl.
      destruct (Flow.truthy (network.fixed_costs f)) eqn:Htr.
      - destruct (network.nominal_value f) as [nv|].
        + destruct (network.fixed_costs f) as [c|]; [|discriminate Htr].
          simpl. eexists. split_and!; [done| |].
          * rewrite eval_py_add. simpl. ring.
          * intros [q ->]. by eexists.
        + exists acc.2. split_and!; [done|ring|done].
      - exists acc.2. split_and!; [done|ring|done]. }
    cbn [for_]. rewrite Hstep. simpl.
    destruct (IH (fun k Hk => Hall k (list_elem_of_further _ _ _ Hk)) (vc, fc))
      as (r & -> & H1 & H2 & H3).
    exists r. split_and!; [done| | |].
    + rewrite H1. cbn [fst snd map]. rewrite Hvce. unfold Qsum. simpl. ring.
    + rewrite H2. cbn [fst snd map]. rewrite Hfce. unfold Qsum. simpl. ring.
    + intros Hq. apply H3. simpl. by apply Hnum.
Qed.

(** X12: when every edge of [m.FLOWS] is known to [m.flows] and an edge
    whose variable costs are set at index 0 has them set at every timestep,
    the objective part of the flows is built.  Its variable part amounts
    to the sum of [flow[t] * dt * variable_costs[t]] over the edges with
    variable costs and the timesteps; its fixed part is a number, the sum of
    [nominal_value * fixed_costs] over the edges with a nominal value and
    fixed costs other than zero; the value returned is their sum. *)
Theorem Flow_objective_value (FLOWS : list Edge) :
  (forall k, k ∈ FLOWS ->
     exists f, flows m !! k = Some f
               /\ (is_Some (network.variable_costs f 0%nat) ->
                   forall t, t ∈ timesteps m ->
                     is_Some (network.variable_costs f t))) ->
  exists q vc,
    Flow._objective_expression m FLOWS = Ok (Num q, vc, py_add (Num q) vc)
    /\ (q == Qsum (map (fun k => edge_fixed_costs k) FLOWS))%Q
    /\ forall env,
         (eval env vc
          == Qsum (map (fun k =>
                          Qsum (map (fun t => edge_variable_costs env k t)
                                    (timesteps m))) FLOWS))%Q.
Proof.
  intros Hall. unfold Flow._objective_expression.
  destruct (Flow_objective_loop (fun _ => 0%Q) FLOWS Hall (Num 0, Num 0))
    as ([vc fc] & Hfor & _ & Hfc & Hnum).
  destruct Hnum as [q Hq]; [by eexists|]. simpl in Hq. subst fc.
  exists q, vc. rewrite Hfor. simpl. split_and!; [done| |].
  - simpl in Hfc. rewrite Hfc. ring.
  - intros env.
    destruct (Flow_objective_loop env FLOWS Hall (Num 0, Num 0))
      as (r & Hfor' & Hvc & _).
    rewrite Hfor in Hfor'. injection Hfor' as <-. simpl in Hvc.
    rewrite Hvc. ring.
Qed.

End flow_costs.

Lemma Flow_objective_value_witness :
  exists vc,
    Flow._objective_expression Scenario.m_limited [("plant", "bus")]
    = Ok (Num (0 + 10 * 2), vc, py_add (Num (0 + 10 * 2)) vc)
    /\ forall env,
         (eval env vc
          == env (flow "plant" "bus" 0%nat) * 3
             + env (flow "plant" "bus" 1%nat) * 3
             + env (flow "plant" "bus" 2%nat) * 3)%Q.
Proof.
  destruct (Flow_objective_value Scenario.m_limited [("plant", "bus")])
    as (q & vc & Hobj & _ & Hvc).
  { intros k ->%list_elem_of_singleton. exists Scenario.limited_edge.
    split; [done|]. intros _ t _. by eexists. }
  exists vc. split.
  - rewrite Hobj. vm_compute in Hobj. by injection Hobj as <- <-.
  - intros env. rewrite Hvc. unfold Qsum. cbn [map foldr fst snd].
    change (timesteps Scenario.m_limited) with [0%nat; 1%nat; 2%nat].
    change (flows Scenario.m_limited !! ("plant", "bus"))
      with (Some Scenario.limited_edge).
    cbn [map foldr]. rewrite decide_True by (by eexists). simpl. ring.
Defined.

(** ** Linear transformers *)

Section linear_transformer.
Variable m : Model.
Variable transformer : Node -> network.LinearTransformer.

(** The pairs of a transformer of the group and one of its outputs. *)
Local Abbreviation outputs_of group :=
  (flat_map (fun n => map (pair n)
                          (network.transformer_outputs (transformer n)))
            group).

Lemma LinearTransformer_flat (group : list Node)
    (cs : gmap (Node * Node * nat) constr) :
  LinearTransformer._input_output_relation m transformer group cs
  = for_ (cprod (timesteps m) (outputs_of group))
         (fun q => LinearTransformer.relation_step m transformer
                     q.1 q.2.1 q.2.2)
         cs.
Proof.
  unfold LinearTransformer._input_output_relation.
  rewrite <- (for_nested (timesteps m) (outputs_of group)
                (fun t p => LinearTransformer.relation_step m transformer
                              t p.1 p.2)).
  apply for_ext. intros t s _.
  apply (for_flat group
           (fun n => network.transformer_outputs (transformer n))
           (fun n o => LinearTransformer.relation_step m transformer t n o)).
Qed.

Lemma LinearTransformer_step_eq (q : nat * (Node * Node))
    (cs : gmap (Node * Node * nat) constr) :
  LinearTransformer.relation_step m transformer q.1 q.2.1 q.2.2 cs
  = v ← (i ← getitem (INPUTS m) q.2.1;
         cf ← getitem (network.conversion_factors (transformer q.2.1))
                      q.2.2;
         Ok (Some ((q.2.1, q.2.2, q.1),
                   Constr (Mul (V (flow i q.2.1 q.1))
                               (Num (seq_at cf q.1)))
                          EQ (V (flow q.2.1 q.2.2 q.1)))));
    Ok (match v with
        | Some (k, c) => <[k := c]> cs
        | None => cs
        end).
Proof.
  destruct q as [t [n o]]. unfold LinearTransformer.relation_step. simpl.
  destruct (getitem (INPUTS m) n); simpl; [|done].
  by destruct (getitem (network.conversion_factors (transformer n)) o).
Qed.

(** X13: in a block that [LinearTransformer._create] returns, every
    transformer of the group has an entry in [m.INPUTS] and a conversion
    factor for each of its outputs wherever there is a timestep, and the
    block holds, for every transformer, output and timestep,
    [flow[input, n, t] * conversion_factors[o][t] == flow[n, o, t]] and no
    other constraint. *)
Theorem LinearTransformer_relation (group : list Node)
    (self b : LinearTransformer.t) :
  LinearTransformer._create m transformer (Some group) self = Ok b ->
  exists rel,
    LinearTransformer.relation b = Some rel
    /\ forall n o t,
         if decide (n ∈ group
                    /\ o ∈ network.transformer_outputs (transformer n)
                    /\ t ∈ timesteps m)
         then exists i cf,
                INPUTS m !! n = Some i
                /\ network.conversion_factors (transformer n) !! o = Some cf
                /\ rel !! (n, o, t)
                   = Some (Constr (Mul (V (flow i n t)) (Num (seq_at cf t)))
                                  EQ (V (flow n o t)))
         else rel !! (n, o, t) = None.
Proof.
  intros Hb. unfold LinearTransformer._create in Hb. bind_inv Hb.
  injection Hb as <-. exists a. split; [done|]. intros n o t.
  rewrite LinearTransformer_flat in E.
  case_decide as Hd.
  - destruct Hd as (Hn & Ho & Ht).
    assert ((t, (n, o)) ∈ cprod (timesteps m) (outputs_of group)) as Hq.
    { apply list_elem_of_cprod. split; [done|]. by apply elem_of_flat_pairs. }
    destruct (emit_ok _ _ LinearTransformer_step_eq _ _ _ E _ Hq) as [v Hv].
    simpl in Hv. unfold getitem in Hv.
    destruct (INPUTS m !! n) as [i|] eqn:Hi; simpl in Hv; [|discriminate Hv].
    destruct (network.conversion_factors (transformer n) !! o) as [cf|]
      eqn:Hcf; simpl in Hv; [|discriminate Hv].
    exists i, cf. split_and!; [done..|].
    eapply (emit_found _ _ LinearTransformer_step_eq _ _ _ (t, (n, o)));
      [exact E|exact Hq| |].
    + simpl. unfold getitem. by rewrite Hi, Hcf.
    + intros [t' [n' o']] c' _. simpl. unfold getitem.
      destruct (INPUTS m !! n') as [i'|] eqn:Hi'; simpl; [|done].
      destruct (network.conversion_factors (transformer n') !! o')
        as [cf'|] eqn:Hcf'; simpl; [|done].
      intros [= -> -> -> <-]. congruence.
  - rewrite (emit_keep _ _ LinearTransformer_step_eq _ _ _ _ E);
      [apply lookup_empty|].
    intros [t' [n' o']] c [Ht' Hp]%list_elem_of_cprod. simpl in *.
    apply elem_of_flat_pairs in Hp as [Hn' Ho']. unfold getitem.
    destruct (INPUTS m !! n'); simpl; [|done].
    destruct (network.conversion_factors (transformer n') !! o'); simpl;
      [|done].
    intros [= -> -> -> _]. by apply Hd.
Qed.

(** X14: [LinearTransformer._create] returns a block when every
    transformer of the group has an entry in [m.INPUTS] and a conversion
    factor for each output; where there is a timestep, a transformer of the
    group that has an output but no input, or an output without a
    conversion factor, makes it raise [KeyError]. *)
Theorem LinearTransformer_create_ok (group : list Node)
    (self : LinearTransformer.t) :
  ((forall n o, n ∈ group ->
      o ∈ network.transformer_outputs (transformer n) ->
      is_Some (INPUTS m !! n)
      /\ is_Some (network.conversion_factors (transformer n) !! o)) ->
   is_Ok (LinearTransformer._create m transformer (Some group) self))
  /\ (timesteps m ≠ [] ->
      (exists n o, n ∈ group
                   /\ o ∈ network.transformer_outputs (transformer n)
                   /\ (INPUTS m !! n = None
                       \/ network.conversion_factors (transformer n) !! o
                          = None)) ->
      LinearTransformer._create m transformer (Some group) self
      = Raise KeyError).
Proof.
  unfold LinearTransformer._create. split.
  - intros Hall. rewrite LinearTransformer_flat.
    assert (is_Ok (for_ (cprod (timesteps m) (outputs_of group))
                        (fun q => LinearTransformer.relation_step
                                    m transformer q.1 q.2.1 q.2.2) ∅))
      as [rel ->]; [|by eexists].
    apply (emit_total _ _ LinearTransformer_step_eq).
    intros [t [n o]] [_ Hp]%list_elem_of_cprod. simpl in *.
    apply elem_of_flat_pairs in Hp as [Hn Ho].
    destruct (Hall n o Hn Ho) as [[i Hi] [cf Hcf]].
    unfold getitem. rewrite Hi, Hcf. by eexists.
  - intros Hts (n & o & Hn & Ho & Hmiss). rewrite LinearTransformer_flat.
    rewrite (for_raise_uniform _ _ KeyError); [done| |].
    + intros [t' [n' o']] s _. rewrite LinearTransformer_step_eq. simpl.
      unfold getitem. destruct (INPUTS m !! n'); simpl; [|by left].
      destruct (network.conversion_factors (transformer n') !! o'); simpl;
        [right; by eexists|by left].
    + destruct (timesteps m) as [|t ts] eqn:Hts'; [done|].
      exists (t, (n, o)). split.
      * apply list_elem_of_cprod. split; [by left|].
        by apply elem_of_flat_pairs.
      * intros s. rewrite LinearTransformer_step_eq. simpl. unfold getitem.
        destruct Hmiss as [->| ->]; [done|].
        by destruct (INPUTS m !! n).
Qed.

End linear_transformer.

Lemma LinearTransformer_relation_witness :
  exists b rel,
    LinearTransformer._create Scenario.m_chp (fun _ => Scenario.chp)
                              (Some ["chp"]) LinearTransformer.new = Ok b
    /\ LinearTransformer.relation b = Some rel
    /\ rel !! ("chp", "heat", 1%nat)
       = Some (Constr (Mul (V (flow "gas" "chp" 1)) (Num (1 # 2))) EQ
                      (V (flow "chp" "heat" 1))).
Proof.
  destruct (LinearTransformer._create
              Scenario.m_chp (fun _ => Scenario.chp) (Some ["chp"])
              LinearTransformer.new) as [b|e] eqn:Hb;
    [|vm_compute in Hb; discriminate Hb].
  destruct (LinearTransformer_relation
              Scenario.m_chp (fun _ => Scenario.chp) ["chp"]
              LinearTransformer.new b Hb) as (rel & Hrel & Hall).
  exists b, rel. split_and!; [done..|].
  specialize (Hall "chp" "heat" 1%nat).
  rewrite decide_True in Hall
    by (split_and!; [by left|by right; left|by right; left]).
  destruct Hall as (i & cf & Hi & Hcf & Hc).
  injection Hi as <-. injection Hcf as <-. exact Hc.
Defined.

Lemma LinearTransformer_create_ok_witness :
  is_Ok (LinearTransformer._create Scenario.m_chp (fun _ => Scenario.chp)
                                   (Some ["chp"]) LinearTransformer.new)
  /\ LinearTransformer._create
       Scenario.m_chp (fun _ => Scenario.chp_without_heat_factor)
       (Some ["chp"]) LinearTransformer.new = Raise KeyError.
Proof.
  split.
  - apply (proj1 (LinearTransformer_create_ok
                    Scenario.m_chp (fun _ => Scenario.chp) ["chp"]
                    LinearTransformer.new)).
    intros n o ->%list_elem_of_singleton Ho. split; [by eexists|].
    simpl in Ho.
    apply elem_of_cons in Ho as [->|Ho]; [by eexists|].
    apply list_elem_of_singleton in Ho as ->. by eexists.
  - apply (proj2 (LinearTransformer_create_ok
                    Scenario.m_chp
                    (fun _ => Scenario.chp_without_heat_factor) ["chp"]
                    LinearTransformer.new)); [discriminate|].
    exists "chp", "heat". split_and!; [by left|by right; left|by right].
Defined.

(** ** Discrete flows: status variables and failures *)

Section discrete_more.
Variable m : Model.

Lemma Discrete_minimum_rule_inv (i o : Node) (t : nat) :
  is_Some (rule_constr (Discrete._minimum_flow_rule m) (i, o, t)) ->
  exists mf, flows m !! (i, o) = Some mf
             /\ is_Some (network.nominal_value mf).
Proof.
  unfold rule_constr, Discrete._minimum_flow_rule, getitem, num_opt.
  destruct (flows m !! (i, o)) as [mf|]; simpl; [|by intros [? ?]].
  destruct (network.nominal_value mf) eqn:Hnv; simpl; [|by intros [? ?]].
  intros _. exists mf. split; [done|]. rewrite Hnv. by eexists.
Qed.

(** X15: in a block that [Discrete._create] returns, [FLOWS] lists the
    edges of the group and there is one status variable for every edge and
    timestep and no other: binary, without bounds, without value, not
    fixed. *)
Theorem Discrete_status_variables
    (group : list (Node * Node * network.Flow)) (self b : Discrete.t) :
  Discrete._create m (Some group) self = Ok b ->
  Discrete.FLOWS b = map Discrete.edge group
  /\ forall i o t,
       Discrete.status b !! (i, o, t)
       = if decide ((i, o) ∈ Discrete.FLOWS b /\ t ∈ timesteps m)
         then Some (mkVar Binary None None None false)
         else None.
Proof.
  intros Hb. unfold Discrete._create in Hb. do 3 bind_inv Hb.
  injection Hb as <-. simpl. split; [done|]. intros i o t.
  rewrite (Var_lookup _ _ _ _ _ E).
  destruct (decide ((i, o) ∈ map Discrete.edge group /\ t ∈ timesteps m))
    as [Hd|Hd].
  - by rewrite decide_True by (by apply list_elem_of_cprod).
  - rewrite decide_False; [done|].
    intros [? ?]%list_elem_of_cprod. by apply Hd.
Qed.

(** X16: [Discrete._create] returns a block exactly when, if there is a
    timestep at all, every edge of the group with a nonzero minimum at
    index 0 is an edge of [m.flows] with a nominal value. *)
Theorem Discrete_create_ok_iff
    (group : list (Node * Node * network.Flow)) (self : Discrete.t) :
  is_Ok (Discrete._create m (Some group) self)
  <-> forall g t, g ∈ group -> Discrete.has_min g = true ->
        t ∈ timesteps m ->
        exists mf, flows m !! Discrete.edge g = Some mf
                   /\ is_Some (network.nominal_value mf).
Proof.
  split.
  - intros [b Hb] g t Hg Hmin Ht. unfold Discrete._create in Hb.
    do 3 bind_inv Hb. destruct g as [[i o] f].
    apply (Discrete_minimum_rule_inv i o t).
    apply (Constraint_inv _ _ _ E0). apply list_elem_of_cprod.
    split; [|done]. apply elem_of_map. exists (i, o, f).
    split; [done|]. by apply list_elem_of_filter.
  - intros Hall. unfold Discrete._create.
    destruct (Var_total (cprod (map Discrete.edge group) (timesteps m))
                        Binary unbounded) as [st ->]; [by eexists|].
    simpl.
    assert (Hrule : forall k,
              k ∈ cprod (map Discrete.edge
                             (filter (fun g => Discrete.has_min g = true)
                                     group)) (timesteps m) ->
              exists mf nv, flows m !! k.1 = Some mf
                            /\ network.nominal_value mf = Some nv).
    { intros [e t] [He Ht]%list_elem_of_cprod. simpl in *.
      apply elem_of_map in He as (g & -> & [Hm Hg]%list_elem_of_filter).
      destruct (Hall g t Hg Hm Ht) as (mf & Hmf & [nv Hnv]). eauto. }
    set (MIN := cprod (map Discrete.edge
                           (filter (fun g => Discrete.has_min g = true)
                                   group)) (timesteps m)) in *.
    destruct (Constraint_total MIN (Discrete._minimum_flow_rule m))
      as [cmin ->].
    { intros [[i o] t] Hk. destruct (Hrule _ Hk) as (mf & nv & Hmf & Hnv).
      unfold rule_constr.
      rewrite (Discrete_minimum_rule_eq m i o t mf nv Hmf Hnv). by eexists. }
    simpl.
    destruct (Constraint_total MIN (Discrete._maximum_flow_rule m))
      as [cmax ->].
    { intros [[i o] t] Hk. destruct (Hrule _ Hk) as (mf & nv & Hmf & Hnv).
      unfold rule_constr.
      rewrite (Discrete_maximum_rule_eq m i o t mf nv Hmf Hnv). by eexists. }
    by eexists.
Qed.

End discrete_more.

Lemma Discrete_status_variables_witness :
  exists b,
    Discrete._create Scenario.m_discrete (Some Scenario.discrete_group)
                     Discrete.new = Ok b
    /\ Discrete.status b !! ("plant", "bus", 1%nat)
       = Some (mkVar Binary None None None false)
    /\ Discrete.status b !! ("plant", "bus", 2%nat) = None.
Proof.
  destruct (Discrete._create Scenario.m_discrete
                             (Some Scenario.discrete_group) Discrete.new)
    as [b|e] eqn:Hb; [|vm_compute in Hb; discriminate Hb].
  destruct (Discrete_status_variables
              Scenario.m_discrete Scenario.discrete_group Discrete.new b Hb)
    as [HF Hst].
  exists b. split_and!; [done| |].
  - rewrite Hst, HF. apply decide_True. split; [by left|by right; left].
  - rewrite Hst, HF. apply decide_False. intros [_ Ht].
    apply elem_of_cons in Ht as [?|Ht]; [done|].
    by apply list_elem_of_singleton in Ht.
Defined.

Lemma Discrete_create_ok_iff_witness :
  is_Ok (Discrete._create Scenario.m_discrete (Some Scenario.discrete_group)
                          Discrete.new)
  /\ ~ is_Ok (Discrete._create
                Scenario.m_unsized_discrete
                (Some [("plant", "bus", Scenario.unsized_discrete_edge)])
                Discrete.new).
Proof.
  split.
  - apply (proj2 (Discrete_create_ok_iff
                    Scenario.m_discrete Scenario.discrete_group
                    Discrete.new)).
    intros g t ->%list_elem_of_singleton _ _.
    exists Scenario.discrete_edge. split; [done|by eexists].
  - intros Hok.
    pose proof (proj1 (Discrete_create_ok_iff
                         Scenario.m_unsized_discrete
                         [("plant", "bus", Scenario.unsized_discrete_edge)]
                         Discrete.new) Hok) as Hall.
    destruct (Hall ("plant", "bus", Scenario.unsized_discrete_edge) 0%nat)
      as (mf & Hmf & [nv Hnv]); [by left|done|by left|].
    injection Hmf as <-. discriminate Hnv.
Defined.

(** ** Electrical lines: the build with a slack bus *)

(** A loop over a pair of containers that stores one entry in each. *)
Lemma for_pair_insert {A V1 V2 : Type} `{Countable K} (key : A -> K)
    (c1 : A -> V1) (c2 : A -> V2)
    (step : A -> gmap K V1 * gmap K V2 -> result (gmap K V1 * gmap K V2))
    (l : list A) :
  (forall a st, a ∈ l ->
     step a st = Ok (<[key a := c1 a]> st.1, <[key a := c2 a]> st.2)) ->
  forall st,
  exists r1 r2,
    for_ l step st = Ok (r1, r2)
    /\ for_ l (fun a s => v ← Ok (Some (key a, c1 a));
                          Ok (match v with
                              | Some (k, c) => <[k := c]> s
                              | None => s
                              end)) st.1 = Ok r1
    /\ for_ l (fun a s => v ← Ok (Some (key a, c2 a));
                          Ok (match v with
                              | Some (k, c) => <[k := c]> s
                              | None => s
                              end)) st.2 = Ok r2.
Proof.
  induction l as [|a l IH]; intros Hstep st.
  - exists st.1, st.2. by destruct st.
  - cbn [for_]. rewrite Hstep by left. simpl.
    destruct (IH (fun a' st' Ha' => Hstep a' st'
                                      (list_elem_of_further _ _ _ Ha'))
                 (<[key a := c1 a]> st.1, <[key a := c2 a]> st.2))
      as (r1 & r2 & H0 & H1 & H2).
    by exists r1, r2.
Qed.

Section electrical_line_build.
Import custom.
Variable m : Model.

Lemma dict_of_lookup (group : list Node) (f : Node -> result Node)
    (d : gmap Node Node) (n : Node) :
  ElectricalLineBlock.dict_of group f = Ok d ->
  d !! n = if decide (n ∈ group)
           then match f n with
                | Ok x => Some x
                | Raise _ => None
                end
           else None.
Proof. apply (fill_lookup f _ (fun k s => eq_refl)). Qed.

Lemma dict_of_total (group : list Node) (f : Node -> result Node) :
  (forall n, n ∈ group -> is_Ok (f n)) ->
  is_Ok (ElectricalLineBlock.dict_of group f).
Proof. apply (fill_total f _ (fun k s => eq_refl)). Qed.

(** One turn of [_voltage_angle_relation] when nothing is missing. *)
Lemma relation_step_eq (w : ElectricalLineBlock.World)
    (I O : gmap Node Node) (va : gmap (Node * nat) VarData)
    (t : nat) (n i o : Node) st :
  I !! n = Some i -> O !! n = Some o ->
  is_Some (ElectricalLineBlock.electrical_bus w !! o) ->
  is_Some (va !! (i, t)) -> is_Some (va !! (o, t)) ->
  ~ (reactance (electrical_line m n) t == 0)%Q ->
  ElectricalLineBlock.relation_step m w I O va t n st
  = Ok (<[(n, t) :=
            Constr (V (flow n o t)) EQ
                   (Mul (Num (1 / reactance (electrical_line m n) t)%Q)
                        (Sub (V (voltage_angle i t))
                             (V (voltage_angle o t))))]> st.1,
        <[(n, t) := Constr (V (flow n o t)) EQ (V (flow i n t))]> st.2).
Proof.
  intros Hi Ho [ob Hob] [vi Hvi] [vo Hvo] Hr.
  unfold ElectricalLineBlock.relation_step,
    ElectricalLineBlock.as_ElectricalBus, getitem, try_except, var_ref,
    py_div.
  rewrite Ho. simpl. rewrite Hob. simpl.
  destruct (Qeq_bool _ 0) eqn:E; [by apply Qeq_bool_iff in E|].
  simpl. rewrite Hi. simpl. by rewrite Hvi, Hvo.
Qed.

(** X17: with a bus marked slack, bounds that are numbers or [None], and
    lines whose input and output are electrical buses of the system and
    whose reactance is not zero, [ElectricalLineBlock._create] returns a
    block and changes neither the log nor a bus.  The block has a voltage
    angle bounded by [v_min] and [v_max] for every electrical bus and
    timestep, and for every line and timestep the angle relation and the
    equality of the two directional flows. *)
Theorem ElectricalLine_build (group : list Node)
    (self : ElectricalLineBlock.t) (w : ElectricalLineBlock.World) :
  let EB := filter (fun n => is_Some (ElectricalLineBlock.electrical_bus w
                                        !! n)) (nodes m) in
  ElectricalLineBlock.no_slack w EB = false ->
  (forall k eb, ElectricalLineBlock.electrical_bus w !! k = Some eb ->
     is_Ok (ElectricalLineBlock.bound_of (v_min eb))
     /\ is_Ok (ElectricalLineBlock.bound_of (v_max eb))) ->
  (forall n, n ∈ group ->
     exists i o,
       _input (electrical_line m n) = Ok i
       /\ _output (electrical_line m n) = Ok o
       /\ i ∈ EB /\ o ∈ EB
       /\ forall t, t ∈ timesteps m ->
            ~ (reactance (electrical_line m n) t == 0)%Q) ->
  exists b,
    ElectricalLineBlock._create m (Some group) self w = (Ok b, w)
    /\ ElectricalLineBlock.ELECTRICAL_BUSES b = EB
    /\ (forall k t eb,
          k ∈ EB -> t ∈ timesteps m ->
          ElectricalLineBlock.electrical_bus w !! k = Some eb ->
          exists lo hi,
            ElectricalLineBlock.bound_of (v_min eb) = Ok lo
            /\ ElectricalLineBlock.bound_of (v_max eb) = Ok hi
            /\ ElectricalLineBlock.voltage_angle_ b !! (k, t)
               = Some (mkVar Reals lo hi None false))
    /\ forall n t i o,
         n ∈ group -> t ∈ timesteps m ->
         _input (electrical_line m n) = Ok i ->
         _output (electrical_line m n) = Ok o ->
         ElectricalLineBlock.electrical_flow b !! (n, t)
         = Some (Constr (V (flow n o t)) EQ
                        (Mul (Num (1 / reactance (electrical_line m n) t)%Q)
                             (Sub (V (voltage_angle i t))
                                  (V (voltage_angle o t)))))
         /\ ElectricalLineBlock._equate_electrical_flows b !! (n, t)
            = Some (Constr (V (flow n o t)) EQ (V (flow i n t))).
Proof.
  intros EB Hslack Hbounds Hlines.
  assert (HEB : forall k, k ∈ EB ->
            is_Some (ElectricalLineBlock.electrical_bus w !! k)).
  { intros k [? _]%list_elem_of_filter. done. }
  destruct (dict_of_total group (fun n => _input (electrical_line m n)))
    as [I HI].
  { intros n Hn. destruct (Hlines n Hn) as (i & o & -> & _). by eexists. }
  destruct (dict_of_total group (fun n => _output (electrical_line m n)))
    as [O HO].
  { intros n Hn. destruct (Hlines n Hn) as (i & o & _ & -> & _).
    by eexists. }
  destruct (Var_total (cprod EB (timesteps m)) Reals
                      (ElectricalLineBlock._voltage_angle_bounds w))
    as [va Hva].
  { intros [k t] [Hk _]%list_elem_of_cprod. simpl in Hk.
    destruct (HEB k Hk) as [eb Heb].
    destruct (Hbounds k eb Heb) as [[lo Hlo] [hi Hhi]].
    unfold ElectricalLineBlock._voltage_angle_bounds,
      ElectricalLineBlock.as_ElectricalBus.
    rewrite Heb. simpl. rewrite Hlo. simpl. rewrite Hhi. by eexists. }
  assert (Hva_some : forall k t, k ∈ EB -> t ∈ timesteps m ->
            forall eb, ElectricalLineBlock.electrical_bus w !! k = Some eb ->
            exists lo hi,
              ElectricalLineBlock.bound_of (v_min eb) = Ok lo
              /\ ElectricalLineBlock.bound_of (v_max eb) = Ok hi
              /\ va !! (k, t) = Some (mkVar Reals lo hi None false)).
  { intros k t Hk Ht eb Heb.
    destruct (Hbounds k eb Heb) as [[lo Hlo] [hi Hhi]].
    exists lo, hi. split_and!; [done..|].
    rewrite (Var_lookup _ _ _ _ _ Hva).
    rewrite decide_True by (by apply list_elem_of_cprod).
    unfold ElectricalLineBlock._voltage_angle_bounds,
      ElectricalLineBlock.as_ElectricalBus.
    rewrite Heb. simpl. rewrite Hlo. simpl. by rewrite Hhi. }
  set (Iof := fun n => default n (I !! n)).
  set (Oof := fun n => default n (O !! n)).
  set (c1 := fun p : nat * Node =>
               Constr (V (flow p.2 (Oof p.2) p.1)) EQ
                      (Mul (Num (1 / reactance (electrical_line m p.2) p.1)%Q)
                           (Sub (V (voltage_angle (Iof p.2) p.1))
                                (V (voltage_angle (Oof p.2) p.1))))).
  set (c2 := fun p : nat * Node =>
               Constr (V (flow p.2 (Oof p.2) p.1)) EQ
                      (V (flow (Iof p.2) p.2 p.1))).
  assert (HIO : forall n, n ∈ group ->
            forall i o, _input (electrical_line m n) = Ok i ->
                        _output (electrical_line m n) = Ok o ->
                        I !! n = Some i /\ O !! n = Some o
                        /\ Iof n = i /\ Oof n = o).
  { intros n Hn i o Hi Ho. unfold Iof, Oof.
    rewrite (dict_of_lookup _ _ _ n HI), (dict_of_lookup _ _ _ n HO).
    rewrite !decide_True by done. by rewrite Hi, Ho. }
  destruct (for_pair_insert
              (fun p : nat * Node => (p.2, p.1)) c1 c2
              (fun p => ElectricalLineBlock.relation_step m w I O va p.1 p.2)
              (cprod (timesteps m) group)) with (st := (∅, ∅)
              : gmap (Node * nat) constr * gmap (Node * nat) constr)
    as (ef & eq & Hfor & Hef & Heq).
  { intros [t n] st [Ht Hn]%list_elem_of_cprod. simpl in *.
    destruct (Hlines n Hn) as (i & o & Hi & Ho & HiE & HoE & Hr).
    destruct (HIO n Hn i o Hi Ho) as (HIn & HOn & Hi' & Ho').
    destruct (HEB i HiE) as [ebi Hebi]. destruct (HEB o HoE) as [ebo Hebo].
    destruct (Hva_some i t HiE Ht ebi Hebi) as (? & ? & _ & _ & Hvi).
    destruct (Hva_some o t HoE Ht ebo Hebo) as (? & ? & _ & _ & Hvo).
    rewrite (relation_step_eq w I O va t n i o st); try done;
      [|by eexists..|by apply Hr].
    unfold c1, c2. simpl. by rewrite Hi', Ho'. }
  exists (ElectricalLineBlock.mk EB va ef eq). split_and!.
  - unfold ElectricalLineBlock._create, mbind, ElectricalLineBlock.M_bind,
      ElectricalLineBlock.lift, ElectricalLineBlock.get_world.
    rewrite HI, HO. fold EB. rewrite Hva, Hslack. simpl.
    unfold ElectricalLineBlock._voltage_angle_relation.
    rewrite (for_nested (timesteps m) group
               (ElectricalLineBlock.relation_step m w I O va)).
    by rewrite Hfor.
  - done.
  - intros k t eb Hk Ht Heb. simpl. by apply Hva_some.
  - intros n t i o Hn Ht Hi Ho. simpl.
    destruct (HIO n Hn i o Hi Ho) as (_ & _ & Hi' & Ho').
    assert ((t, n) ∈ cprod (timesteps m) group) as Hp
      by (by apply list_elem_of_cprod).
    split.
    + rewrite (emit_found _ _ (fun a s => eq_refl) _ _ _ (t, n) (n, t)
                          (c1 (t, n)) Hef Hp eq_refl).
      * unfold c1. simpl. by rewrite Hi', Ho'.
      * by intros [t' n'] c' _ [= -> -> <-].
    + rewrite (emit_found _ _ (fun a s => eq_refl) _ _ _ (t, n) (n, t)
                          (c2 (t, n)) Heq Hp eq_refl).
      * unfold c2. simpl. by rewrite Hi', Ho'.
      * by intros [t' n'] c' _ [= -> -> <-].
Qed.

End electrical_line_build.

Lemma ElectricalLine_build_witness :
  exists b,
    ElectricalLineBlock._create Scenario.m_line (Some ["line"])
                                ElectricalLineBlock.new
                                Scenario.slack_at_output
    = (Ok b, Scenario.slack_at_output)
    /\ ElectricalLineBlock.voltage_angle_ b !! ("b1", 0%nat)
       = Some (mkVar Reals (Some (-1000)%Q) (Some 1000%Q) None false).
Proof.
  destruct (ElectricalLine_build Scenario.m_line ["line"]
                                 ElectricalLineBlock.new
                                 Scenario.slack_at_output)
    as (b & Hb & _ & Hva & _).
  - reflexivity.
  - intros k eb Hk.
    assert (eb = custom.mkElectricalBus (custom.slack eb) (PyNum 1000)
                                        (PyNum (-1000))) as ->.
    { change ((<["b0" := custom.ElectricalBus__init__
                           {["slack" := PyBool true]}]>
                 (<["b1" := custom.ElectricalBus__init__
                              {["slack" := PyBool false]}]> ∅) : gmap _ _)
                !! k = Some eb) in Hk.
      destruct (decide (k = "b0")) as [->|Hk0];
        [by injection Hk as <-|].
      rewrite lookup_insert_ne in Hk by done.
      destruct (decide (k = "b1")) as [->|Hk1];
        [by injection Hk as <-|].
      by rewrite lookup_insert_ne in Hk. }
    split; by eexists.
  - intros n ->%list_elem_of_singleton. exists "b1", "b0".
    split_and!; [done|done| | |discriminate].
    + apply list_elem_of_filter. split; [by eexists|by right; left].
    + apply list_elem_of_filter. split; [by eexists|by left].
  - exists b. split; [exact Hb|].
    destruct (Hva "b1" 0%nat
                  (custom.ElectricalBus__init__ {["slack" := PyBool false]}))
      as (lo & hi & Hlo & Hhi & Hv); [|by left|done|].
    + apply list_elem_of_filter. split; [by eexists|by right; left].
    + injection Hlo as <-. injection Hhi as <-. exact Hv.
Defined.

(** ** Electrical lines: what stops the build *)

(** A loop raises only what one of its turns raises. *)
Lemma for_raise_some {A S : Type} (l : list A) (body : A -> S -> result S)
    (s : S) (e : exn) :
  for_ l body s = Raise e -> exists a s', a ∈ l /\ body a s' = Raise e.
Proof.
  revert s. induction l as [|a l IH]; intros s Hr; [discriminate Hr|].
  cbn [for_] in Hr. destruct (body a s) as [s1|e1] eqn:E; simpl in Hr.
  - destruct (IH s1 Hr) as (a' & s' & Ha' & Hb).
    exists a', s'. split; [by right|done].
  - injection Hr as ->. exists a, s. split; [by left|done].
Qed.

Section electrical_line_stop.
Import custom.
Variable m : Model.

(** What one turn of [_voltage_angle_relation] needs to get through. *)
Lemma relation_step_needs (w : ElectricalLineBlock.World)
    (I O : gmap Node Node) (va : gmap (Node * nat) VarData)
    (t : nat) (n : Node) st r :
  ElectricalLineBlock.relation_step m w I O va t n st = Ok r ->
  exists i o,
    I !! n = Some i /\ O !! n = Some o
    /\ is_Some (va !! (i, t)) /\ is_Some (va !! (o, t))
    /\ ~ (reactance (electrical_line m n) t == 0)%Q.
Proof.
  unfold ElectricalLineBlock.relation_step, getitem, try_except, var_ref,
    py_div.
  intros H.
  destruct (O !! n) as [o|]; simpl in H; [|discriminate H].
  destruct (ElectricalLineBlock.as_ElectricalBus w o) as [ob|];
    simpl in H; [|discriminate H].
  destruct (Qeq_bool _ 0) eqn:E; simpl in H; [discriminate H|].
  destruct (I !! n) as [i|]; simpl in H; [|discriminate H].
  destruct (va !! (i, t)) eqn:Ei; simpl in H; [|discriminate H].
  destruct (va !! (o, t)) eqn:Eo; simpl in H; [|discriminate H].
  exists i, o. split_and!; [done|done|by eexists|by eexists|].
  intros Hz%Qeq_bool_iff. by rewrite Hz in E.
Qed.

(** What one turn of [_voltage_angle_relation] can raise for a line whose
    input and output are known. *)
Lemma relation_step_raises (w : ElectricalLineBlock.World)
    (I O : gmap Node Node) (va : gmap (Node * nat) VarData)
    (t : nat) (n : Node) st e :
  is_Some (I !! n) -> is_Some (O !! n) ->
  ElectricalLineBlock.relation_step m w I O va t n st = Raise e ->
  e = AttributeError
  \/ e = ValueError ["Error in constraint creation"; "of node " ++ n].
Proof.
  intros [i Hi] [o Ho].
  unfold ElectricalLineBlock.relation_step, getitem, try_except, var_ref,
    py_div.
  rewrite Hi, Ho. simpl. intros H.
  destruct (ElectricalLineBlock.as_ElectricalBus w o) as [ob|e'] eqn:Eb;
    simpl in H.
  - right.
    destruct (Qeq_bool _ 0); simpl in H; [by injection H as <-|].
    destruct (va !! (i, t)); simpl in H; [|by injection H as <-].
    destruct (va !! (o, t)); simpl in H; [|by injection H as <-].
    discriminate H.
  - left. unfold ElectricalLineBlock.as_ElectricalBus in Eb.
    destruct (ElectricalLineBlock.electrical_bus w !! o); [discriminate Eb|].
    injection Eb as <-. by injection H as <-.
Qed.

(** X18: with a bus marked slack, usable bounds and lines that each have an
    input and an output, [ElectricalLineBlock._create] raises as soon as,
    over a nonempty time index, one line has zero reactance or an input or
    output that is not an electrical bus of the system.  The exception is
    an [AttributeError] (an output without [slack]) or the [ValueError]
    of the [except] clause naming a line of the group; the log and the
    buses are as before. *)
Theorem ElectricalLine_build_stops (group : list Node)
    (self : ElectricalLineBlock.t) (w : ElectricalLineBlock.World)
    (n : Node) (t : nat) :
  let EB := filter (fun n => is_Some (ElectricalLineBlock.electrical_bus w
                                        !! n)) (nodes m) in
  ElectricalLineBlock.no_slack w EB = false ->
  (forall k eb, ElectricalLineBlock.electrical_bus w !! k = Some eb ->
     is_Ok (ElectricalLineBlock.bound_of (v_min eb))
     /\ is_Ok (ElectricalLineBlock.bound_of (v_max eb))) ->
  (forall n, n ∈ group ->
     is_Ok (_input (electrical_line m n))
     /\ is_Ok (_output (electrical_line m n))) ->
  n ∈ group -> t ∈ timesteps m ->
  ((reactance (electrical_line m n) t == 0)%Q
   \/ (exists i, _input (electrical_line m n) = Ok i /\ i ∉ EB)
   \/ (exists o, _output (electrical_line m n) = Ok o /\ o ∉ EB)) ->
  exists e,
    ElectricalLineBlock._create m (Some group) self w = (Raise e, w)
    /\ (e = AttributeError
        \/ exists n', n' ∈ group
             /\ e = ValueError ["Error in constraint creation";
                                "of node " ++ n']).
Proof.
  intros EB Hslack Hbounds Hio Hn Ht Hbad.
  destruct (dict_of_total group (fun n => _input (electrical_line m n)))
    as [I HI]; [intros n' Hn'; by apply Hio|].
  destruct (dict_of_total group (fun n => _output (electrical_line m n)))
    as [O HO]; [intros n' Hn'; by apply Hio|].
  destruct (Var_total (cprod EB (timesteps m)) Reals
                      (ElectricalLineBlock._voltage_angle_bounds w))
    as [va Hva].
  { intros [k t'] [[[eb Heb] _]%list_elem_of_filter _]%list_elem_of_cprod.
    simpl in Heb.
    destruct (Hbounds k eb Heb) as [[lo Hlo] [hi Hhi]].
    unfold ElectricalLineBlock._voltage_angle_bounds,
      ElectricalLineBlock.as_ElectricalBus.
    rewrite Heb. simpl. rewrite Hlo. simpl. rewrite Hhi. by eexists. }
  assert (HIO : forall n', n' ∈ group ->
            (exists i, _input (electrical_line m n') = Ok i
                       /\ I !! n' = Some i)
            /\ exists o, _output (electrical_line m n') = Ok o
                         /\ O !! n' = Some o).
  { intros n' Hn'. destruct (Hio n' Hn') as [[i Hi] [o Ho]].
    rewrite (dict_of_lookup _ _ _ n' HI), (dict_of_lookup _ _ _ n' HO).
    rewrite !decide_True by done. rewrite Hi, Ho.
    split; by eexists. }
  assert (Hin : forall k t', is_Some (va !! (k, t')) -> k ∈ EB).
  { intros k t' Hs. rewrite (Var_lookup _ _ _ _ _ Hva) in Hs.
    destruct (decide ((k, t') ∈ cprod EB (timesteps m))) as [Hd|];
      [|by destruct Hs].
    by apply list_elem_of_cprod in Hd as [? _]. }
  destruct (for_ (cprod (timesteps m) group)
                 (fun p => ElectricalLineBlock.relation_step
                             m w I O va p.1 p.2) (∅, ∅)) as [cs|e] eqn:Efor.
  - exfalso.
    destruct (for_ok_each _ _ _ _ Efor (t, n)) as (s' & r' & Hstep);
      [by apply list_elem_of_cprod|].
    simpl in Hstep.
    destruct (relation_step_needs _ _ _ _ _ _ _ _ Hstep)
      as (i & o & HIn & HOn & Hvi & Hvo & Hr).
    destruct (HIO n Hn) as [(i' & Hi' & HIn') (o' & Ho' & HOn')].
    rewrite HIn in HIn'. rewrite HOn in HOn'.
    injection HIn' as <-. injection HOn' as <-.
    destruct Hbad as [Hz|[(i' & Hi2 & Hni)|(o' & Ho2 & Hno)]].
    + by apply Hr.
    + rewrite Hi' in Hi2. injection Hi2 as <-. apply Hni.
      by apply (Hin i t).
    + rewrite Ho' in Ho2. injection Ho2 as <-. apply Hno.
      by apply (Hin o t).
  - exists e. split.
    + unfold ElectricalLineBlock._create, mbind,
        ElectricalLineBlock.M_bind, ElectricalLineBlock.lift,
        ElectricalLineBlock.get_world.
      rewrite HI, HO. fold EB. rewrite Hva, Hslack. simpl.
      unfold ElectricalLineBlock._voltage_angle_relation.
      rewrite (for_nested (timesteps m) group
                 (ElectricalLineBlock.relation_step m w I O va)).
      by rewrite Efor.
    + destruct (for_raise_some _ _ _ _ Efor) as ([t' n'] & s' & Hp & Hstep).
      apply list_elem_of_cprod in Hp as [_ Hn']. simpl in *.
      destruct (HIO n' Hn') as [(i' & _ & HIn') (o' & _ & HOn')].
      destruct (relation_step_raises _ _ _ _ _ _ _ _
                  (ex_intro _ _ HIn') (ex_intro _ _ HOn') Hstep) as [->| ->];
        [by left|right; by exists n'].
Qed.

End electrical_line_stop.

Lemma ElectricalLine_build_stops_witness :
  ElectricalLineBlock._create Scenario.m_line_shorted (Some ["line"])
                              ElectricalLineBlock.new
                              Scenario.slack_at_output
  = (Raise (ValueError ["Error in constraint creation"; "of node line"]),
     Scenario.slack_at_output).
Proof.
  destruct (ElectricalLine_build_stops
              Scenario.m_line_shorted ["line"] ElectricalLineBlock.new
              Scenario.slack_at_output "line" 0%nat)
    as (e & Hc & He).
  - reflexivity.
  - intros k eb Hk.
    assert (eb = custom.mkElectricalBus (custom.slack eb) (PyNum 1000)
                                        (PyNum (-1000))) as ->.
    { change ((<["b0" := custom.ElectricalBus__init__
                           {["slack" := PyBool true]}]>
                 (<["b1" := custom.ElectricalBus__init__
                              {["slack" := PyBool false]}]> ∅) : gmap _ _)
                !! k = Some eb) in Hk.
      destruct (decide (k = "b0")) as [->|Hk0];
        [by injection Hk as <-|].
      rewrite lookup_insert_ne in Hk by done.
      destruct (decide (k = "b1")) as [->|Hk1];
        [by injection Hk as <-|].
      by rewrite lookup_insert_ne in Hk. }
    split; by eexists.
  - intros n _. split; by eexists.
  - by left.
  - by left.
  - left. reflexivity.
  - destruct He as [->|(n' & ->%list_elem_of_singleton & ->)];
      [|exact Hc].
    vm_compute in Hc. discriminate Hc.
Defined.

(** ** Storages with investment: balance and what the build needs *)

Section investment_storage_balance.
Variable m : Model.
Variable m_InvestmentFlow : InvestmentFlow.t.

Lemma InvestmentStorage_balance_rule_inv (n : Node) (t : nat) (c : constr) :
  rule_constr (InvestmentStorage._storage_balance_rule m) (n, t) = Some c ->
  exists i o,
    INPUTS m !! n = Some i /\ OUTPUTS m !! n = Some o
    /\ ~ (network.outflow_conversion_factor (storage m n) t == 0)%Q
    /\ rel c = EQ /\ rhs c = Num 0
    /\ forall env,
         (eval env (lhs c)
          == env (InvestmentStorage_capacity n t)
             - env (InvestmentStorage_capacity n (previous_timesteps m t))
               * (1 - network.capacity_loss (storage m n) t)
             - env (flow i n t)
               * network.inflow_conversion_factor (storage m n) t
               * timeincrement m
             + env (flow n o t)
               / network.outflow_conversion_factor (storage m n) t
               * timeincrement m)%Q.
Proof.
  unfold rule_constr, InvestmentStorage._storage_balance_rule, getitem,
    py_div.
  destruct (INPUTS m !! n) as [i|]; simpl; [|done].
  destruct (OUTPUTS m !! n) as [o|]; simpl; [|done].
  destruct (Qeq_bool _ 0) eqn:E; simpl; [done|].
  intros [= <-]. exists i, o. split_and!; [done|done| |done|done|].
  - intros Hz%Qeq_bool_iff. congruence.
  - intros env. simpl. unfold Qdiv. ring.
Qed.

Lemma InvestmentStorage_balance_rule_some (n i o : Node) (t : nat) :
  INPUTS m !! n = Some i -> OUTPUTS m !! n = Some o ->
  ~ (network.outflow_conversion_factor (storage m n) t == 0)%Q ->
  is_Some (rule_constr (InvestmentStorage._storage_balance_rule m) (n, t)).
Proof.
  intros Hi Ho Hnz.
  unfold rule_constr, InvestmentStorage._storage_balance_rule, getitem,
    py_div.
  rewrite Hi, Ho. simpl.
  destruct (Qeq_bool _ 0) eqn:E; [by apply Qeq_bool_iff in E|].
  by eexists.
Qed.

(** X19: in a block that [InvestmentStorage._create] returns, every storage
    of the group has at every timestep a capacity variable that is
    non-negative and has no bounds of its own, and a balance constraint
    [capacity[t] - capacity[previous(t)] * (1 - capacity_loss[t])
     - inflow[t] * inflow_eff[t] * dt + outflow[t] / outflow_eff[t] * dt == 0]
    whose discharge efficiency is not zero. *)
Theorem InvestmentStorage_balance (group : list Node)
    (self b : InvestmentStorage.t) :
  InvestmentStorage._create m m_InvestmentFlow (Some group) self = Ok b ->
  forall n t, n ∈ group -> t ∈ timesteps m ->
    InvestmentStorage.capacity b !! (n, t)
    = Some (mkVar NonNegativeReals None None None false)
    /\ exists i o c,
         INPUTS m !! n = Some i /\ OUTPUTS m !! n = Some o
         /\ ~ (network.outflow_conversion_factor (storage m n) t == 0)%Q
         /\ InvestmentStorage.balance b !! (n, t) = Some c
         /\ rel c = EQ /\ rhs c = Num 0
         /\ forall env,
              (eval env (lhs c)
               == env (InvestmentStorage_capacity n t)
                  - env (InvestmentStorage_capacity n
                           (previous_timesteps m t))
                    * (1 - network.capacity_loss (storage m n) t)
                  - env (flow i n t)
                    * network.inflow_conversion_factor (storage m n) t
                    * timeincrement m
                  + env (flow n o t)
                    / network.outflow_conversion_factor (storage m n) t
                    * timeincrement m)%Q.
Proof.
  intros Hb n t Hn Ht. unfold InvestmentStorage._create in Hb.
  do 8 bind_inv Hb. injection Hb as <-. simpl.
  assert ((n, t) ∈ cprod group (timesteps m)) as Hk
    by (by apply list_elem_of_cprod).
  split.
  - rewrite (Var_lookup _ _ _ _ _ E). by rewrite decide_True.
  - destruct (Constraint_inv _ _ _ E1 (n, t) Hk) as [c Hc].
    pose proof (Constraint_lookup _ _ _ (n, t) E1) as Hl.
    rewrite decide_True in Hl by done. rewrite Hc in Hl.
    destruct (InvestmentStorage_balance_rule_inv n t c Hc)
      as (i & o & Hi & Ho & Hnz & Hrel & Hrhs & Hev).
    by exists i, o, c.
Qed.

(** X20: [InvestmentStorage._create] returns a block exactly when every
    storage of the group has an input and an output whose edges have a
    sizing variable in an investment-flow block that has been built, no
    discharge efficiency is zero at a timestep, and no initial capacity
    meets an empty time index. *)
Theorem InvestmentStorage_create_ok_iff (group : list Node)
    (self : InvestmentStorage.t) :
  is_Ok (InvestmentStorage._create m m_InvestmentFlow (Some group) self)
  <-> (forall n, n ∈ group ->
         is_Some (InvestmentFlow.FLOWS m_InvestmentFlow)
         /\ exists i o,
              INPUTS m !! n = Some i /\ OUTPUTS m !! n = Some o
              /\ is_Some (InvestmentFlow.invest m_InvestmentFlow !! (i, n))
              /\ is_Some (InvestmentFlow.invest m_InvestmentFlow !! (n, o)))
      /\ (forall n t, n ∈ group -> t ∈ timesteps m ->
            ~ (network.outflow_conversion_factor (storage m n) t == 0)%Q)
      /\ ((exists n, n ∈ group
                     /\ is_Some (network.initial_capacity (storage m n))) ->
          timesteps m ≠ []).
Proof.
  split.
  - intros [b Hb]. unfold InvestmentStorage._create in Hb.
    do 8 bind_inv Hb. split_and!.
    + intros n Hn.
      destruct (Constraint_inv _ _ _ E3 n Hn) as [ci Hci].
      destruct (Constraint_inv _ _ _ E4 n Hn) as [co Hco].
      apply InvestmentStorage_input_rule_inv in Hci
        as (i & Hi & Hf & Hvi & _).
      apply InvestmentStorage_output_rule_inv in Hco as (o & Ho & Hvo & _).
      split; [done|]. by exists i, o.
    + intros n t Hn Ht.
      destruct (Constraint_inv _ _ _ E1 (n, t)) as [c Hc];
        [by apply list_elem_of_cprod|].
      by destruct (InvestmentStorage_balance_rule_inv n t c Hc)
        as (i & o & _ & _ & Hnz & _).
    + intros (n & Hn & Hinit) Hts.
      destruct (Constraint_inv _ _ _ E2 n) as [c Hc];
        [by apply list_elem_of_filter|].
      apply InvestmentStorage_initial_rule_inv in Hc as (tl & _ & Hl & _).
      by rewrite Hts in Hl.
  - intros (Hio & Hnz & Hinit). unfold InvestmentStorage._create.
    destruct (Var_total (cprod group (timesteps m)) NonNegativeReals
                        (@unbounded (Node * nat))) as [cap Hcap];
      [intros k _; by eexists|].
    rewrite Hcap. simpl.
    destruct (Var_total group NonNegativeReals
                (InvestmentStorage._storage_investvar_bound_rule m))
      as [inv ->]; [intros k _; by eexists|].
    simpl.
    destruct (Constraint_total (cprod group (timesteps m))
                (InvestmentStorage._storage_balance_rule m)) as [bal ->].
    { intros [n t] [Hn Ht]%list_elem_of_cprod. simpl in *.
      destruct (Hio n Hn) as (_ & i & o & Hi & Ho & _).
      apply (InvestmentStorage_balance_rule_some n i o t); auto. }
    simpl.
    destruct (Constraint_total
                (filter (fun n => is_Some (network.initial_capacity
                                             (storage m n))) group)
                (InvestmentStorage._initial_capacity_invest_rule m cap))
      as [ini ->].
    { intros n [[c0 Hc0] Hn]%list_elem_of_filter.
      destruct (proj2 (last_is_Some (timesteps m))) as [tl Hl].
      { apply Hinit. exists n. split; [done|by eexists]. }
      unfold rule_constr, InvestmentStorage._initial_capacity_invest_rule,
        last_item, var_ref, num_opt.
      rewrite Hl. simpl. rewrite (Var_lookup _ _ _ _ _ Hcap).
      rewrite decide_True.
      - simpl. rewrite Hc0. by eexists.
      - apply list_elem_of_cprod. split; [done|]. simpl.
        apply last_Some in Hl as [l' ->]. apply elem_of_app. right.
        by left. }
    simpl.
    destruct (Constraint_total group
                (InvestmentStorage._storage_capacity_input_invest_rule
                   m m_InvestmentFlow)) as [cin ->].
    { intros n Hn.
      destruct (Hio n Hn) as ([fl Hf] & i & o & Hi & _ & [vi Hvi] & _).
      unfold rule_constr,
        InvestmentStorage._storage_capacity_input_invest_rule,
        InvestmentStorage.InvestmentFlow_invest_ref, getitem, var_ref.
      rewrite Hi. simpl. rewrite Hf, Hvi. by eexists. }
    simpl.
    destruct (Constraint_total group
                (InvestmentStorage._storage_capacity_output_invest_rule
                   m m_InvestmentFlow)) as [cout ->].
    { intros n Hn.
      destruct (Hio n Hn) as ([fl Hf] & i & o & _ & Ho & _ & [vo Hvo]).
      unfold rule_constr,
        InvestmentStorage._storage_capacity_output_invest_rule,
        InvestmentStorage.InvestmentFlow_invest_ref, getitem, var_ref.
      rewrite Ho. simpl. rewrite Hf, Hvo. by eexists. }
    simpl.
    destruct (Constraint_total (cprod group (timesteps m))
                (InvestmentStorage._max_capacity_invest_rule m))
      as [cmax ->]; [intros [n t] _; by eexists|].
    simpl.
    destruct (Constraint_total
                (cprod (filter (fun n => InvestmentStorage.has_capacity_min
                                           m n = true) group)
                       (timesteps m))
                (InvestmentStorage._min_investstorage_rule m))
      as [cmin ->]; [intros [n t] _; by eexists|].
    by eexists.
Qed.

End investment_storage_balance.

Lemma InvestmentStorage_balance_witness :
  exists b,
    InvestmentStorage._create Scenario.m_invest Scenario.invest_flows
                              (Some ["storage"]) InvestmentStorage.new = Ok b
    /\ InvestmentStorage.capacity b !! ("storage", 0%nat)
       = Some (mkVar NonNegativeReals None None None false).
Proof.
  destruct (InvestmentStorage._create
              Scenario.m_invest Scenario.invest_flows (Some ["storage"])
              InvestmentStorage.new) as [b|e] eqn:Hb;
    [|vm_compute in Hb; discriminate Hb].
  destruct (InvestmentStorage_balance
              Scenario.m_invest Scenario.invest_flows ["storage"]
              InvestmentStorage.new b Hb "storage" 0%nat) as [Hcap _];
    [by left|by left|].
  by exists b.
Defined.

Lemma InvestmentStorage_create_ok_iff_witness :
  is_Ok (InvestmentStorage._create Scenario.m_invest Scenario.invest_flows
                                   (Some ["storage"]) InvestmentStorage.new).
Proof.
  apply (InvestmentStorage_create_ok_iff
           Scenario.m_invest Scenario.invest_flows ["storage"]
           InvestmentStorage.new).
  split_and!.
  - intros n ->%list_elem_of_singleton. split; [by eexists|].
    exists "bus", "bus". split_and!; [reflexivity|reflexivity| |];
      eexists; vm_compute; reflexivity.
  - intros n t ->%list_elem_of_singleton _. discriminate.
  - discriminate.
Defined.

(** ** The constructor of a line *)

(** X21: [ElectricalLine.__init__] accepts a line exactly when it has at
    most one input and at most one output, and raises the [ValueError] of
    the check otherwise.  The accepted line keeps its inputs and outputs,
    its reactance is the given number at every index, [0.00001] when none
    is given; a line built with one input, one output and no reactance
    answers them to [_input()] and [_output()] and has no zero
    reactance. *)
Theorem ElectricalLine_init_accepts (inputs outputs : list Node)
    (r : option Q) :
  (is_Ok (custom.ElectricalLine__init__ inputs outputs r)
   <-> (length inputs <= 1)%nat /\ (length outputs <= 1)%nat)
  /\ (~ is_Ok (custom.ElectricalLine__init__ inputs outputs r) ->
      custom.ElectricalLine__init__ inputs outputs r
      = Raise (ValueError
                 ["Component ElectricLine must not have more than                              one input and one output!"]))
  /\ (forall l, custom.ElectricalLine__init__ inputs outputs r = Ok l ->
        custom.line_inputs l = inputs
        /\ custom.line_outputs l = outputs
        /\ (forall t, custom.reactance l t = default (1 # 100000)%Q r)
        /\ (forall i o, inputs = [i] -> outputs = [o] ->
              custom._input l = Ok i /\ custom._output l = Ok o)
        /\ (r = None -> forall t, ~ (custom.reactance l t == 0)%Q)).
Proof.
  unfold custom.ElectricalLine__init__. cbv zeta. cbn [custom.line_inputs
    custom.line_outputs].
  destruct (decide (1 < length inputs \/ 1 < length outputs)) as [Hd|Hd].
  - split_and!.
    + split; [by intros [l Hl]|lia].
    + by intros _.
    + by intros l Hl.
  - split_and!.
    + split; [lia|by eexists].
    + intros Hn. destruct Hn. by eexists.
    + intros l [= <-]. simpl. split_and!; [done|done| | |].
      * intros t. by destruct r.
      * by intros i o -> ->.
      * by intros -> t.
Qed.

Lemma ElectricalLine_init_accepts_witness :
  exists l,
    custom.ElectricalLine__init__ ["b1"] ["b0"] None = Ok l
    /\ custom._input l = Ok "b1" /\ custom._output l = Ok "b0"
    /\ ~ (custom.reactance l 0%nat == 0)%Q.
Proof.
  destruct (ElectricalLine_init_accepts ["b1"] ["b0"] None)
    as ([_ Hok] & _ & Hl).
  destruct Hok as [l Hline]; [simpl; lia|].
  destruct (Hl l Hline) as (_ & _ & _ & Hio & Hr).
  destruct (Hio "b1" "b0" eq_refl eq_refl) as [Hi Ho].
  exists l. split_and!; [done|done|done|by apply Hr].
Defined.

(** ** Upper bounds of the gradient variables *)

(** A loop whose turns each write, under their own edge, one entry per
    timestep into a container of the state, or leave that container
    alone. *)
Lemma for_edge_entries {G St : Type} (step : G -> St -> result St)
    (proj : St -> gmap (Edge * nat) Q) (edge : G -> Edge)
    (active : G -> Prop) (val : G -> nat -> option Q) (ts : list nat)
    (group : list G) :
  (forall g st st', g ∈ group -> step g st = Ok st' ->
     (active g ->
      (forall t, t ∈ ts ->
         exists u, val g t = Some u /\ proj st' !! (edge g, t) = Some u)
      /\ forall k, ~ (k.1 = edge g /\ k.2 ∈ ts) ->
           proj st' !! k = proj st !! k)
     /\ (~ active g -> proj st' = proj st)) ->
  (forall g g', g ∈ group -> g' ∈ group -> edge g = edge g' -> g = g') ->
  (forall g, active g \/ ~ active g) ->
  forall st st', for_ group step st = Ok st' ->
    (forall g t, g ∈ group -> active g -> t ∈ ts ->
       exists u, val g t = Some u /\ proj st' !! (edge g, t) = Some u)
    /\ forall k,
         (forall g, g ∈ group -> active g -> k.1 = edge g -> k.2 ∉ ts) ->
         proj st' !! k = proj st !! k.
Proof.
  induction group as [|g0 group IH]; intros Hstep Hfun Hdec st st' Hfor.
  - injection Hfor as <-. split; [|done].
    intros g t Hg. by apply elem_of_nil in Hg.
  - cbn [for_] in Hfor. destruct (step g0 st) as [st1|e] eqn:E;
      simpl in Hfor; [|discriminate Hfor].
    destruct (IH (fun g s s' Hg => Hstep g s s' (list_elem_of_further _ _ _ Hg))
                 (fun g g' Hg Hg' => Hfun g g' (list_elem_of_further _ _ _ Hg)
                                          (list_elem_of_further _ _ _ Hg'))
                 Hdec st1 st' Hfor) as [Hset Hkeep].
    destruct (Hstep g0 st st1 (list_elem_of_here _ _) E) as [Hact Hoff].
    split.
    + intros g t Hg Ha Ht.
      apply elem_of_cons in Hg as [->|Hg]; [|by apply Hset].
      destruct (decide (edge g0 ∈ map edge group)) as [Hin|Hnin].
      * apply elem_of_map in Hin as (g & Hedge & Hg).
        assert (g0 = g) as <-; [|by apply Hset].
        apply Hfun; [by left|by right|done].
      * destruct (Hact Ha) as [Hv _]. destruct (Hv t Ht) as (u & Hu & Hl).
        exists u. split; [done|]. rewrite Hkeep; [done|].
        intros g Hg _ Hedge. simpl in Hedge. exfalso. apply Hnin.
        apply elem_of_map. by exists g.
    + intros k Hk. rewrite Hkeep.
      * destruct (Hdec g0) as [Ha|Hna].
        -- destruct (Hact Ha) as [_ Hframe]. apply Hframe.
           intros [Hedge Ht]. by apply (Hk g0); [left| | |].
        -- by rewrite (Hoff Hna).
      * intros g Hg. apply Hk. by right.
Qed.

Section flow_gradient_bounds.
Variable m : Model.

(** The loop over the timesteps writes one bound per timestep under the
    edge and touches no other entry. *)
Lemma setub_loop_inv (i o : Node) (f : network.Flow)
    (grad : sequence (option Q)) st st' :
  Flow.setub_loop m i o f grad st = Ok st' ->
  (forall t, t ∈ timesteps m ->
     exists u, match grad t, network.nominal_value f with
               | Some a, Some b => Some (a * b)%Q
               | _, _ => None
               end = Some u
               /\ st'.1 !! ((i, o), t) = Some u)
  /\ forall k, ~ (k.1 = (i, o) /\ k.2 ∈ timesteps m) ->
       st'.1 !! k = st.1 !! k.
Proof.
  unfold Flow.setub_loop. revert st.
  induction (timesteps m) as [|t0 l IH]; intros st Hfor.
  - injection Hfor as <-. split; [|done].
    intros t Ht. by apply elem_of_nil in Ht.
  - cbn [for_] in Hfor. unfold mul_opt in Hfor at 1.
    destruct (grad t0) as [a|] eqn:Ea; simpl in Hfor; [|discriminate Hfor].
    destruct (network.nominal_value f) as [b|] eqn:Eb; simpl in Hfor;
      [|discriminate Hfor].
    destruct (IH _ Hfor) as [Hset Hkeep]. simpl in Hkeep. split.
    + intros t Ht. destruct (decide (t ∈ l)) as [Hin|Hnin];
        [by apply Hset|].
      apply elem_of_cons in Ht as [->|Ht]; [|done].
      exists (a * b)%Q. rewrite Ea. split; [done|].
      rewrite Hkeep by (by intros [_ ?]). apply lookup_insert_eq.
    + intros k Hk. rewrite Hkeep.
      * apply lookup_insert_ne. intros <-. apply Hk. split; [done|by left].
      * intros [? ?]. apply Hk. split; [done|by right].
Qed.

(** One turn of the loop over the group, for an edge that is the one the
    model holds. *)
Lemma gradient_bounds_step_inv (i o : Node) (f : network.Flow) st st' :
  flows m !! (i, o) = Some f ->
  Flow.gradient_bounds_step m (i, o, f) st = Ok st' ->
  ((is_Some (network.positive_gradient f 0%nat) ->
    (forall t, t ∈ timesteps m ->
       exists u, match network.positive_gradient f t,
                       network.nominal_value f with
                 | Some a, Some b => Some (a * b)%Q
                 | _, _ => None
                 end = Some u
                 /\ Flow.positive_ub st'.1 !! ((i, o), t) = Some u)
    /\ forall k, ~ (k.1 = (i, o) /\ k.2 ∈ timesteps m) ->
         Flow.positive_ub st'.1 !! k = Flow.positive_ub st.1 !! k)
   /\ (~ is_Some (network.positive_gradient f 0%nat) ->
       Flow.positive_ub st'.1 = Flow.positive_ub st.1))
  /\ ((is_Some (network.negative_gradient f 0%nat) ->
       (forall t, t ∈ timesteps m ->
          exists u, match network.negative_gradient f t,
                          network.nominal_value f with
                    | Some a, Some b => Some (a * b)%Q
                    | _, _ => None
                    end = Some u
                    /\ Flow.negative_ub st'.1 !! ((i, o), t) = Some u)
       /\ forall k, ~ (k.1 = (i, o) /\ k.2 ∈ timesteps m) ->
            Flow.negative_ub st'.1 !! k = Flow.negative_ub st.1 !! k)
      /\ (~ is_Some (network.negative_gradient f 0%nat) ->
          Flow.negative_ub st'.1 = Flow.negative_ub st.1)).
Proof.
  intros Hf Hstep. destruct st as [gb loc].
  unfold Flow.gradient_bounds_step, getitem in Hstep.
  rewrite Hf in Hstep. simpl in Hstep.
  destruct (decide (is_Some (network.positive_gradient f 0%nat)))
    as [Hp|Hp];
    destruct (decide (is_Some (network.negative_gradient f 0%nat)))
      as [Hn|Hn].
  - destruct (Flow.setub_loop m i o f (network.positive_gradient f) _)
      as [[pub loc1]|e] eqn:Ep; simpl in Hstep; [|discriminate Hstep].
    destruct (Flow.setub_loop m i o f (network.negative_gradient f) _)
      as [[nub loc2]|e] eqn:En; simpl in Hstep; [|discriminate Hstep].
    injection Hstep as <-. simpl.
    split; (split; [intros _|done]).
    + exact (setub_loop_inv _ _ _ _ _ _ Ep).
    + exact (setub_loop_inv _ _ _ _ _ _ En).
  - destruct (Flow.setub_loop m i o f (network.positive_gradient f) _)
      as [[pub loc1]|e] eqn:Ep; simpl in Hstep; [|discriminate Hstep].
    injection Hstep as <-. simpl.
    split; (split; [intros ?|done]); [|done].
    exact (setub_loop_inv _ _ _ _ _ _ Ep).
  - simpl in Hstep.
    destruct (Flow.setub_loop m i o f (network.negative_gradient f) _)
      as [[nub loc2]|e] eqn:En; simpl in Hstep; [|discriminate Hstep].
    injection Hstep as <-. simpl.
    split; (split; [intros ?|done]); [done|].
    exact (setub_loop_inv _ _ _ _ _ _ En).
  - simpl in Hstep. injection Hstep as <-. simpl.
    split; (split; [intros ?|done]); done.
Qed.

(** X22: for a group whose edges are those the model holds,
    [Flow._create] gives the positive (negative) gradient variable of an
    edge with a positive (negative) gradient the upper bound
    [gradient[t] * nominal_value] at every timestep, gradient and nominal
    value being numbers, and leaves the bounds outside the set of such
    edges and outside the time index as they were. *)
Theorem Flow_gradient_bounds (group : list (Node * Node * network.Flow))
    (self b : Flow.t) (gb gb' : Flow.GradientBounds) :
  (forall i o f, (i, o, f) ∈ group -> flows m !! (i, o) = Some f) ->
  Flow._create m (Some group) self gb = Ok (b, gb') ->
  (forall i o f t, (i, o, f) ∈ group -> t ∈ timesteps m ->
     (is_Some (network.positive_gradient f 0%nat) ->
      exists g nv,
        network.positive_gradient f t = Some g
        /\ network.nominal_value f = Some nv
        /\ Flow.positive_ub gb' !! ((i, o), t) = Some (g * nv)%Q)
     /\ (is_Some (network.negative_gradient f 0%nat) ->
         exists g nv,
           network.negative_gradient f t = Some g
           /\ network.nominal_value f = Some nv
           /\ Flow.negative_ub gb' !! ((i, o), t) = Some (g * nv)%Q))
  /\ (forall k, k.1 ∉ Flow.POSITIVE_GRADIENT_FLOWS b \/ k.2 ∉ timesteps m ->
        Flow.positive_ub gb' !! k = Flow.positive_ub gb !! k)
  /\ (forall k, k.1 ∉ Flow.NEGATIVE_GRADIENT_FLOWS b \/ k.2 ∉ timesteps m ->
        Flow.negative_ub gb' !! k = Flow.negative_ub gb !! k).
Proof.
  intros Hcons Hb. unfold Flow._create in Hb.
  destruct (for_ group (Flow.gradient_bounds_step m)
                 (gb, Flow.mkLocals None None None))
    as [[gb1 loc]|e] eqn:Efor; simpl in Hb; [|discriminate Hb].
  do 4 bind_inv Hb. injection Hb as <- <-.
  assert (Hfun : forall g g' : Node * Node * network.Flow,
            g ∈ group -> g' ∈ group -> Flow.edge g = Flow.edge g' ->
            g = g').
  { intros [[i o] f] [[i' o'] f'] Hg Hg' [= <- <-].
    pose proof (Hcons _ _ _ Hg) as H1. pose proof (Hcons _ _ _ Hg') as H2.
    rewrite H1 in H2. by injection H2 as <-. }
  destruct (fun H1 H3 =>
              for_edge_entries
                (Flow.gradient_bounds_step m)
                (fun st => Flow.positive_ub st.1) Flow.edge
                (fun g => is_Some (network.positive_gradient g.2 0%nat))
                (fun g t => match network.positive_gradient g.2 t,
                                  network.nominal_value g.2 with
                            | Some a, Some b => Some (a * b)%Q
                            | _, _ => None
                            end)
                (timesteps m) group H1 Hfun H3 _ _ Efor) as [Hpset Hpkeep].
  { intros [[i o] f] st st' Hg Hs.
    exact (proj1 (gradient_bounds_step_inv i o f st st' (Hcons _ _ _ Hg)
                                           Hs)). }
  { intros g. destruct (network.positive_gradient g.2 0%nat);
      [left; by eexists|right; by intros [? ?]]. }
  destruct (fun H1 H3 =>
              for_edge_entries
                (Flow.gradient_bounds_step m)
                (fun st => Flow.negative_ub st.1) Flow.edge
                (fun g => is_Some (network.negative_gradient g.2 0%nat))
                (fun g t => match network.negative_gradient g.2 t,
                                  network.nominal_value g.2 with
                            | Some a, Some b => Some (a * b)%Q
                            | _, _ => None
                            end)
                (timesteps m) group H1 Hfun H3 _ _ Efor) as [Hnset Hnkeep].
  { intros [[i o] f] st st' Hg Hs.
    exact (proj2 (gradient_bounds_step_inv i o f st st' (Hcons _ _ _ Hg)
                                           Hs)). }
  { intros g. destruct (network.negative_gradient g.2 0%nat);
      [left; by eexists|right; by intros [? ?]]. }
  simpl in *. split_and!.
  - intros i o f t Hg Ht. split; intros Ha.
    + destruct (Hpset (i, o, f) t Hg Ha Ht) as (u & Hu & Hl). simpl in *.
      destruct (network.positive_gradient f t) as [g|]; [|done].
      destruct (network.nominal_value f) as [nv|]; [|done].
      injection Hu as <-. by exists g, nv.
    + destruct (Hnset (i, o, f) t Hg Ha Ht) as (u & Hu & Hl). simpl in *.
      destruct (network.negative_gradient f t) as [g|]; [|done].
      destruct (network.nominal_value f) as [nv|]; [|done].
      injection Hu as <-. by exists g, nv.
  - intros k Hk. apply Hpkeep. intros g Hg Ha Hedge Ht.
    destruct Hk as [Hk|Hk]; [|done]. apply Hk. apply elem_of_map.
    exists g. split; [done|]. by apply list_elem_of_filter.
  - intros k Hk. apply Hnkeep. intros g Hg Ha Hedge Ht.
    destruct Hk as [Hk|Hk]; [|done]. apply Hk. apply elem_of_map.
    exists g. split; [done|]. by apply list_elem_of_filter.
Qed.

End flow_gradient_bounds.

Lemma Flow_gradient_bounds_witness :
  exists b gb',
    Flow._create Scenario.m_ramp (Some Scenario.ramp_group) Flow.new
                 Scenario.no_bounds = Ok (b, gb')
    /\ Flow.negative_ub gb' !! ("a", "bus", 2%nat)
       = Some ((1 # 10) * 10)%Q
    /\ Flow.positive_ub gb' !! ("a", "bus", 2%nat) = None.
Proof.
  destruct (Flow._create Scenario.m_ramp (Some Scenario.ramp_group)
                         Flow.new Scenario.no_bounds)
    as [[b gb']|e] eqn:Hb; [|vm_compute in Hb; discriminate Hb].
  destruct (Flow_gradient_bounds Scenario.m_ramp Scenario.ramp_group
                                 Flow.new b Scenario.no_bounds gb')
    as (Hset & Hpos & _); [|exact Hb|].
  - intros i o f [[= -> -> ->]|[[= -> -> ->]|[]%elem_of_nil
                                              ]%elem_of_cons]%elem_of_cons;
      reflexivity.
  - exists b, gb'. split; [done|]. split.
    + destruct (Hset "a" "bus" Scenario.ramped_edge 2%nat) as [_ Hneg];
        [by left|by right; right; left|].
      destruct Hneg as (g & nv & Hg & Hnv & Hl); [by eexists|].
      injection Hg as <-. injection Hnv as <-. exact Hl.
    + rewrite Hpos; [done|]. left.
      assert (Flow.POSITIVE_GRADIENT_FLOWS b = []) as ->.
      { vm_compute in Hb. by injection Hb as <- _. }
      apply not_elem_of_nil.
Defined.
